(** * tcsss: traffic-shaping reconciler, route optimizer and template selector

    A shallow embedding of the Go sources of tcsss (internal/syslimit,
    internal/route, internal/traffic, internal/errors, internal/config,
    internal/sysinfo), the properties its specification states about them,
    and further properties read off the code.  One call of a
    function is modelled at a time, as it runs when no other goroutine
    touches the state it reads and writes.

    Conventions of the embedding.
    - Go [string] is a byte string: [string] of the Standard Library.
    - Go [int] is [Z].  Where the program computes on numbers a
      configuration file supplies (the window sizes of bytesToSegments),
      the wrap-around of the 64-bit int is written out; MTU, queue lengths,
      counters and link indexes stay far from the 64-bit bounds.
    - Go [float64] is the kernel's binary64 [float], so products and
      comparisons round and compare exactly as the compiled program does.
    - A Go map used as a map is a [gmap], used as a set a [gset].
    - Calls that leave the process (netlink, external commands, sysfs and
      procfs reads) are answered by an environment; every call is appended
      to a trace, and the environment answers as a function of the trace so
      far.  Logging is not part of the model. *)

From Stdlib Require Import ZArith Floats Ascii.
From stdpp Require Import base decidable option list gmap strings pretty sorting.

Local Open Scope Z_scope.

(** ** Results of fallible Go functions: a value or an error. *)

Inductive Result (A E : Type) : Type :=
| Ok (a : A)
| Err (e : E).
Arguments Ok {A E} a.
Arguments Err {A E} e.

Definition is_err {A E} (r : Result A E) : bool :=
  match r with Ok _ => false | Err _ => true end.

(** ** The functions of Go's [strings], [strconv], [sort] and [bufio] the
       program calls, on byte strings.  Case mapping and white space are those
       of ASCII, which is what interface names, feature names and the output
       of ip, tc and ethtool consist of. *)

Module GoStrings.

Definition isUpper (c : ascii) : bool :=
  Ascii.leb "A"%char c && Ascii.leb c "Z"%char.

Definition toLowerByte (c : ascii) : ascii :=
  if isUpper c then ascii_of_N (N_of_ascii c + 32) else c.

(** strings.ToLower *)
Fixpoint ToLower (s : string) : string :=
  match s with
  | EmptyString => EmptyString
  | String c rest => String (toLowerByte c) (ToLower rest)
  end.

(** strings.EqualFold *)
Definition EqualFold (a b : string) : bool :=
  String.eqb (ToLower a) (ToLower b).

Fixpoint trimLeft (s : string) : string :=
  match s with
  | EmptyString => EmptyString
  | String c rest => if Ascii.is_space c then trimLeft rest else s
  end.

Fixpoint trimRight (s : string) : string :=
  match s with
  | EmptyString => EmptyString
  | String c rest =>
      let rest' := trimRight rest in
      if Ascii.is_space c && String.eqb rest' EmptyString then EmptyString
      else String c rest'
  end.

(** strings.TrimSpace *)
Definition TrimSpace (s : string) : string := trimRight (trimLeft s).

(** strings.HasPrefix *)
Definition HasPrefix (s prefix : string) : bool := String.prefix prefix s.

(** strings.Contains *)
Fixpoint Contains (s substr : string) : bool :=
  match s with
  | EmptyString => String.prefix substr EmptyString
  | String _ rest => String.prefix substr s || Contains rest substr
  end.

(** strings.Join *)
Definition Join (elems : list string) (sep : string) : string :=
  String.concat sep elems.

(** strings.Fields *)
Definition Fields (s : string) : list string := String.words s.

Fixpoint dropBytes (n : nat) (s : string) : string :=
  match n, s with
  | O, _ => s
  | S k, String _ rest => dropBytes k rest
  | S _, EmptyString => EmptyString
  end.

(** s[:n] for n <= len(s) *)
Fixpoint takeBytes (n : nat) (s : string) : string :=
  match n, s with
  | S k, String c rest => String c (takeBytes k rest)
  | _, _ => EmptyString
  end.

(** strings.Split for a non-empty separator: [skip] bytes of a separator
    just matched remain to be passed over; [cur] is the piece being read. *)
Fixpoint splitAux (sep s : string) (skip : nat) (cur : string) : list string :=
  match s with
  | EmptyString => [cur]
  | String c rest =>
      match skip with
      | S k => splitAux sep rest k cur
      | O =>
          if String.prefix sep s
          then cur :: splitAux sep rest (String.length sep - 1) EmptyString
          else splitAux sep rest 0 (cur +:+ String c EmptyString)
      end
  end.

Definition Split (s sep : string) : list string := splitAux sep s 0 EmptyString.

(** strings.SplitN(s, sep, 2) for a non-empty separator *)
Fixpoint splitFirst (sep s : string) (cur : string) : list string :=
  match s with
  | EmptyString => [cur]
  | String c rest =>
      if String.prefix sep s then [cur; dropBytes (String.length sep) s]
      else splitFirst sep rest (cur +:+ String c EmptyString)
  end.

Definition SplitN2 (s sep : string) : list string := splitFirst sep s EmptyString.

(** strings.ReplaceAll for a non-empty [old] *)
Fixpoint replaceAux (old new s : string) (skip : nat) : string :=
  match s with
  | EmptyString => EmptyString
  | String c rest =>
      match skip with
      | S k => replaceAux old new rest k
      | O =>
          if String.prefix old s
          then new +:+ replaceAux old new rest (String.length old - 1)
          else String c (replaceAux old new rest 0)
      end
  end.

Definition ReplaceAll (s old new : string) : string := replaceAux old new s 0.

(** strconv.Itoa and fmt.Sprintf("%d", n) *)
Definition Itoa (n : Z) : string := pretty n.

Definition digitValue (c : ascii) : option Z :=
  if Ascii.leb "0"%char c && Ascii.leb c "9"%char
  then Some (Z.of_N (N_of_ascii c) - 48) else None.

Fixpoint parseDigits (s : string) (acc : Z) : option Z :=
  match s with
  | EmptyString => Some acc
  | String c rest =>
      match digitValue c with
      | Some d => parseDigits rest (10 * acc + d)
      | None => None
      end
  end.

(** strconv.Atoi: an optional sign, then one or more decimal digits, the
    value within the range of a 64-bit int; [None] is the *NumError. *)
Definition Atoi (s : string) : option Z :=
  let '(neg, digits) :=
    match s with
    | String "-"%char rest => (true, rest)
    | String "+"%char rest => (false, rest)
    | _ => (false, s)
    end in
  match digits with
  | EmptyString => None
  | _ =>
      match parseDigits digits 0 with
      | Some v =>
          let n := if neg then - v else v in
          if (- 2 ^ 63 <=? n) && (n <=? 2 ^ 63 - 1) then Some n else None
      | None => None
      end
  end.

(** sort.Strings: the ascending arrangement under byte-wise comparison. *)
Definition SortStrings (l : list string) : list string :=
  merge_sort String.le l.

Definition dropCR (line : string) : string :=
  match String.rev line with
  | String "013"%char rest => String.rev rest
  | _ => line
  end.

Definition MaxScanTokenSize : Z := 64 * 1024.

(** The lines a bufio.Scanner yields over the text: split at newlines, one
    trailing carriage return dropped from each, no line for the empty
    remainder after the last newline; [None] is ErrTooLong, a line that does
    not fit the scanner's buffer. *)
Definition ScanLines (text : string) : option (list string) :=
  let pieces := Split text (String "010"%char EmptyString) in
  let lines :=
    match last pieces with
    | Some EmptyString => removelast pieces
    | _ => pieces
    end in
  if forallb (fun l => Z.of_nat (String.length l) <? MaxScanTokenSize) lines
  then Some (dropCR <$> lines) else None.

(** strings.Index: the index of the first instance of [substr], or -1. *)
Fixpoint Index (s substr : string) : Z :=
  if String.prefix substr s then 0
  else
    match s with
    | EmptyString => -1
    | String _ rest =>
        let i := Index rest substr in
        if i <? 0 then -1 else i + 1
    end.

Fixpoint anyByte (p : ascii → bool) (s : string) : bool :=
  match s with
  | EmptyString => false
  | String c rest => p c || anyByte p rest
  end.

(** strings.ContainsAny *)
Definition ContainsAny (s chars : string) : bool :=
  anyByte (fun c => anyByte (Ascii.eqb c) chars) s.

(** strings.HasSuffix *)
Definition HasSuffix (s suffix : string) : bool :=
  String.prefix (String.rev suffix) (String.rev s).

(** strings.TrimPrefix *)
Definition TrimPrefix (s prefix : string) : string :=
  if HasPrefix s prefix then dropBytes (String.length prefix) s else s.

Definition isLower (c : ascii) : bool :=
  Ascii.leb "a"%char c && Ascii.leb c "z"%char.

Definition toUpperByte (c : ascii) : ascii :=
  if isLower c then ascii_of_N (N_of_ascii c - 32) else c.

(** strings.ToUpper *)
Fixpoint ToUpper (s : string) : string :=
  match s with
  | EmptyString => EmptyString
  | String c rest => String (toUpperByte c) (ToUpper rest)
  end.

(** strconv.ParseUint(s, 10, 64): one or more decimal digits, no sign, the
    value below 2^64; [None] is the *NumError. *)
Definition ParseUint (s : string) : option Z :=
  match s with
  | EmptyString => None
  | _ =>
      match parseDigits s 0 with
      | Some v => if v <=? 2 ^ 64 - 1 then Some v else None
      | None => None
      end
  end.

End GoStrings.

(** ** internal/errors: categories, contexts, categorized and aggregated
       errors *)

Module Errors.

Inductive Category : Type :=
| CategoryCritical
| CategoryRecoverable
| CategoryOptional.

Inductive ExtraValue : Type :=
| ExtraInt (n : Z)
| ExtraString (s : string)
| ExtraStrings (l : list string).

Record ErrorContext : Type := mkContext {
  Operation : string;
  Interface : string;
  Profile : string;
  Command : string;
  IFB : string;
  Value : string;
  Expected : string;
  Actual : string;
  Extra : gmap string ExtraValue
}.

Definition emptyContext : ErrorContext := mkContext "" "" "" "" "" "" "" "" ∅.

Definition orElse (later earlier : string) : string :=
  if String.eqb later "" then earlier else later.

(** ErrorContext.Merge: non-empty fields of [other] override. *)
Definition Merge (ec other : ErrorContext) : ErrorContext :=
  {| Operation := orElse (Operation other) (Operation ec);
     Interface := orElse (Interface other) (Interface ec);
     Profile := orElse (Profile other) (Profile ec);
     Command := orElse (Command other) (Command ec);
     IFB := orElse (IFB other) (IFB ec);
     Value := orElse (Value other) (Value ec);
     Expected := orElse (Expected other) (Expected ec);
     Actual := orElse (Actual other) (Actual ec);
     Extra := Extra other ∪ Extra ec |}.

(** An error handed back by netlink, by the command executor or by the file
    system, as far as the program looks at it: its text ([Error()]), whether
    [errors.Is(err, context.Canceled)] holds, and whether it is a
    netlink.LinkNotFoundError. *)
Record ExternalError : Type := mkExternal {
  extText : string;
  extCanceled : bool;
  extNotFound : bool
}.

Inductive FmtArg : Type :=
| ArgStr (s : string)
| ArgInt (n : Z).

(** Go error values built by the program.  [Errorf format args wrapped] is
    [fmt.Errorf(format, args...)] (or [errors.New(format)]) with the operand
    of its [%w] verb, if it has one; [Categorized] is [*errors.Error];
    [Multi] is [*errors.MultiError]. *)
#[warnings="-register-all"] Inductive GoError : Type :=
| External (e : ExternalError)
| Errorf (format : string) (args : list FmtArg) (wrapped : option GoError)
| Categorized (category : Category) (err : GoError) (context : ErrorContext)
| Multi (errs : list GoError).

(** The *strconv.NumError of a failed strconv.Atoi. *)
Definition NumError (input : string) : GoError :=
  Errorf "strconv.Atoi: parsing %q" [ArgStr input] None.

(** errors.New(category, err, context): nil for a nil cause. *)
Definition New (category : Category) (err : option GoError)
    (context : ErrorContext) : option GoError :=
  match err with
  | None => None
  | Some e => Some (Categorized category e context)
  end.

(** errors.WrapRecoverable(err, operation, contexts...) *)
Definition WrapRecoverable (err : option GoError) (operation : string)
    (contexts : list ErrorContext) : option GoError :=
  match err with
  | None => None
  | Some _ =>
      let ctx :=
        foldl Merge
          (mkContext operation "" "" "" "" "" "" "" ∅) contexts in
      New CategoryRecoverable err ctx
  end.

(** Whether an error is an *errors.Error of category Recoverable. *)
Definition isRecoverable (err : GoError) : bool :=
  match err with
  | Categorized CategoryRecoverable _ _ => true
  | _ => false
  end.

(** MultiError: the slice of collected errors. *)
Definition MultiError : Type := list GoError.

Definition Add (m : MultiError) (err : option GoError) : MultiError :=
  match err with
  | Some e => m ++ [e]
  | None => m
  end.

Definition Len (m : MultiError) : Z := Z.of_nat (length m).

Definition ErrorOrNil (m : MultiError) : option GoError :=
  match m with
  | [] => None
  | _ => Some (Multi m)
  end.

End Errors.

(** ** The world outside the process: netlink, the command executor and
       sysfs *)

Module World.
Import Errors.

(** net.Flags bits *)
Definition FlagUp : Z := 1.
Definition FlagLoopback : Z := 4.

Definition hasFlag (flags bit : Z) : bool := negb (Z.land flags bit =? 0).

(** netlink.LinkAttrs, the fields the program reads. *)
Record LinkAttrs : Type := mkAttrs {
  Index : Z;
  MTU : Z;
  TxQLen : Z;
  Name : string;
  Flags : Z
}.

(** netlink.Link: [Attrs()] may be nil. *)
Record Link : Type := mkLink { Attrs : option LinkAttrs }.

(** netlink.Route: [Dst] is nil or a network whose mask has the given
    [Mask.Size()] (ones, bits). *)
Record Route : Type := mkRoute {
  Dst : option (Z * Z);
  LinkIndex : Z
}.

Definition FAMILY_V4 : Z := 2.
Definition FAMILY_V6 : Z := 10.

(** One call that leaves the process. *)
Inductive Call : Type :=
| CallRun (name : string) (args : list string)
| CallLinkList
| CallLinkByName (name : string)
| CallLinkByIndex (index : Z)
| CallLinkDel (link : Link)
| CallLinkSetMTU (link : Link) (mtu : Z)
| CallLinkSetTxQLen (link : Link) (qlen : Z)
| CallRouteList (family : Z)
| CallReadFile (path : string).

Definition Trace : Type := list Call.

(** A CommandExecutor.Run, of any program (tc, ip, ethtool, sysctl). *)
Definition isCommand (c : Call) : bool :=
  match c with CallRun _ _ => true | _ => false end.

(** A netlink call that changes kernel state. *)
Definition isNetlinkMutation (c : Call) : bool :=
  match c with
  | CallLinkDel _ | CallLinkSetMTU _ _ | CallLinkSetTxQLen _ _ => true
  | _ => false
  end.

(** The environment answers each call from the calls made so far.  netlink
    follows its contract: a link (or list) is returned exactly when the
    error is nil. *)
Record Env : Type := mkEnv {
  envRun : Trace → string → list string → string * option ExternalError;
  envLinkList : Trace → Result (list Link) ExternalError;
  envLinkByName : Trace → string → Result Link ExternalError;
  envLinkByIndex : Trace → Z → Result Link ExternalError;
  envLinkDel : Trace → Link → option ExternalError;
  envLinkSetMTU : Trace → Link → Z → option ExternalError;
  envLinkSetTxQLen : Trace → Link → Z → option ExternalError;
  envRouteList : Trace → Z → Result (list Route) ExternalError;
  envReadFile : Trace → string → Result string ExternalError
}.

(** Computations that talk to the environment and extend the trace. *)
Definition M (A : Type) : Type := Env → Trace → A * Trace.

Definition ret {A} (a : A) : M A := fun _ t => (a, t).

Definition bind {A B} (m : M A) (k : A → M B) : M B :=
  fun env t => let '(a, t1) := m env t in k a env t1.

Definition call {A} (c : Call) (answer : Env → Trace → A) : M A :=
  fun env t => (answer env t, t ++ [c]).

Definition Run (name : string) (args : list string)
  : M (string * option ExternalError) :=
  call (CallRun name args) (fun env t => envRun env t name args).
Definition LinkList : M (Result (list Link) ExternalError) :=
  call CallLinkList envLinkList.
Definition LinkByName (name : string) : M (Result Link ExternalError) :=
  call (CallLinkByName name) (fun env t => envLinkByName env t name).
Definition LinkByIndex (index : Z) : M (Result Link ExternalError) :=
  call (CallLinkByIndex index) (fun env t => envLinkByIndex env t index).
Definition LinkDel (link : Link) : M (option ExternalError) :=
  call (CallLinkDel link) (fun env t => envLinkDel env t link).
Definition LinkSetMTU (link : Link) (mtu : Z) : M (option ExternalError) :=
  call (CallLinkSetMTU link mtu) (fun env t => envLinkSetMTU env t link mtu).
Definition LinkSetTxQLen (link : Link) (qlen : Z) : M (option ExternalError) :=
  call (CallLinkSetTxQLen link qlen)
       (fun env t => envLinkSetTxQLen env t link qlen).
Definition RouteList (family : Z) : M (Result (list Route) ExternalError) :=
  call (CallRouteList family) (fun env t => envRouteList env t family).
Definition ReadFile (path : string) : M (Result string ExternalError) :=
  call (CallReadFile path) (fun env t => envReadFile env t path).

(** safeGetLinkAttrs *)
Definition safeGetLinkAttrs (index : Z) : M (Result LinkAttrs GoError) :=
  bind (LinkByIndex index) (fun r =>
    match r with
    | Err e =>
        ret (Err (Errorf "link by index %d: %w" [ArgInt index]
                         (Some (External e))))
    | Ok link =>
        match Attrs link with
        | None =>
            ret (Err (Errorf "link attrs is nil for index %d"
                             [ArgInt index] None))
        | Some attrs => ret (Ok attrs)
        end
    end).

End World.

Notation "x <- c1 ;; c2" := (World.bind c1 (fun x => c2))
  (at level 100, c1 at next level, right associativity).

(** ** internal/route: the route optimizer *)

Module Route.
Import GoStrings Errors World.

(** WindowConfig defines the TCP window byte sizes used during route
    optimization. *)
Record WindowConfig : Type := mkWindowConfig {
  MSSBytes : Z;
  InitCwndBytes : Z;
  InitRwndBytes : Z;
  LoopbackWindowBytes : Z
}.

Definition defaultMSS : Z := 1460.

Record params : Type := mkParams {
  mtu : Z;
  initCwnd : Z;
  initRwnd : Z;
  congctl : string
}.

Definition newParams (mtu initCwnd initRwnd : Z) (congctl : string) : params :=
  mkParams mtu initCwnd initRwnd congctl.

Definition args (p : params) : list string :=
  [ "mtu"; Itoa (mtu p);
    "initcwnd"; Itoa (initCwnd p);
    "initrwnd"; Itoa (initRwnd p);
    "fastopen_no_cookie"; "1" ]
  ++ (if String.eqb (congctl p) "" then []
      else ["congctl"; "lock"; congctl p]).

Definition WithDefaults (cfg : WindowConfig) : WindowConfig :=
  if MSSBytes cfg <=? 0
  then mkWindowConfig defaultMSS (InitCwndBytes cfg) (InitRwndBytes cfg)
                      (LoopbackWindowBytes cfg)
  else cfg.

(** Go's int on the 64-bit platforms the program is built for: a sum or a
    difference is the exact value wrapped around into [-2^63, 2^63). *)
Definition wrapInt (z : Z) : Z := (z + 2 ^ 63) mod 2 ^ 64 - 2 ^ 63.

(** [(bytes + mss - 1) / mss] on int: both the sum and the difference wrap
    around, the quotient truncates towards zero. *)
Definition bytesToSegments (bytes mss : Z) : Z :=
  if (mss <=? 0) || (bytes <=? 0) then 0
  else Z.quot (wrapInt (wrapInt (bytes + mss) - 1)) mss.

(** Optimizer: [hasNetlink] is [opt.netlink != nil]. *)
Record Optimizer : Type := mkOptimizer {
  cfg : WindowConfig;
  initCwndSegments : Z;
  initRwndSegments : Z;
  loopbackCwndSegments : Z;
  loopbackRwndSegments : Z;
  hasNetlink : bool
}.

Definition NewOptimizer (cfg : WindowConfig) (netlinkPresent : bool) : Optimizer :=
  let cfg := WithDefaults cfg in
  let initCwndSegments := bytesToSegments (InitCwndBytes cfg) (MSSBytes cfg) in
  let initRwndSegments := bytesToSegments (InitRwndBytes cfg) (MSSBytes cfg) in
  let loopbackWindowSegments :=
    bytesToSegments (LoopbackWindowBytes cfg) (MSSBytes cfg) in
  {| cfg := cfg;
     initCwndSegments := initCwndSegments;
     initRwndSegments := initRwndSegments;
     loopbackCwndSegments := loopbackWindowSegments;
     loopbackRwndSegments := loopbackWindowSegments;
     hasNetlink := netlinkPresent |}.

Fixpoint deviceAfterDev (fields : list string) : option string :=
  match fields with
  | f :: rest =>
      match rest with
      | device :: _ =>
          if String.eqb f "dev" then Some device else deviceAfterDev rest
      | [] => None
      end
  | [] => None
  end.

Fixpoint extractDeviceLines (lines : list string) : option string :=
  match lines with
  | [] => None
  | line :: rest =>
      match deviceAfterDev (Fields line) with
      | Some device => if String.eqb device "" then None else Some device
      | None => extractDeviceLines rest
      end
  end.

(** extractDevice: [Some device] is (device, true), [None] is ("", false). *)
Definition extractDevice (output : string) : option string :=
  if String.eqb output "" then None
  else extractDeviceLines (Split output (String "010"%char EmptyString)).

Definition isVirtualName (name : string) : bool :=
  if String.eqb name "" then true
  else existsb (HasPrefix name) ["docker"; "br-"; "veth"; "lo"].

Definition shouldOptimizeLocal (line : string) : bool :=
  if String.eqb line "" || negb (HasPrefix line "local ") then false
  else if Contains line "broadcast" then false
  else if Contains line "linkdown" then false
  else match extractDevice line with
       | Some device => negb (String.eqb device "lo")
       | None => true
       end.

Definition shouldOptimizeLoopback (line : string) : bool :=
  if String.eqb line "" || negb (HasPrefix line "local ") then false
  else match extractDevice line with
       | None => false
       | Some device => String.eqb device "lo"
       end.

Definition shouldOptimizeNIC (line nic : string) : bool :=
  if String.eqb line "" || Contains line "linkdown" || Contains line "congctl"
  then false
  else match extractDevice line with
       | None => false
       | Some device => String.eqb device nic
       end.

Definition isTunedToken (token : string) : bool :=
  existsb (String.eqb token) ["mtu"; "initcwnd"; "initrwnd"; "fastopen_no_cookie"].

(** The loop of cleanRouteLine: [skip] tokens remain to be dropped. *)
Fixpoint cleanTokens (tokens : list string) (skip : nat) : list string :=
  match tokens with
  | [] => []
  | token :: rest =>
      match skip with
      | S k => cleanTokens rest k
      | O =>
          if isTunedToken token then
            cleanTokens rest (match rest with [] => 0 | _ => 1 end)%nat
          else if String.eqb token "congctl" then
            match rest with
            | lock :: _ :: _ =>
                if String.eqb lock "lock" then cleanTokens rest 2
                else token :: cleanTokens rest 0
            | _ => token :: cleanTokens rest 0
            end
          else token :: cleanTokens rest 0
      end
  end.

Definition cleanRouteLine (line : string) : string :=
  Join (cleanTokens (Fields line) 0) " ".

(** runIPCommand and runCommand: the executor's Run under the command
    timeout. *)
Definition runIPCommand (args : list string)
  : M (string * option ExternalError) := Run "ip" args.

Definition runCommand (name : string) (args : list string)
  : M (string * option ExternalError) := Run name args.

Definition fetchRoutes (args : list string) : M (Result (list string) GoError) :=
  r <- runIPCommand args ;;
  match r.2 with
  | Some e => ret (Err (External e))
  | None =>
      match ScanLines r.1 with
      | Some lines => ret (Ok lines)
      | None => ret (Err (Errorf "bufio.Scanner: token too long" [] None))
      end
  end.

Definition filterRoutes (lines : list string) (predicate : string → bool)
  : list string :=
  filter (fun line => predicate line = true) (TrimSpace <$> lines).

Definition applyRouteChange (routeLine : string) (params : list string)
  : M (option GoError) :=
  let tokens := Fields routeLine in
  match tokens with
  | [] => ret (Some (Errorf "empty route line" [] None))
  | _ =>
      let args := (["route"; "change"] ++ tokens) ++ params in
      r <- runIPCommand args ;;
      match r.2 with
      | Some e =>
          ret (Some (Errorf "ip %s: %w" [ArgStr (Join args " ")]
                            (Some (External e))))
      | None => ret None
      end
  end.

(** The loop of applyRoutes over the remaining routes, with the counters
    and the first error so far. *)
Fixpoint applyRoutesLoop (routes : list string) (params : list string)
    (optimized failures : Z) (firstErr : option GoError)
  : M (Z * Z * option GoError) :=
  match routes with
  | [] => ret (optimized, failures, firstErr)
  | route :: rest =>
      if String.eqb route "" then
        applyRoutesLoop rest params optimized failures firstErr
      else
        let routeLine := cleanRouteLine route in
        if String.eqb routeLine "" then
          applyRoutesLoop rest params optimized failures firstErr
        else
          err <- applyRouteChange routeLine params ;;
          match err with
          | Some e =>
              applyRoutesLoop rest params optimized (failures + 1)
                (match firstErr with None => Some e | Some _ => firstErr end)
          | None =>
              applyRoutesLoop rest params (optimized + 1) failures firstErr
          end
  end.

Definition applyRoutes (routes : list string) (params : list string)
  : M (Z * Z * option GoError) :=
  applyRoutesLoop routes params 0 0 None.

Record routeJob : Type := mkJob {
  category : string;
  routeArgs : list string;
  filter : string → bool;
  jobParams : params;
  fetchOperation : string;
  applyOperation : string;
  commonErrContext : ErrorContext
}.

Definition operationContext (operation : string) : ErrorContext :=
  mkContext operation "" "" "" "" "" "" "" ∅.

Definition fetchError (job : routeJob) (err : GoError) : option GoError :=
  let context :=
    Merge (operationContext (fetchOperation job)) (commonErrContext job) in
  New CategoryRecoverable
    (Some (Errorf "fetch %s routes: %w" [ArgStr (category job)] (Some err)))
    context.

Definition applyError (job : routeJob) (err : GoError) : option GoError :=
  let context :=
    Merge (operationContext (applyOperation job)) (commonErrContext job) in
  New CategoryRecoverable
    (Some (Errorf "apply %s route changes: %w" [ArgStr (category job)]
                  (Some err)))
    context.

Definition optimize (job : routeJob) : M (option GoError) :=
  fetched <- fetchRoutes (routeArgs job) ;;
  match fetched with
  | Err err => ret (fetchError job err)
  | Ok lines =>
      let filtered := filterRoutes lines (filter job) in
      res <- applyRoutes filtered (args (jobParams job)) ;;
      match res.2 with
      | Some applyErr => ret (applyError job applyErr)
      | None => ret None
      end
  end.

Definition optimizeLocal (opt : Optimizer) : M (option GoError) :=
  optimize
    {| category := "local";
       routeArgs := ["route"; "show"; "table"; "local"];
       filter := shouldOptimizeLocal;
       jobParams :=
         newParams 1500 (initCwndSegments opt) (initRwndSegments opt) "cubic";
       fetchOperation := "fetch_local_routes";
       applyOperation := "optimize_local_routes";
       commonErrContext := emptyContext |}.

Definition loopbackJob (opt : Optimizer) : routeJob :=
  {| category := "loopback";
     routeArgs := ["route"; "show"; "table"; "local"];
     filter := shouldOptimizeLoopback;
     jobParams :=
       newParams 65520 (loopbackCwndSegments opt) (loopbackRwndSegments opt)
                 "cubic";
     fetchOperation := "fetch_loopback_routes";
     applyOperation := "optimize_loopback_routes";
     commonErrContext := emptyContext |}.

Definition optimizeLoopback (opt : Optimizer) : M (option GoError) :=
  optimize (loopbackJob opt).

(** The first loop of getPrimaryNICFromNetlink: a default route (nil Dst)
    whose link has a name. *)
Fixpoint firstDefaultRouteLink (routes : list Route) : M (option string) :=
  match routes with
  | [] => ret None
  | route :: rest =>
      match Dst route with
      | Some _ => firstDefaultRouteLink rest
      | None =>
          if LinkIndex route <=? 0 then firstDefaultRouteLink rest
          else
            r <- safeGetLinkAttrs (LinkIndex route) ;;
            match r with
            | Err _ => firstDefaultRouteLink rest
            | Ok attrs =>
                if String.eqb (Name attrs) "" then firstDefaultRouteLink rest
                else ret (Some (Name attrs))
            end
      end
  end.

(** Its second loop: any route whose link has a name that is not virtual. *)
Fixpoint firstPhysicalRouteLink (routes : list Route) : M (option string) :=
  match routes with
  | [] => ret None
  | route :: rest =>
      if LinkIndex route <=? 0 then firstPhysicalRouteLink rest
      else
        r <- safeGetLinkAttrs (LinkIndex route) ;;
        match r with
        | Err _ => firstPhysicalRouteLink rest
        | Ok attrs =>
            let name := Name attrs in
            if String.eqb name "" || isVirtualName name
            then firstPhysicalRouteLink rest
            else ret (Some name)
        end
  end.

Definition getPrimaryNICFromNetlink : M (Result string GoError) :=
  listed <- RouteList FAMILY_V4 ;;
  match listed with
  | Err e => ret (Err (Errorf "route list: %w" [] (Some (External e))))
  | Ok routes =>
      found <- firstDefaultRouteLink routes ;;
      match found with
      | Some name => ret (Ok name)
      | None =>
          found <- firstPhysicalRouteLink routes ;;
          match found with
          | Some name => ret (Ok name)
          | None =>
              ret (Err (Errorf
                     "no suitable network interface found via netlink"
                     [] None))
          end
      end
  end.

Fixpoint firstDefaultLineDevice (lines : list string) : option string :=
  match lines with
  | [] => None
  | raw :: rest =>
      let line := TrimSpace raw in
      if negb (HasPrefix line "default ") then firstDefaultLineDevice rest
      else match extractDevice line with
           | Some nic =>
               if String.eqb nic "" then firstDefaultLineDevice rest
               else Some nic
           | None => firstDefaultLineDevice rest
           end
  end.

Fixpoint firstPhysicalLineDevice (lines : list string) : option string :=
  match lines with
  | [] => None
  | raw :: rest =>
      let line := TrimSpace raw in
      if Contains line "linkdown" then firstPhysicalLineDevice rest
      else match extractDevice line with
           | None => firstPhysicalLineDevice rest
           | Some nic =>
               if String.eqb nic "lo" then firstPhysicalLineDevice rest
               else if negb (isVirtualName nic) then Some nic
               else firstPhysicalLineDevice rest
           end
  end.

Definition getPrimaryNICFromCommand : M (Result string GoError) :=
  fetched <- fetchRoutes ["route"; "show"] ;;
  match fetched with
  | Err err => ret (Err err)
  | Ok lines =>
      match firstDefaultLineDevice lines with
      | Some nic => ret (Ok nic)
      | None =>
          match firstPhysicalLineDevice lines with
          | Some nic => ret (Ok nic)
          | None =>
              ret (Err (Errorf "no suitable network interface found" [] None))
          end
      end
  end.

Definition getPrimaryNIC (opt : Optimizer) : M (Result string GoError) :=
  if hasNetlink opt then
    r <- getPrimaryNICFromNetlink ;;
    match r with
    | Ok nic =>
        if String.eqb nic "" then getPrimaryNICFromCommand else ret (Ok nic)
    | Err _ => getPrimaryNICFromCommand
    end
  else getPrimaryNICFromCommand.

Definition getCurrentCongestionControl : M (Result string GoError) :=
  r <- runCommand "sysctl" ["net.ipv4.tcp_congestion_control"] ;;
  let fromSysctl :=
    match r.2 with
    | None =>
        match Split (TrimSpace r.1) " = " with
        | [_; value] => Some (TrimSpace value)
        | _ => None
        end
    | Some _ => None
    end in
  match fromSysctl with
  | Some value => ret (Ok value)
  | None =>
      data <- ReadFile "/proc/sys/net/ipv4/tcp_congestion_control" ;;
      match data with
      | Err e =>
          ret (Err (Errorf "failed to read congestion control: %w" []
                           (Some (External e))))
      | Ok text =>
          let congctl := TrimSpace text in
          if String.eqb congctl ""
          then ret (Err (Errorf "empty congestion control value" [] None))
          else ret (Ok congctl)
      end
  end.

Definition detectFailure (err : option GoError) : option GoError :=
  New CategoryRecoverable
    (Some (Errorf "failed to detect primary NIC: %w" [] err))
    (operationContext "detect_primary_nic").

Definition nicContext (nic : string) : ErrorContext :=
  mkContext "" nic "" "" "" "" "" "" ∅.

Definition optimizeNIC (opt : Optimizer) : M (option GoError) :=
  detected <- getPrimaryNIC opt ;;
  match detected with
  | Err err => ret (detectFailure (Some err))
  | Ok nic =>
      if String.eqb nic "" then ret (detectFailure None)
      else
        read <- getCurrentCongestionControl ;;
        let congctl := match read with Ok c => c | Err _ => "cubic" end in
        optimize
          {| category := "nic";
             routeArgs := ["route"; "show"];
             filter := fun line => shouldOptimizeNIC line nic;
             jobParams :=
               newParams 1500 (initCwndSegments opt) (initRwndSegments opt)
                         congctl;
             fetchOperation := "fetch_nic_routes";
             applyOperation := "optimize_nic_routes";
             commonErrContext := nicContext nic |}
  end.

Definition prefixed (label : string) (err : option GoError) : option GoError :=
  match err with
  | Some e => Some (Errorf (label +:+ ": %w") [] (Some e))
  | None => None
  end.

(** Optimize applies route tuning for loopback, local and NIC routes. *)
Definition Optimize (opt : Optimizer) : M (option GoError) :=
  let errs : MultiError := [] in
  err <- optimizeLoopback opt ;;
  let errs := Add errs (prefixed "loopback" err) in
  err <- optimizeLocal opt ;;
  let errs := Add errs (prefixed "local" err) in
  err <- optimizeNIC opt ;;
  let errs := Add errs (prefixed "nic" err) in
  ret (ErrorOrNil errs).

End Route.

(** ** internal/traffic: classifier, profiles, signatures, shaper and
       watcher *)

Module Traffic.
Import GoStrings Errors World.

(** *** Interface classification *)

Inductive ifaceClass : Type :=
| classUnknown
| classLoopback
| classExternalPhysical
| classExternalVirtual
| classInternalVirtual
| classInternalVirtualSkip.

Definition virtualVendorIDs : list string :=
  ["0x1414"; "0x15ad"; "0x1af4"; "0x1d0f"; "0x1ae0"; "0x1ec1"; "0x5853"].

Definition virtualDriverModules : list string :=
  ["ena"; "gve"; "hv_netvsc"; "netvsc"; "virtio_net"; "virtio_pci"; "vmxnet3"].

Definition internalVirtualPrefixes : list string :=
  ["br"; "docker"; "veth"; "virbr"; "fwbr"; "fwpr"; "fwln"; "tap"].

Definition externalVirtualPrefixes : list string :=
  ["tun"; "tap"; "wg"; "zt"; "gre"; "gretap"; "sit"; "vxlan"; "macvlan";
   "macvtap"; "ipvlan"].

Definition hasInternalVirtualPrefix (name : string) : bool :=
  existsb (HasPrefix name) internalVirtualPrefixes.

Definition hasExternalVirtualPrefix (name : string) : bool :=
  existsb (HasPrefix name) externalVirtualPrefixes.

Definition inSet (key : string) (keys : list string) : bool :=
  existsb (String.eqb key) keys.

(** What the classifier reads of sysfs at one moment: filepath.EvalSymlinks,
    os.Readlink and os.ReadFile, [None] when the call fails. *)
Record Sysfs : Type := mkSysfs {
  EvalSymlinks : string → option string;
  Readlink : string → option string;
  ReadVendor : string → option string
}.

(** filepath.Join(dir, elem) for an [elem] that needs no cleaning (interface
    names hold no slash). *)
Definition pathJoin (dir elem : string) : string := dir +:+ "/" +:+ elem.

Fixpoint stripTrailingSlashes (path : string) : string :=
  match path with
  | EmptyString => EmptyString
  | String c rest =>
      let rest' := stripTrailingSlashes rest in
      if Ascii.eqb c "/"%char && String.eqb rest' "" then EmptyString
      else String c rest'
  end.

(** filepath.Base *)
Definition Base (path : string) : string :=
  if String.eqb path "" then "."
  else
    let stripped := stripTrailingSlashes path in
    if String.eqb stripped "" then "/"
    else default stripped (last (Split stripped "/")).

Definition isSysfsVirtualPath (resolvedPath : string) : bool :=
  let lower := ToLower resolvedPath in
  if Contains lower "/sys/devices/virtual/" then true
  else
    existsb
      (fun segment =>
         String.eqb segment "virtio" || HasPrefix segment "virtio"
         || String.eqb segment "vmbus")
      (Split lower "/").

Definition readLinkBase (fs : Sysfs) (path : string) : string :=
  match Readlink fs path with
  | None => ""
  | Some target => Base target
  end.

Definition interfaceDriverModule (fs : Sysfs) (sysfsPath : string) : string :=
  let module := readLinkBase fs (pathJoin sysfsPath "device/driver/module") in
  if negb (String.eqb module "") then module
  else readLinkBase fs (pathJoin sysfsPath "device/driver").

Definition interfaceVendor (fs : Sysfs) (sysfsPath : string) : string :=
  match ReadVendor fs (pathJoin sysfsPath "device/vendor") with
  | None => ""
  | Some data => TrimSpace data
  end.

Definition normalizeIdentifier (value : string) : string :=
  ReplaceAll (ToLower (TrimSpace value)) "-" "_".

Definition detectVirtualHardware (fs : Sysfs) (name : string) : bool :=
  if hasInternalVirtualPrefix name || hasExternalVirtualPrefix name then true
  else
    let sysfsPath := pathJoin "/sys/class/net" name in
    if match EvalSymlinks fs sysfsPath with
       | Some resolved => isSysfsVirtualPath resolved
       | None => false
       end
    then true
    else
      let driver := interfaceDriverModule fs sysfsPath in
      if negb (String.eqb driver "")
         && inSet (normalizeIdentifier driver) virtualDriverModules
      then true
      else
        let vendor := interfaceVendor fs sysfsPath in
        negb (String.eqb vendor "")
        && inSet (normalizeIdentifier vendor) virtualVendorIDs.

(** InterfaceClassifier: [lastRefresh] is [None] for the zero time; times
    and durations are in nanoseconds. *)
Record InterfaceClassifier : Type := mkClassifier {
  externalLinkIndexes : gset Z;
  virtualCache : gmap string bool;
  lastRefresh : option Z;
  refreshInterval : Z
}.

Definition defaultExternalRefreshInterval : Z := 30 * 1000000000.

Definition NewInterfaceClassifier : InterfaceClassifier :=
  mkClassifier ∅ ∅ None defaultExternalRefreshInterval.

Definition cacheVirtual (ic : InterfaceClassifier) (name : string)
    (isVirtual : bool) : InterfaceClassifier :=
  mkClassifier (externalLinkIndexes ic) (<[name := isVirtual]> (virtualCache ic))
               (lastRefresh ic) (refreshInterval ic).

Definition isVirtualInterface (fs : Sysfs) (ic : InterfaceClassifier)
    (name : string) : bool * InterfaceClassifier :=
  if String.eqb name "" then (false, ic)
  else
    match virtualCache ic !! name with
    | Some cached => (cached, ic)
    | None =>
        let isVirtual := detectVirtualHardware fs name in
        (isVirtual, cacheVirtual ic name isVirtual)
    end.

Definition isExternalInterface (ic : InterfaceClassifier) (linkIndex : Z)
    (name : string) : bool :=
  if hasExternalVirtualPrefix name then true
  else if linkIndex <=? 0 then false
  else bool_decide (linkIndex ∈ externalLinkIndexes ic).

(** Classify determines the class of a network interface. *)
Definition Classify (fs : Sysfs) (ic : InterfaceClassifier)
    (attrs : option LinkAttrs) : ifaceClass * InterfaceClassifier :=
  match attrs with
  | None => (classUnknown, ic)
  | Some attrs =>
      if hasFlag (Flags attrs) FlagLoopback then (classLoopback, ic)
      else
        let name := Name attrs in
        if String.eqb name "" then (classUnknown, ic)
        else if hasInternalVirtualPrefix name then (classInternalVirtualSkip, ic)
        else
          let '(isVirtual, ic) := isVirtualInterface fs ic name in
          let isExternal := isExternalInterface ic (Index attrs) name in
          if isExternal then
            if isVirtual then (classExternalVirtual, ic)
            else (classExternalPhysical, ic)
          else if isVirtual then (classInternalVirtual, ic)
          else (classExternalPhysical, ic)
  end.

(** isDefaultRoute: 0.0.0.0/0 or ::/0. *)
Definition isDefaultRoute (route : Route) : bool :=
  match Dst route with
  | None => true
  | Some (ones, bits) => (0 <? bits) && (ones =? 0)
  end.

Definition defaultRouteIndexes (routes : list Route) (acc : gset Z) : gset Z :=
  foldl
    (fun acc route =>
       if negb (isDefaultRoute route) || (LinkIndex route <=? 0) then acc
       else {[LinkIndex route]} ∪ acc)
    acc routes.

(** The closure fetchRoutes of RefreshExternalInterfaces. *)
Definition fetchDefaultRoutes (family : Z) (linkIndexes : gset Z) : M (gset Z) :=
  listed <- RouteList family ;;
  match listed with
  | Err _ => ret linkIndexes
  | Ok routes => ret (defaultRouteIndexes routes linkIndexes)
  end.

(** RefreshExternalInterfaces at time [now]; it returns nil on every path. *)
Definition RefreshExternalInterfaces (now : Z) (ic : InterfaceClassifier)
  : M InterfaceClassifier :=
  let skip :=
    (0 <? refreshInterval ic)
    && match lastRefresh ic with
       | Some last => now - last <? refreshInterval ic
       | None => false
       end in
  if skip then ret ic
  else
    linkIndexes <- fetchDefaultRoutes FAMILY_V4 ∅ ;;
    linkIndexes <- fetchDefaultRoutes FAMILY_V6 linkIndexes ;;
    ret (mkClassifier linkIndexes (virtualCache ic) (Some now)
                      (refreshInterval ic)).

(** *** Shaping profiles *)

Record offloadSetting : Type := mkOffload {
  feature : string;
  state : string
}.

Record shapingProfile : Type := mkProfile {
  queueLength : string;
  rootQdisc : list string;
  ifbQdisc : list string;
  offloads : list offloadSetting;
  mtuOverride : string
}.

Record profileSet : Type := mkProfileSet {
  internalVirtual : shapingProfile;
  externalVirtual : shapingProfile;
  externalPhysical : shapingProfile;
  loopback : shapingProfile
}.

Definition offloadPrefix : list offloadSetting :=
  [ mkOffload "rx" "on"; mkOffload "tx" "on"; mkOffload "sg" "off";
    mkOffload "tso" "off"; mkOffload "gso" "off" ].

Definition offloadSuffix : list offloadSetting :=
  [ mkOffload "lro" "off"; mkOffload "ufo" "off";
    mkOffload "rx-checksum" "on"; mkOffload "tx-checksum" "on";
    mkOffload "tx-scatter-gather" "off"; mkOffload "tx-gso-partial" "off" ].

Definition offloadsWithGro (state : string) : list offloadSetting :=
  (offloadPrefix ++ [mkOffload "gro" state]) ++ offloadSuffix.

(** ProfileSettings; durations in nanoseconds. *)
Record ProfileSettings : Type := mkProfileSettings {
  DefaultQueueLen : Z;
  LoopbackQueueLen : Z;
  LoopbackMTUOverride : Z;
  InternalRTT : Z;
  LoopbackRTT : Z
}.

Definition defaultQueueLen : Z := 10001.
Definition defaultLoopbackQueue : Z := 10000.
Definition defaultLoopbackMTU : Z := 65520.
Definition defaultInternalRTT : Z := 100 * 1000.
Definition defaultLoopbackRTT : Z := 20 * 1000.

Definition positiveOr (value fallback : Z) : Z :=
  if value <=? 0 then fallback else value.

(** Settings.withDefaults, the profile part. *)
Definition withDefaults (p : ProfileSettings) : ProfileSettings :=
  {| DefaultQueueLen := positiveOr (DefaultQueueLen p) defaultQueueLen;
     LoopbackQueueLen := positiveOr (LoopbackQueueLen p) defaultLoopbackQueue;
     LoopbackMTUOverride := positiveOr (LoopbackMTUOverride p) defaultLoopbackMTU;
     InternalRTT := positiveOr (InternalRTT p) defaultInternalRTT;
     LoopbackRTT := positiveOr (LoopbackRTT p) defaultLoopbackRTT |}.

Section Profiles.
(** time.Duration.String, of Go's library. *)
Variable durationString : Z → string.

Definition renderDuration (d : Z) : string :=
  if d <=? 0 then "0s"
  else ReplaceAll (durationString d) "µs" "us".

Definition newProfileSet (cfg : ProfileSettings) : profileSet :=
  let queue := Itoa (DefaultQueueLen cfg) in
  let loopbackQueue := Itoa (LoopbackQueueLen cfg) in
  let internalRTT := renderDuration (InternalRTT cfg) in
  let loopbackRTT := renderDuration (LoopbackRTT cfg) in
  let loopbackMTUOverride := Itoa (LoopbackMTUOverride cfg) in
  let internalRootQdisc :=
    [ "cake"; "unlimited"; "rtt"; internalRTT; "besteffort"; "dual-srchost";
      "nonat"; "nowash"; "no-split-gso"; "ack-filter"; "raw"; "egress" ] in
  let internalIfbQdisc :=
    [ "cake"; "unlimited"; "rtt"; internalRTT; "diffserv4"; "dual-dsthost";
      "nonat"; "nowash"; "no-split-gso"; "no-ack-filter"; "raw"; "ingress" ] in
  let externalRootQdisc :=
    [ "cake"; "unlimited"; "besteffort"; "dual-srchost"; "nonat";
      "nowash"; "no-split-gso"; "ack-filter"; "ethernet"; "egress" ] in
  let externalIfbQdisc :=
    [ "cake"; "unlimited"; "diffserv4"; "dual-dsthost"; "nonat";
      "nowash"; "no-split-gso"; "no-ack-filter"; "ethernet"; "ingress" ] in
  let loopbackRootQdisc :=
    [ "cake"; "unlimited"; "rtt"; loopbackRTT; "diffserv4"; "dual-srchost";
      "nonat"; "nowash"; "no-split-gso"; "ack-filter-aggressive"; "raw";
      "egress" ] in
  let loopbackIfbQdisc :=
    [ "cake"; "unlimited"; "rtt"; loopbackRTT; "diffserv4"; "dual-dsthost";
      "nonat"; "nowash"; "no-split-gso"; "no-ack-filter"; "raw"; "ingress" ] in
  {| internalVirtual :=
       mkProfile queue internalRootQdisc internalIfbQdisc
                 (offloadsWithGro "off") "";
     externalVirtual :=
       mkProfile queue externalRootQdisc externalIfbQdisc
                 (offloadsWithGro "off") "";
     externalPhysical :=
       mkProfile queue externalRootQdisc externalIfbQdisc
                 (offloadsWithGro "on") "";
     loopback :=
       mkProfile loopbackQueue loopbackRootQdisc loopbackIfbQdisc
                 (offloadsWithGro "off") loopbackMTUOverride |}.
End Profiles.

(** *** Offload feature names *)

(** normalizeSetFeatureName maps various aliases to the canonical
    ethtool -K feature name. *)
Definition normalizeSetFeatureName (name : string) : string :=
  let key := ToLower (TrimSpace name) in
  if String.eqb key "rx-checksum" || String.eqb key "rx_checksum" then "rx"
  else if String.eqb key "tx-checksum" || String.eqb key "tx_checksum" then "tx"
  else key.

(** mapDesiredToReadKey maps desired feature names to ethtool -k output
    keys. *)
Definition mapDesiredToReadKey (name : string) : string :=
  let key := ToLower (TrimSpace name) in
  if inSet key ["rx"; "rx-checksum"; "rx_checksum"] then "rx-checksumming"
  else if inSet key ["tx"; "tx-checksum"; "tx_checksum"] then "tx-checksumming"
  else if inSet key ["sg"; "scatter-gather"] then "scatter-gather"
  else if String.eqb key "tso" then "tcp-segmentation-offload"
  else if String.eqb key "gso" then "generic-segmentation-offload"
  else if String.eqb key "gro" then "generic-receive-offload"
  else if String.eqb key "lro" then "large-receive-offload"
  else if String.eqb key "ufo" then "udp-fragmentation-offload"
  else if String.eqb key "tx-gso-partial" then "tx-gso-partial"
  else if String.eqb key "tx-scatter-gather" then "tx-scatter-gather"
  else "".

(** *** Signatures *)

(** fmt.Sprintf("%s=%s", normalizeSetFeatureName(o.feature),
    strings.ToLower(o.state)) *)
Definition offloadPair (o : offloadSetting) : string :=
  normalizeSetFeatureName (feature o) +:+ "=" +:+ ToLower (state o).

(** makeSignature creates a lightweight signature describing desired state.
    The text is built as the strings.Builder receives it. *)
Definition makeSignature (mtu qlen : string) (profile : shapingProfile) : string :=
  "mtu=" +:+ mtu +:+ ";qlen=" +:+ qlen
  +:+ ";root=" +:+ Join (rootQdisc profile) ","
  +:+ ";ifb=" +:+ Join (ifbQdisc profile) ","
  +:+ ";off="
  +:+ match offloads profile with
      | [] => ""
      | _ => Join (SortStrings (offloadPair <$> offloads profile)) ","
      end.

(** *** IFB names *)

Definition IfbPrefix : string := "ifb4".
Definition IngressHandle : string := "ffff:".

Definition truncateIfb (name : string) : string :=
  if Nat.leb (String.length name) 15 then name else takeBytes 15 name.

(** *** tc arguments *)

Record QdiscConfig : Type := mkQdisc {
  qcDevice : string;
  qcRoot : bool;
  qcParent : string;
  qcHandle : string;
  qcKind : string;
  qcOptions : list string
}.

Definition ReplaceArgs (qc : QdiscConfig) : list string :=
  let args := ["qdisc"; "replace"; "dev"; qcDevice qc] in
  let args :=
    if qcRoot qc then args ++ ["root"]
    else if negb (String.eqb (qcParent qc) "")
         then args ++ ["parent"; qcParent qc]
         else args in
  let args :=
    if negb (String.eqb (qcHandle qc) "") then args ++ ["handle"; qcHandle qc]
    else args in
  let args :=
    if negb (String.eqb (qcKind qc) "") then args ++ [qcKind qc] else args in
  args ++ qcOptions qc.

Record FilterConfig : Type := mkFilter {
  fcDevice : string;
  fcParent : string;
  fcProtocol : string;
  fcPref : string;
  fcKind : string;
  fcActions : list string
}.

Definition DeleteArgs (fc : FilterConfig) : list string :=
  [ "filter"; "del"; "dev"; fcDevice fc; "parent"; fcParent fc;
    "protocol"; fcProtocol fc; "pref"; fcPref fc ].

Definition AddArgs (fc : FilterConfig) : list string :=
  [ "filter"; "add"; "dev"; fcDevice fc; "parent"; fcParent fc;
    "protocol"; fcProtocol fc; "pref"; fcPref fc; fcKind fc ]
  ++ fcActions fc.

Definition splitQdiscSpec (spec : list string) : string * list string :=
  match spec with
  | [] => ("", [])
  | kind :: options => (kind, options)
  end.

Definition rootQdiscConfig (device : string) (spec : list string) : QdiscConfig :=
  let '(kind, options) := splitQdiscSpec spec in
  mkQdisc device true "" "" kind options.

Definition ifbRootQdiscConfig (ifb : string) (spec : list string) : QdiscConfig :=
  rootQdiscConfig ifb spec.

Definition ingressQdiscConfig (device : string) : QdiscConfig :=
  mkQdisc device false "" IngressHandle "ingress" [].

(** *** Running commands *)

Record commandOpts : Type := mkOpts {
  suppress : list string;
  quiet : bool
}.

Definition containsAny (message : string) (substrings : list string) : bool :=
  if String.eqb message "" then false
  else
    let lower := ToLower message in
    existsb
      (fun sub => negb (String.eqb sub "") && Contains lower (ToLower sub))
      substrings.

Definition execCommand (name : string) (args : list string) (opts : commandOpts)
  : M (option GoError) :=
  let argStr := Join args " " in
  r <- Run name args ;;
  match r.2 with
  | Some err =>
      if extCanceled err then ret (Some (External err))
      else
        let outStr := TrimSpace r.1 in
        let errStr := extText err in
        if negb (Nat.eqb (length (suppress opts)) 0)
           && (containsAny outStr (suppress opts)
               || containsAny errStr (suppress opts))
        then ret None
        else ret (Some (Errorf "command %s %s: %w"
                               [ArgStr name; ArgStr argStr]
                               (Some (External err))))
  | None => ret None
  end.

Definition run (name : string) (args : list string) : M (option GoError) :=
  execCommand name args (mkOpts [] false).

Definition runOptional (name : string) (args : list string)
    (suppressed : list string) : M (option GoError) :=
  execCommand name args (mkOpts suppressed true).

Definition runQuiet (name : string) (args : list string) : M (option GoError) :=
  execCommand name args (mkOpts [] true).

Definition replaceFilter (cfg : FilterConfig) : M (option GoError) :=
  _ <- runQuiet "tc" (DeleteArgs cfg) ;;
  run "tc" (AddArgs cfg).

Definition runGetOutput (name : string) (args : list string)
  : M (string * option ExternalError) := Run name args.

(** *** IFB devices *)

Definition ifbContext (name command operation value : string) : ErrorContext :=
  mkContext operation "" "" command name value "" "" ∅.

Definition ifbError (format : string) (fmtArgs : list FmtArg)
    (cause : option GoError) (context : ErrorContext) : option GoError :=
  New CategoryRecoverable (Some (Errorf format fmtArgs cause)) context.

(** ensureIfb from the point where the link is in hand. *)
Definition ensureIfbWith (link : Link) (name mtu qlen : string)
  : M (option GoError) :=
  match Attrs link with
  | None =>
      ret (ifbError "link attrs missing for %s" [ArgStr name] None
                    (ifbContext name "" "" ""))
  | Some attrs =>
      match Atoi mtu with
      | None =>
          ret (ifbError "parse mtu %q for %s: %w" [ArgStr mtu; ArgStr name]
                        (Some (NumError mtu))
                        (ifbContext name "" "" mtu))
      | Some desiredMTU =>
          match Atoi qlen with
          | None =>
              ret (ifbError "parse qlen %q for %s: %w"
                            [ArgStr qlen; ArgStr name]
                            (Some (NumError qlen))
                            (ifbContext name "" "" qlen))
          | Some desiredQueueLen =>
              let bringUp (attrs : LinkAttrs) : M (option GoError) :=
                if negb (hasFlag (Flags attrs) FlagUp) then
                  err <- run "ip" ["link"; "set"; name; "up"] ;;
                  match err with
                  | Some e =>
                      ret (ifbError "set ifb %s up: %w" [ArgStr name] (Some e)
                                    (ifbContext name "ip link set up" "" ""))
                  | None => ret None
                  end
                else ret None in
              if negb (MTU attrs =? desiredMTU)
                 || negb (TxQLen attrs =? desiredQueueLen)
              then
                err <- run "ip" ["link"; "set"; name; "qlen"; qlen; "mtu"; mtu] ;;
                match err with
                | Some e =>
                    ret (ifbError "update ifb %s parameters: %w" [ArgStr name]
                                  (Some e)
                                  (ifbContext name "ip link set" "" ""))
                | None =>
                    refreshed <- LinkByName name ;;
                    match refreshed with
                    | Ok (mkLink (Some fresh)) => bringUp fresh
                    | _ => bringUp attrs
                    end
                end
              else bringUp attrs
          end
      end
  end.

Definition ensureIfb (name mtu qlen : string) : M (option GoError) :=
  found <- LinkByName name ;;
  match found with
  | Ok link => ensureIfbWith link name mtu qlen
  | Err err =>
      if extNotFound err then
        runErr <- run "ip" ["link"; "add"; "name"; name; "type"; "ifb"] ;;
        match runErr with
        | Some e =>
            ret (ifbError "create ifb %s: %w" [ArgStr name] (Some e)
                          (ifbContext name "ip link add" "" ""))
        | None =>
            found <- LinkByName name ;;
            match found with
            | Err err =>
                ret (ifbError "lookup ifb %s after create: %w" [ArgStr name]
                              (Some (External err))
                              (ifbContext name "" "link_lookup_post_create" ""))
            | Ok link => ensureIfbWith link name mtu qlen
            end
        end
      else
        ret (ifbError "lookup ifb %s: %w" [ArgStr name] (Some (External err))
                      (ifbContext name "" "link_lookup" ""))
  end.

(** *** Offloads *)

Definition suppressOffloads : list string :=
  [ "Operation not supported"; "bit name not found";
    "cannot modify an unsupported parameter" ].

(** One line of the output of ethtool -k, added to the feature states and
    the set of fixed features. *)
Definition readFeatureLine (acc : gmap string string * gset string)
    (ln : string) : gmap string string * gset string :=
  let ln := TrimSpace ln in
  if String.eqb ln "" then acc
  else if HasPrefix (ToLower ln) "features for "
          || HasPrefix (ToLower ln) "offload parameters for " then acc
  else
    match SplitN2 ln ":" with
    | [key; val] =>
        let key := TrimSpace key in
        let val := TrimSpace val in
        let vstate :=
          if Contains (ToLower val) "on" then "on"
          else if Contains (ToLower val) "off" then "off"
          else "" in
        (<[key := vstate]> acc.1,
         if Contains (ToLower val) "[fixed]" then {[key]} ∪ acc.2 else acc.2)
    | _ => acc
    end.

(** readEthtoolFeatures runs 'ethtool -k' and parses feature states and
    fixed flags; [None] is the pair of nil maps. *)
Definition readEthtoolFeatures (iface : string)
  : M (option (gmap string string * gset string)) :=
  r <- runGetOutput "ethtool" ["-k"; iface] ;;
  match r.2 with
  | Some _ => ret None
  | None =>
      if String.eqb r.1 "" then ret None
      else ret (Some (foldl readFeatureLine (∅, ∅)
                            (Split r.1 (String "010"%char EmptyString))))
  end.

(** The fallback of ensureOffloads: one ethtool -K call per setting. *)
Fixpoint applyEachOffload (iface : string) (settings : list offloadSetting)
  : M unit :=
  match settings with
  | [] => ret tt
  | setting :: rest =>
      let feat := normalizeSetFeatureName (feature setting) in
      _ <- runOptional "ethtool" ["-K"; iface; feat; state setting]
                       suppressOffloads ;;
      applyEachOffload iface rest
  end.

(** The settings that differ from the current state, as set-name and state
    pairs. *)
Fixpoint batchOffloads (cur : gmap string string) (fixed : gset string)
    (settings : list offloadSetting) : list string :=
  match settings with
  | [] => []
  | s :: rest =>
      let readKey := mapDesiredToReadKey (feature s) in
      let setKey := normalizeSetFeatureName (feature s) in
      if String.eqb readKey "" || String.eqb setKey "" then
        batchOffloads cur fixed rest
      else if bool_decide (readKey ∈ fixed) then batchOffloads cur fixed rest
      else
        match cur !! readKey with
        | Some curState =>
            if EqualFold curState (state s) then batchOffloads cur fixed rest
            else setKey :: state s :: batchOffloads cur fixed rest
        | None => setKey :: state s :: batchOffloads cur fixed rest
        end
  end.

(** ensureOffloads minimizes ethtool calls by only changing mismatched
    settings, batching into a single -K call. *)
Definition ensureOffloads (iface : string) (settings : list offloadSetting)
  : M unit :=
  match settings with
  | [] => ret tt
  | _ =>
      read <- readEthtoolFeatures iface ;;
      match read with
      | None => applyEachOffload iface settings
      | Some (cur, fixed) =>
          match batchOffloads cur fixed settings with
          | [] => ret tt
          | batched =>
              _ <- runOptional "ethtool" (["-K"; iface] ++ batched)
                               suppressOffloads ;;
              ret tt
          end
      end
  end.

(** *** The shaper *)

(** config.MinMTU .. config.MaxQueueLen *)
Definition MinMTU : Z := 68.
Definition MaxMTU : Z := 65535.
Definition MinQueueLen : Z := 1.
Definition MaxQueueLen : Z := 1000000.

(** Shaper, the state the reconciler keeps between calls. *)
Record Shaper : Type := mkShaper {
  routeOptimizer : Route.Optimizer;
  classifier : InterfaceClassifier;
  appliedSignatures : gmap string string;
  didInitialCleanup : bool;
  profiles : profileSet
}.

Definition withSignatures (s : Shaper) (sigs : gmap string string) : Shaper :=
  mkShaper (routeOptimizer s) (classifier s) sigs (didInitialCleanup s)
           (profiles s).

Record profileContext : Type := mkProfileContext {
  iface : string;
  attrs : LinkAttrs;
  profile : shapingProfile;
  profileName : string;
  mtuStr : string;
  pcQueueLength : string;
  desiredMTU : Z;
  desiredQueueLen : Z;
  signature : string;
  ifbName : string
}.

Definition profileStep : Type := profileContext → M (option GoError).

Definition stepContext (pc : profileContext) (command ifb value : string)
  : ErrorContext :=
  mkContext "" (iface pc) (profileName pc) command ifb value "" "" ∅.

Definition stepError (format : string) (fmtArgs : list FmtArg) (cause : GoError)
    (operation : string) (context : ErrorContext) : option GoError :=
  WrapRecoverable (Some (Errorf format fmtArgs (Some cause))) operation [context].

Definition configureLinkParamsStep : profileStep := fun pc =>
  if (MTU (attrs pc) =? desiredMTU pc) && (TxQLen (attrs pc) =? desiredQueueLen pc)
  then ret None
  else
    found <- LinkByName (iface pc) ;;
    match found with
    | Err err =>
        ret (stepError "lookup link %s: %w" [ArgStr (iface pc)] (External err)
                       "configure_link_params" (stepContext pc "" "" ""))
    | Ok link =>
        let setQueue : M (option GoError) :=
          if negb (TxQLen (attrs pc) =? desiredQueueLen pc) then
            err <- LinkSetTxQLen link (desiredQueueLen pc) ;;
            match err with
            | Some e =>
                ret (stepError "set tx queue len %d for %s: %w"
                       [ArgInt (desiredQueueLen pc); ArgStr (iface pc)]
                       (External e) "configure_link_params"
                       (stepContext pc "" "" (pcQueueLength pc)))
            | None => ret None
            end
          else ret None in
        if negb (MTU (attrs pc) =? desiredMTU pc) then
          err <- LinkSetMTU link (desiredMTU pc) ;;
          match err with
          | Some e =>
              ret (stepError "set mtu %d for %s: %w"
                     [ArgInt (desiredMTU pc); ArgStr (iface pc)]
                     (External e) "configure_link_params"
                     (stepContext pc "" "" (mtuStr pc)))
          | None => setQueue
          end
        else setQueue
    end.

Definition configureRootQdiscStep : profileStep := fun pc =>
  match rootQdisc (profile pc) with
  | [] => ret None
  | _ =>
      let qdisc := rootQdiscConfig (iface pc) (rootQdisc (profile pc)) in
      err <- run "tc" (ReplaceArgs qdisc) ;;
      match err with
      | Some e =>
          ret (stepError "configure root qdisc for %s: %w" [ArgStr (iface pc)] e
                 "configure_root_qdisc"
                 (stepContext pc "tc qdisc replace root" "" ""))
      | None => ret None
      end
  end.

Definition redirectFilter (pc : profileContext) : FilterConfig :=
  mkFilter (iface pc) IngressHandle "all" "1" "matchall"
           ["action"; "mirred"; "egress"; "redirect"; "dev"; ifbName pc].

Definition configureIngressAndIfbStep : profileStep := fun pc =>
  let ingress := ingressQdiscConfig (iface pc) in
  err <- run "tc" (ReplaceArgs ingress) ;;
  match err with
  | Some e =>
      ret (stepError "configure ingress qdisc for %s: %w" [ArgStr (iface pc)] e
             "configure_ingress_qdisc"
             (stepContext pc "tc qdisc replace ingress" "" ""))
  | None =>
      err <- ensureIfb (ifbName pc) (mtuStr pc) (pcQueueLength pc) ;;
      match err with
      | Some e =>
          ret (stepError "ensure ifb %s for %s: %w"
                 [ArgStr (ifbName pc); ArgStr (iface pc)] e
                 "ensure_ifb" (stepContext pc "" (ifbName pc) ""))
      | None =>
          let replace : M (option GoError) :=
            err <- replaceFilter (redirectFilter pc) ;;
            match err with
            | Some e =>
                ret (stepError "replace filter for %s -> %s: %w"
                       [ArgStr (iface pc); ArgStr (ifbName pc)] e
                       "configure_tc_filter"
                       (stepContext pc "tc filter replace" (ifbName pc) ""))
            | None => ret None
            end in
          match ifbQdisc (profile pc) with
          | [] => replace
          | _ =>
              let ifbRoot :=
                ifbRootQdiscConfig (ifbName pc) (ifbQdisc (profile pc)) in
              err <- run "tc" (ReplaceArgs ifbRoot) ;;
              match err with
              | Some e =>
                  ret (stepError "configure ifb root qdisc %s: %w"
                         [ArgStr (ifbName pc)] e
                         "configure_ifb_root_qdisc"
                         (stepContext pc "tc qdisc replace ifb" (ifbName pc) ""))
              | None => replace
              end
          end
      end
  end.

Definition ensureOffloadsStep : profileStep := fun pc =>
  _ <- ensureOffloads (iface pc) (offloads (profile pc)) ;;
  ret None.

Fixpoint runProfileSteps (pc : profileContext) (steps : list profileStep)
  : M (option GoError) :=
  match steps with
  | [] => ret None
  | step :: rest =>
      err <- step pc ;;
      match err with
      | Some e => ret (Some e)
      | None => runProfileSteps pc rest
      end
  end.

Definition profileOnlyContext (profileName : string) : ErrorContext :=
  mkContext "" "" profileName "" "" "" "" "" ∅.

(** validateProfileInput: [Ok a] when it returns nil, [a] being the
    attributes the non-nil pointer leads to. *)
Definition validateProfileInput (attrs : option LinkAttrs) (profileName : string)
  : Result LinkAttrs GoError :=
  match attrs with
  | None =>
      Err (Categorized CategoryRecoverable
             (Errorf "link attrs missing for profile" [] None)
             (profileOnlyContext profileName))
  | Some a =>
      if String.eqb (Name a) "" then
        Err (Categorized CategoryRecoverable
               (Errorf "link name missing for profile" [] None)
               (profileOnlyContext profileName))
      else Ok a
  end.

(** deriveProfileParameters extracts MTU and queue length values from
    interface attributes and profile. *)
Definition deriveProfileParameters (attrs : LinkAttrs) (profile : shapingProfile)
  : string * string :=
  let mtuStr := Itoa (MTU attrs) in
  let mtuStr :=
    if negb (String.eqb (mtuOverride profile) "") then mtuOverride profile
    else mtuStr in
  (mtuStr, queueLength profile).

Definition isAlreadyConfigured (s : Shaper) (iface sig : string) : M bool :=
  match appliedSignatures s !! iface with
  | None => ret false
  | Some prev =>
      if negb (String.eqb prev sig) then ret false
      else
        let ifbName := truncateIfb (IfbPrefix +:+ iface) in
        found <- LinkByName ifbName ;;
        match found with
        | Err _ => ret false
        | Ok link =>
            match Attrs link with
            | None => ret false
            | Some attrs => ret (hasFlag (Flags attrs) FlagUp)
            end
        end
  end.

(** wrapInterfaceError, for the non-nil errors it is called with. *)
Definition wrapInterfaceError (err : GoError) (iface operation : string)
    (extras : ErrorContext) : GoError :=
  let ctx := Merge (mkContext operation iface "" "" "" "" "" "" ∅) extras in
  Categorized CategoryRecoverable err ctx.

Definition valueContext (profileName value : string) : ErrorContext :=
  mkContext "" "" profileName "" "" value "" "" ∅.

(** parseProfileParameters validates and converts MTU and queue length
    strings to integers. *)
Definition parseProfileParameters (iface mtuStr queueLength profileName : string)
  : Result (Z * Z) GoError :=
  let fail (err : GoError) (operation value : string) : Result (Z * Z) GoError :=
    Err (wrapInterfaceError err iface operation
           (valueContext profileName value)) in
  match Atoi mtuStr with
  | None =>
      fail (Errorf "parse mtu %q for %s: %w" [ArgStr mtuStr; ArgStr iface]
                   (Some (NumError mtuStr)))
           "parse_profile_mtu" mtuStr
  | Some desiredMTU =>
      if (desiredMTU <? MinMTU) || (MaxMTU <? desiredMTU) then
        fail (Errorf "mtu %d out of range [%d, %d]"
                     [ArgInt desiredMTU; ArgInt MinMTU; ArgInt MaxMTU] None)
             "validate_profile_mtu" mtuStr
      else
        match Atoi queueLength with
        | None =>
            fail (Errorf "parse qlen %q for %s: %w"
                         [ArgStr queueLength; ArgStr iface]
                         (Some (NumError queueLength)))
                 "parse_profile_queue" queueLength
        | Some desiredQueueLen =>
            if (desiredQueueLen <? MinQueueLen)
               || (MaxQueueLen <? desiredQueueLen) then
              fail (Errorf "queue length %d out of range [%d, %d]"
                           [ArgInt desiredQueueLen; ArgInt MinQueueLen;
                            ArgInt MaxQueueLen] None)
                   "validate_profile_queue" queueLength
            else Ok (desiredMTU, desiredQueueLen)
        end
  end.

(** The three results of buildProfileContext: an error, skip = true, or a
    context. *)
Inductive buildResult : Type :=
| BuildError (err : GoError)
| BuildSkip
| BuildContext (pc : profileContext).

(** buildProfileContext constructs configuration context for an interface
    profile. *)
Definition buildProfileContext (s : Shaper) (attrs : option LinkAttrs)
    (profile : shapingProfile) (profileName : string) : M buildResult :=
  match validateProfileInput attrs profileName with
  | Err err => ret (BuildError err)
  | Ok attrs =>
      let iface := Name attrs in
      let '(mtuStr, queueLength) := deriveProfileParameters attrs profile in
      let signature := makeSignature mtuStr queueLength profile in
      skip <- isAlreadyConfigured s iface signature ;;
      if skip then ret BuildSkip
      else
        match parseProfileParameters iface mtuStr queueLength profileName with
        | Err err => ret (BuildError err)
        | Ok (desiredMTU, desiredQueueLen) =>
            ret (BuildContext
                   {| iface := iface;
                      attrs := attrs;
                      profile := profile;
                      profileName := profileName;
                      mtuStr := mtuStr;
                      pcQueueLength := queueLength;
                      desiredMTU := desiredMTU;
                      desiredQueueLen := desiredQueueLen;
                      signature := signature;
                      ifbName := truncateIfb (IfbPrefix +:+ iface) |})
        end
  end.

Definition profileSteps : list profileStep :=
  [ configureLinkParamsStep;
    configureRootQdiscStep;
    configureIngressAndIfbStep;
    ensureOffloadsStep ].

Definition configureProfile (s : Shaper) (attrs : option LinkAttrs)
    (profile : shapingProfile) (profileName : string)
  : M (Shaper * option GoError) :=
  built <- buildProfileContext s attrs profile profileName ;;
  match built with
  | BuildError err => ret (s, Some err)
  | BuildSkip => ret (s, None)
  | BuildContext profileCtx =>
      err <- runProfileSteps profileCtx profileSteps ;;
      match err with
      | Some e => ret (s, Some e)
      | None =>
          ret (withSignatures s
                 (<[iface profileCtx := signature profileCtx]>
                    (appliedSignatures s)),
               None)
      end
  end.

(** shouldProcessLink: the name, and whether the link is to be processed;
    [only = None] is the nil selector. *)
Definition shouldProcessLink (attrs : option LinkAttrs)
    (only : option (gset string)) : string * bool :=
  match attrs with
  | None => ("", false)
  | Some a =>
      let name := Name a in
      if String.eqb name "" || HasPrefix name "ifb" then ("", false)
      else
        match only with
        | Some names =>
            if bool_decide (name ∈ names) then (name, true) else (name, false)
        | None => (name, true)
        end
  end.

(** applyProfile: configureProfile; the error is logged and returned. *)
Definition applyProfile (s : Shaper) (attrs : option LinkAttrs)
    (profile : shapingProfile) (profileName : string)
  : M (Shaper * option GoError) :=
  configureProfile s attrs profile profileName.

Definition withClassifier (s : Shaper) (ic : InterfaceClassifier) : Shaper :=
  mkShaper (routeOptimizer s) ic (appliedSignatures s) (didInitialCleanup s)
           (profiles s).

(** processLink: whether the link was processed, and the error. *)
Definition processLink (fs : Sysfs) (s : Shaper) (link : Link)
    (only : option (gset string)) : M (Shaper * bool * option GoError) :=
  let attrs := Attrs link in
  let '(name, shouldProcess) := shouldProcessLink attrs only in
  if negb shouldProcess then ret (s, false, None)
  else
    let '(class, ic) := Classify fs (classifier s) attrs in
    let s := withClassifier s ic in
    let configured (profile : shapingProfile) (profileName : string) :=
      r <- applyProfile s attrs profile profileName ;;
      ret (r.1, true, r.2) in
    match class with
    | classLoopback => configured (loopback (profiles s)) "loopback"
    | classExternalPhysical =>
        configured (externalPhysical (profiles s)) "external-physical"
    | classExternalVirtual =>
        configured (externalVirtual (profiles s)) "external-virtual"
    | classInternalVirtual =>
        configured (internalVirtual (profiles s)) "internal-virtual"
    | classInternalVirtualSkip => ret (s, true, None)
    | classUnknown => ret (s, true, None)
    end.

(** determineRequiredIfbs: the IFB names the links of one pass require,
    with the classifier as the classification leaves it. *)
Fixpoint determineRequiredIfbs (fs : Sysfs) (ic : InterfaceClassifier)
    (links : list Link) (required : gset string)
  : gset string * InterfaceClassifier :=
  match links with
  | [] => (required, ic)
  | link :: rest =>
      match Attrs link with
      | None => determineRequiredIfbs fs ic rest required
      | Some attrs =>
          let name := Name attrs in
          if String.eqb name "" || HasPrefix name "ifb"
          then determineRequiredIfbs fs ic rest required
          else
            let '(class, ic) := Classify fs ic (Some attrs) in
            match class with
            | classLoopback | classExternalPhysical | classExternalVirtual
            | classInternalVirtual =>
                determineRequiredIfbs fs ic rest
                  ({[truncateIfb (IfbPrefix +:+ name)]} ∪ required)
            | classInternalVirtualSkip | classUnknown =>
                determineRequiredIfbs fs ic rest required
            end
      end
  end.

Definition currentNames (links : list Link) : gset string :=
  foldl
    (fun current link =>
       match Attrs link with
       | Some attrs =>
           if negb (String.eqb (Name attrs) "") then {[Name attrs]} ∪ current
           else current
       | None => current
       end)
    ∅ links.

(** cleanupStaleSignatures drops the signatures of interfaces that no
    longer exist. *)
Definition cleanupStaleSignatures (s : Shaper) : M (Shaper * option GoError) :=
  listed <- LinkList ;;
  match listed with
  | Err err =>
      ret (s, New CategoryRecoverable
                (Some (Errorf "list links for signature cleanup: %w" []
                              (Some (External err))))
                (mkContext "link_list_cleanup" "" "" "" "" "" "" "" ∅))
  | Ok links =>
      let current := currentNames links in
      ret (withSignatures s
             (filter (fun kv => kv.1 ∈ current) (appliedSignatures s)),
           None)
  end.

(** *** The netlink watcher's pending changes *)

(** netlink.LinkUpdate embeds the Link the message was decoded to;
    netlink.AddrUpdate carries the link index. *)
Record LinkUpdate : Type := mkLinkUpdate { updLink : Link }.
Record AddrUpdate : Type := mkAddrUpdate { updLinkIndex : Z }.

Record pendingChanges : Type := mkPending {
  all : bool;
  names : gset string
}.

Definition newPendingChanges : pendingChanges := mkPending false ∅.

Definition addNameLocked (p : pendingChanges) (name : string) : pendingChanges :=
  mkPending (all p) ({[name]} ∪ names p).

Definition markAllLocked (p : pendingChanges) : pendingChanges :=
  mkPending true ∅.

Definition namedAttrs (attrs : option LinkAttrs) : option string :=
  match attrs with
  | Some a => if negb (String.eqb (Name a) "") then Some (Name a) else None
  | None => None
  end.

Definition AddLink (p : pendingChanges) (update : LinkUpdate) : pendingChanges :=
  if all p then p
  else
    match namedAttrs (Attrs (updLink update)) with
    | Some name => addNameLocked p name
    | None =>
        let link := updLink update in
        match namedAttrs (Attrs link) with
        | Some name => addNameLocked p name
        | None => markAllLocked p
        end
    end.

(** AddAddr resolves the index through p.netlink, or through the default
    client when that is nil: through netlink on both paths. *)
Definition AddAddr (p : pendingChanges) (update : AddrUpdate) : M pendingChanges :=
  if all p then ret p
  else
    r <- safeGetLinkAttrs (updLinkIndex update) ;;
    match r with
    | Ok attrs =>
        if negb (String.eqb (Name attrs) "")
        then ret (addNameLocked p (Name attrs))
        else ret (markAllLocked p)
    | Err _ => ret (markAllLocked p)
    end.

(** snapshot: the apply-all flag and the copied names, [None] for nil. *)
Definition snapshot (p : pendingChanges) : bool * option (gset string) :=
  if all p then (true, None)
  else if bool_decide (names p = ∅) then (false, None)
  else (false, Some (names p)).

Definition clear (p : pendingChanges) : pendingChanges := mkPending false ∅.

(** The two kinds of event watchLoop feeds into the pending changes. *)
Inductive watchEvent : Type :=
| LinkEvent (update : LinkUpdate)
| AddrEvent (update : AddrUpdate).

Definition handleEvent (p : pendingChanges) (ev : watchEvent) : M pendingChanges :=
  match ev with
  | LinkEvent update => ret (AddLink p update)
  | AddrEvent update => AddAddr p update
  end.

Fixpoint handleEvents (p : pendingChanges) (evs : list watchEvent)
  : M pendingChanges :=
  match evs with
  | [] => ret p
  | ev :: rest => p' <- handleEvent p ev ;; handleEvents p' rest
  end.

(** Settings, without the watcher's intervals. *)
Record Settings : Type := mkSettings {
  Routes : Route.WindowConfig;
  Profiles : ProfileSettings
}.

(** NewShaperWithDependencies *)
Definition NewShaper (durationString : Z → string) (settings : Settings) : Shaper :=
  {| routeOptimizer := Route.NewOptimizer (Route.WithDefaults (Routes settings)) true;
     classifier := NewInterfaceClassifier;
     appliedSignatures := ∅;
     didInitialCleanup := false;
     profiles := newProfileSet durationString (withDefaults (Profiles settings)) |}.

(** *** Cleaning up around an apply pass *)

(** pruneStaleIfbs removes ifb interfaces that do not correspond to any
    existing base interface; a failed LinkDel falls back to ip link del, and
    the function returns nil on every path. *)
Fixpoint pruneStaleIfbs (links : list Link) (requiredIfbs : gset string)
  : M (option GoError) :=
  match links with
  | [] => ret None
  | link :: rest =>
      match Attrs link with
      | None => pruneStaleIfbs rest requiredIfbs
      | Some attrs =>
          let name := Name attrs in
          if HasPrefix name IfbPrefix then
            if bool_decide (name ∈ requiredIfbs)
            then pruneStaleIfbs rest requiredIfbs
            else
              err <- LinkDel link ;;
              match err with
              | Some _ =>
                  _ <- runQuiet "ip" ["link"; "del"; name] ;;
                  pruneStaleIfbs rest requiredIfbs
              | None => pruneStaleIfbs rest requiredIfbs
              end
          else pruneStaleIfbs rest requiredIfbs
      end
  end.

(** The three commands cleanupSkippedVirtualInterfaces runs for one skipped
    interface; their errors are logged and dropped. *)
Definition cleanupSkippedInterface (name : string) : M unit :=
  _ <- runQuiet "tc" ["qdisc"; "del"; "dev"; name; "root"] ;;
  _ <- runQuiet "tc" ["qdisc"; "del"; "dev"; name; "handle"; IngressHandle;
                      "ingress"] ;;
  let ifbName := truncateIfb (IfbPrefix +:+ name) in
  _ <- runQuiet "ip" ["link"; "del"; ifbName] ;;
  ret tt.

Fixpoint cleanupSkippedVirtualInterfaces (links : list Link)
  : M (option GoError) :=
  match links with
  | [] => ret None
  | link :: rest =>
      match Attrs link with
      | None => cleanupSkippedVirtualInterfaces rest
      | Some attrs =>
          let name := Name attrs in
          if HasPrefix name "ifb" || hasFlag (Flags attrs) FlagLoopback
          then cleanupSkippedVirtualInterfaces rest
          else if negb (hasInternalVirtualPrefix name)
          then cleanupSkippedVirtualInterfaces rest
          else
            _ <- cleanupSkippedInterface name ;;
            cleanupSkippedVirtualInterfaces rest
      end
  end.

Definition withInitialCleanup (s : Shaper) (done : bool) : Shaper :=
  mkShaper (routeOptimizer s) (classifier s) (appliedSignatures s) done
           (profiles s).

(** ensureInitialCleanup: the cleanup of skipped virtual interfaces, once
    in the life of the shaper. *)
Definition ensureInitialCleanup (s : Shaper) (links : list Link) : M Shaper :=
  if didInitialCleanup s then ret s
  else
    _ <- cleanupSkippedVirtualInterfaces links ;;
    ret (withInitialCleanup s true).

Section Reconcile.
(** applyInterfaces(ctx, only): one apply pass over all interfaces
    ([only = None]) or the named ones; its worker pool is concurrent, and
    only the call is modelled. *)
Variable applyInterfaces :
  Shaper → option (gset string) → M (Shaper * option GoError).

Definition applyPending (s : Shaper) (pending : pendingChanges)
  : M (Shaper * pendingChanges * option GoError) :=
  let '(applyAll, names) := snapshot pending in
  if negb applyAll
     && match names with None => true | Some ns => bool_decide (ns = ∅) end
  then ret (s, pending, None)
  else
    let pending := clear pending in
    r <- (if applyAll then applyInterfaces s None
          else applyInterfaces s names) ;;
    ret (r.1, pending, r.2).

(** Apply configures traffic shaping for all relevant interfaces. *)
Definition Apply (s : Shaper) : M (Shaper * option GoError) :=
  _ <- Route.Optimize (routeOptimizer s) ;;
  applyInterfaces s None.
End Reconcile.

End Traffic.

(** ** internal/syslimit: memory-tier selection *)

Module Syslimit.

(** config.MemoryEffectivenessFactor: the untyped constant 0.8 converted to
    float64 where it meets [systemMemoryMB]. *)
Definition MemoryEffectivenessFactor : float := 0x1.999999999999ap-1%float.

(** config.MaximumSupportedMemoryMB = 1024 * 1024 * 100. *)
Definition MaximumSupportedMemoryMB : float := 104857600%float.

Record MemoryTierConfig : Type := mkTier {
  MemoryMB : float;
  MemoryLabel : string;
  Filename : string;
  Content : string
}.

Inductive SelectError : Type :=
| ErrNoTiers                      (* "no memory tier configurations available" *)
| ErrInvalidMemory (mb : float)   (* "invalid system memory: %.2f MB" *)
| ErrExceedsRange (mb : float).   (* "system memory %.2f MB exceeds supported range" *)

(** The loop [for i := len(tiers) - 1; i >= 0; i--]: [n] is [i + 1]. *)
Fixpoint selectFrom (tiers : list MemoryTierConfig) (effectiveMemoryMB : float)
    (n : nat) : option MemoryTierConfig :=
  match n with
  | O => None
  | S i =>
      match tiers !! i with
      | Some t =>
          if PrimFloat.leb (MemoryMB t) effectiveMemoryMB then Some t
          else selectFrom tiers effectiveMemoryMB i
      | None => selectFrom tiers effectiveMemoryMB i
      end
  end.

Definition selectBestMemoryTier (systemMemoryMB : float)
    (tiers : list MemoryTierConfig)
  : Result (MemoryTierConfig * float) SelectError :=
  match tiers with
  | [] => Err ErrNoTiers
  | t0 :: _ =>
      if PrimFloat.leb systemMemoryMB 0%float then
        Err (ErrInvalidMemory systemMemoryMB)
      else if PrimFloat.ltb MaximumSupportedMemoryMB systemMemoryMB then
        Err (ErrExceedsRange systemMemoryMB)
      else
        let effectiveMemoryMB :=
          PrimFloat.mul systemMemoryMB MemoryEffectivenessFactor in
        match selectFrom tiers effectiveMemoryMB (length tiers) with
        | Some t => Ok (t, effectiveMemoryMB)
        | None => Ok (t0, effectiveMemoryMB)
        end
  end.

(** The order [scanMemoryTierConfigs] leaves its result in: ascending by
    MemoryMB, every threshold comparable with itself (no NaN). *)
Fixpoint sortedAscending (tiers : list MemoryTierConfig) : bool :=
  match tiers with
  | [] => true
  | t :: rest =>
      PrimFloat.leb (MemoryMB t) (MemoryMB t)
      && forallb (fun u => PrimFloat.leb (MemoryMB t) (MemoryMB u)) rest
      && sortedAscending rest
  end.

Definition qualifies (effectiveMemoryMB : float) (t : MemoryTierConfig) : bool :=
  PrimFloat.leb (MemoryMB t) effectiveMemoryMB.

(** Scenario A of the specification: tiers 1gb, 4gb, 8gb and 12gb. *)
Definition scenarioTiers : list MemoryTierConfig :=
  [ mkTier 1024%float "1gb" "limits_1gb.conf" "";
    mkTier 4096%float "4gb" "limits_4gb.conf" "";
    mkTier 8192%float "8gb" "limits_8gb.conf" "";
    mkTier 12288%float "12gb" "limits_12gb.conf" "" ].

End Syslimit.

(** ** internal/config: the defaults of the configuration types, and the
       window configuration cmd/tcsss builds *)

Module Config.

Definition defaultStandardMTU : Z := 1500.
Definition defaultStandardMSS : Z := 1460.
Definition defaultLoopbackMTU : Z := 65536.
Definition defaultLoopbackMSS : Z := 65520.
Definition defaultInitCwndBytes : Z := 146000.
Definition defaultInitRwndBytes : Z := 146000.
Definition defaultLoopbackWindowBytes : Z := 16 * 1024 * 1024.

(** RouteConfig defines TCP window tuning defaults; its fields are those of
    route.WindowConfig. *)
Record RouteConfig : Type := mkRouteConfig {
  MSSBytes : Z;
  InitCwndBytes : Z;
  InitRwndBytes : Z;
  LoopbackWindowBytes : Z
}.

(** Default().Traffic.Routes *)
Definition DefaultRoutes : RouteConfig :=
  mkRouteConfig defaultStandardMSS defaultInitCwndBytes defaultInitRwndBytes
                defaultLoopbackWindowBytes.

Definition windowConfigOf (r : RouteConfig) : Route.WindowConfig :=
  Route.mkWindowConfig (MSSBytes r) (InitCwndBytes r) (InitRwndBytes r)
                       (LoopbackWindowBytes r).

(** The route.WindowConfig of main: the three window sizes of the traffic
    template, MSSBytes left at zero. *)
Definition mainWindowConfig (initCwndBytes initRwndBytes loopbackWindowBytes : Z)
  : Route.WindowConfig :=
  Route.mkWindowConfig 0 initCwndBytes initRwndBytes loopbackWindowBytes.

(** The remaining defaults of types.go; durations in nanoseconds. *)
Definition defaultTxQueueLen : Z := 10001.
Definition defaultLoopbackTxQueueLen : Z := 10000.
Definition defaultInternalRTT : Z := 100 * 1000.
Definition defaultLoopbackRTT : Z := 20 * 1000.
Definition defaultWatcherReapplyInterval : Z := 2 * 1000000000.
Definition defaultWatcherCleanupInterval : Z := 5 * 60 * 1000000000.
Definition defaultWatcherApplyTimeout : Z := 45 * 1000000000.

(** NetworkConfig controls MTU, MSS and queue-length defaults. *)
Record NetworkConfig : Type := mkNetworkConfig {
  StandardMTU : Z;
  StandardMSS : Z;
  LoopbackMTU : Z;
  LoopbackMSS : Z;
  DefaultTxQueueLen : Z;
  LoopbackTxQueueLen : Z;
  InternalRTT : Z;
  LoopbackRTT : Z
}.

(** WatcherConfig defines netlink watcher intervals. *)
Record WatcherConfig : Type := mkWatcherConfig {
  ReapplyInterval : Z;
  CleanupInterval : Z;
  ApplyTimeout : Z
}.

(** TrafficConfig controls traffic shaping behaviour. *)
Record TrafficConfig : Type := mkTrafficConfig {
  Routes : RouteConfig;
  Watcher : WatcherConfig
}.

(** Config represents the top-level tcsss configuration. *)
Record Config : Type := mkConfig {
  Network : NetworkConfig;
  Traffic : TrafficConfig
}.

(** Default returns Config populated with recommended defaults. *)
Definition Default : Config :=
  {| Network :=
       mkNetworkConfig defaultStandardMTU defaultStandardMSS defaultLoopbackMTU
                       defaultLoopbackMSS defaultTxQueueLen
                       defaultLoopbackTxQueueLen defaultInternalRTT
                       defaultLoopbackRTT;
     Traffic :=
       mkTrafficConfig DefaultRoutes
         (mkWatcherConfig defaultWatcherReapplyInterval
                          defaultWatcherCleanupInterval
                          defaultWatcherApplyTimeout) |}.

(** [if field <= 0 { field = fallback }] *)
Definition orDefault (value fallback : Z) : Z :=
  if value <=? 0 then fallback else value.

(** ApplyDefaults normalises missing or zero values (of a non-nil
    receiver). *)
Definition ApplyDefaults (c : Config) : Config :=
  let n := Network c in
  let r := Routes (Traffic c) in
  let w := Watcher (Traffic c) in
  {| Network :=
       {| StandardMTU := orDefault (StandardMTU n) defaultStandardMTU;
          StandardMSS := orDefault (StandardMSS n) defaultStandardMSS;
          LoopbackMTU := orDefault (LoopbackMTU n) defaultLoopbackMTU;
          LoopbackMSS := orDefault (LoopbackMSS n) defaultLoopbackMSS;
          DefaultTxQueueLen := orDefault (DefaultTxQueueLen n) defaultTxQueueLen;
          LoopbackTxQueueLen :=
            orDefault (LoopbackTxQueueLen n) defaultLoopbackTxQueueLen;
          InternalRTT := orDefault (InternalRTT n) defaultInternalRTT;
          LoopbackRTT := orDefault (LoopbackRTT n) defaultLoopbackRTT |};
     Traffic :=
       {| Routes :=
            {| MSSBytes := orDefault (MSSBytes r) defaultStandardMSS;
               InitCwndBytes := orDefault (InitCwndBytes r) defaultInitCwndBytes;
               InitRwndBytes := orDefault (InitRwndBytes r) defaultInitRwndBytes;
               LoopbackWindowBytes :=
                 orDefault (LoopbackWindowBytes r) defaultLoopbackWindowBytes |};
          Watcher :=
            {| ReapplyInterval :=
                 orDefault (ReapplyInterval w) defaultWatcherReapplyInterval;
               CleanupInterval :=
                 orDefault (CleanupInterval w) defaultWatcherCleanupInterval;
               ApplyTimeout :=
                 orDefault (ApplyTimeout w) defaultWatcherApplyTimeout |} |} |}.

(** Validate performs boundary checks and returns the first error
    encountered: [Some message], or [None] for nil. *)
Definition Validate (c : Config) : option string :=
  let n := Network c in
  let r := Routes (Traffic c) in
  let w := Watcher (Traffic c) in
  if StandardMTU n <=? 0 then
    Some "network.standard_mtu must be positive"
  else if (StandardMSS n <=? 0) || (StandardMTU n <=? StandardMSS n) then
    Some "network.standard_mss must be positive and less than MTU"
  else if (LoopbackMTU n <=? 0) || (LoopbackMSS n <=? 0) then
    Some "network.loopback mtu/mss must be positive"
  else if (DefaultTxQueueLen n <=? 0) || (LoopbackTxQueueLen n <=? 0) then
    Some "network.tx_queue_len values must be positive"
  else if MSSBytes r <=? 0 then
    Some "traffic.routes.mss_bytes must be positive"
  else if (InitCwndBytes r <=? 0) || (InitRwndBytes r <=? 0) then
    Some "traffic.routes init window sizes must be positive"
  else if ReapplyInterval w <=? 0 then
    Some "traffic.watcher.reapply_interval must be positive"
  else if CleanupInterval w <=? 0 then
    Some "traffic.watcher.cleanup_interval must be positive"
  else if ApplyTimeout w <=? 0 then
    Some "traffic.watcher.apply_timeout must be positive"
  else None.

End Config.

(** ** internal/sysinfo: the memory size of /proc/meminfo *)

Module Sysinfo.
Import GoStrings Errors World.

(** The loop of ReadMemoryKB over the lines of the file: the first line
    that starts with MemTotal: decides. *)
Fixpoint memTotal (path : string) (lines : list string) : Result Z GoError :=
  match lines with
  | [] => Err (Errorf "MemTotal not found in %s" [ArgStr path] None)
  | line :: rest =>
      if HasPrefix line "MemTotal:" then
        match Fields line with
        | _ :: value :: _ =>
            match ParseUint value with
            | None =>
                Err (Errorf "parse MemTotal value: %w" []
                            (Some (Errorf "strconv.ParseUint: parsing %q"
                                          [ArgStr value] None)))
            | Some memKB =>
                if memKB =? 0 then Err (Errorf "MemTotal is zero" [] None)
                else Ok memKB
            end
        | _ => Err (Errorf "invalid MemTotal line: %s" [ArgStr line] None)
        end
      else memTotal path rest
  end.

(** ReadMemoryKB reads the total system memory from the specified meminfo
    path and returns it in kilobytes. *)
Definition ReadMemoryKB (path : string) : M (Result Z GoError) :=
  data <- ReadFile path ;;
  match data with
  | Err e =>
      ret (Err (Errorf "read %s: %w" [ArgStr path] (Some (External e))))
  | Ok text => ret (memTotal path (Split text (String "010"%char EmptyString)))
  end.

End Sysinfo.

(** ** internal/config: the traffic mode found in the template directory *)

Module TrafficModes.
Import GoStrings Errors.









End TrafficModes.

(** ** internal/syslimit: sysctl.conf from the templates, and the resource
       limits of the templates *)

Module Sysctl.
Import GoStrings Errors.

Definition LF : string := String "010"%char EmptyString.

(** [if idx := strings.Index(line, "#"); idx > 0 {
       line = strings.TrimSpace(line[:idx]) }] *)
Definition stripComment (line : string) : string :=
  let idx := Index line "#" in
  if 0 <? idx then TrimSpace (takeBytes (Z.to_nat idx) line) else line.

(** isSysctlKey returns true when the key looks like a kernel parameter. *)
Definition isSysctlKey (key : string) : bool :=
  if HasPrefix key "rlimit." then false
  else if negb (Contains key ".") then false
  else negb (ContainsAny key (String " "%char (String "009"%char EmptyString))).

(** One line of a template, added to the parameters read so far. *)
Definition parseTemplateLine (params : gmap string string) (line : string)
  : gmap string string :=
  let line := TrimSpace line in
  if String.eqb line "" || HasPrefix line "#" then params
  else
    let line := stripComment line in
    match SplitN2 line "=" with
    | [k; v] =>
        let key := TrimSpace k in
        if String.eqb key "" || HasPrefix key "rlimit."
           || negb (isSysctlKey key)
        then params
        else <[key := TrimSpace v]> params
    | _ => params
    end.

(** parseTemplate extracts key=value pairs from templates; it skips
    rlimit.* parameters, which a separate applier handles. *)
Definition parseTemplate (templates : list string) : gmap string string :=
  foldl (fun params tpl => foldl parseTemplateLine params (Split tpl LF))
        ∅ templates.

(** extractKey extracts the parameter key from a config line. *)
Definition extractKey (line : string) : string :=
  let line := stripComment line in
  let idx := Index line "=" in
  if 0 <? idx then TrimSpace (takeBytes (Z.to_nat idx) line)
  else
    match Fields line with
    | key :: _ :: _ => key
    | _ => ""
    end.

(** fmt.Sprintf("%s = %s", key, value) *)
Definition paramLine (kv : string * string) : string :=
  kv.1 +:+ " = " +:+ kv.2.

(** One existing line, added to the output lines and the set of updated
    keys. *)
Definition mergeLine (params : gmap string string)
    (acc : list string * gset string) (line : string)
  : list string * gset string :=
  let trimmed := TrimSpace line in
  if String.eqb trimmed "" || HasPrefix trimmed "#" then (acc.1 ++ [line], acc.2)
  else
    let key := extractKey trimmed in
    if String.eqb key "" then (acc.1 ++ [line], acc.2)
    else
      match params !! key with
      | Some value => (acc.1 ++ [paramLine (key, value)], {[key]} ∪ acc.2)
      | None => (acc.1 ++ [line], acc.2)
      end.

(** merge updates template parameters in existing config, preserving other
    lines.  [order] is the order in which the range over the map [params]
    yields its entries, which Go leaves open: a permutation of the entries
    of [params]. *)
Definition merge (existing : string) (params : gmap string string)
    (order : list (string * string)) : string :=
  if String.eqb existing "" then
    Join ("# tcsss managed sysctl parameters" :: (paramLine <$> order)) LF
    +:+ LF
  else
    let acc := foldl (mergeLine params) ([], ∅) (Split existing LF) in
    let missing :=
      paramLine <$> filter (fun kv => kv.1 ∉ acc.2) order in
    let output :=
      match missing with
      | [] => acc.1
      | _ => (acc.1 ++ [""; "# tcsss managed parameters"]) ++ missing
      end in
    let result := Join output LF in
    if negb (HasSuffix result LF) then result +:+ LF else result.

(** isConfigUnchanged *)
Definition isConfigUnchanged (existing merged : string) : bool :=
  String.eqb existing merged.

End Sysctl.

Module Rlimit.
Import GoStrings Errors.

(** The resources of resourceNameToRlimit: the RLIMIT_ constants of
    golang.org/x/sys/unix, twelve distinct numbers. *)
Inductive Resource : Type :=
| RLIMIT_NOFILE | RLIMIT_NPROC | RLIMIT_CORE | RLIMIT_STACK | RLIMIT_CPU
| RLIMIT_MEMLOCK | RLIMIT_AS | RLIMIT_DATA | RLIMIT_FSIZE | RLIMIT_MSGQUEUE
| RLIMIT_SIGPENDING | RLIMIT_LOCKS.

Definition resourceNameToRlimit (name : string) : option Resource :=
  if String.eqb name "nofile" then Some RLIMIT_NOFILE
  else if String.eqb name "nproc" then Some RLIMIT_NPROC
  else if String.eqb name "core" then Some RLIMIT_CORE
  else if String.eqb name "stack" then Some RLIMIT_STACK
  else if String.eqb name "cpu" then Some RLIMIT_CPU
  else if String.eqb name "memlock" then Some RLIMIT_MEMLOCK
  else if String.eqb name "as" then Some RLIMIT_AS
  else if String.eqb name "data" then Some RLIMIT_DATA
  else if String.eqb name "fsize" then Some RLIMIT_FSIZE
  else if String.eqb name "msgqueue" then Some RLIMIT_MSGQUEUE
  else if String.eqb name "sigpending" then Some RLIMIT_SIGPENDING
  else if String.eqb name "locks" then Some RLIMIT_LOCKS
  else None.

(** limitConfig holds soft and hard limit values (uint64). *)
Record limitConfig : Type := mkLimit {
  resource : Resource;
  name : string;
  soft : Z;
  hard : Z
}.

(** ^uint64(0), RLIM_INFINITY *)
Definition unlimited : Z := 2 ^ 64 - 1.

(** parseRlimitValue converts a string value to uint64, supporting
    "unlimited". *)
Definition parseRlimitValue (value : string) : Result Z GoError :=
  let value := TrimSpace value in
  if String.eqb value "unlimited" then Ok unlimited
  else
    match ParseUint value with
    | Some val => Ok val
    | None =>
        Err (Errorf "invalid rlimit value %q: %w" [ArgStr value]
                    (Some (Errorf "strconv.ParseUint: parsing %q"
                                  [ArgStr value] None)))
    end.

(** One line of the template: the limit it defines, if any. *)
Definition parseRlimitLine (line : string) : option limitConfig :=
  let line := TrimSpace line in
  if negb (HasPrefix line "rlimit.") then None
  else
    match SplitN2 line "=" with
    | [k; v] =>
        let resourceName := TrimSpace (TrimPrefix k "rlimit.") in
        let valueStr := TrimSpace v in
        match resourceNameToRlimit resourceName with
        | None => None
        | Some resource =>
            match parseRlimitValue valueStr with
            | Err _ => None
            | Ok value =>
                let value :=
                  if String.eqb resourceName "stack"
                     && negb (value =? unlimited)
                  then (value * 1024) mod 2 ^ 64
                  else value in
                Some (mkLimit resource ("RLIMIT_" +:+ ToUpper resourceName)
                              value value)
            end
        end
    | _ => None
    end.

(** parseRlimitConfig parses rlimit configuration from template content:
    only rlimit.* entries, in the order of the lines. *)
Definition parseRlimitConfig (content : string) : list limitConfig :=
  omap parseRlimitLine (Split content Sysctl.LF).

End Rlimit.

(** ** What the specification says, for comparison with the code *)

Module Spec.
Import GoStrings Errors World Traffic.

(** The spellings the specification treats as one ethtool -K set-name. *)
Definition rxSpellings : list string := ["rx"; "rx-checksum"; "rx_checksum"].
Definition txSpellings : list string := ["tx"; "tx-checksum"; "tx_checksum"].

(** Two feature names that differ only in letter case or in the alias
    spelling of rx or of tx. *)
Inductive sameFeature : string → string → Prop :=
| sameFeature_case a b : ToLower a = ToLower b → sameFeature a b
| sameFeature_rx a b :
    inSet (ToLower a) rxSpellings = true →
    inSet (ToLower b) rxSpellings = true → sameFeature a b
| sameFeature_tx a b :
    inSet (ToLower a) txSpellings = true →
    inSet (ToLower b) txSpellings = true → sameFeature a b.

(** Two offload settings that differ only in those spellings or in the
    letter case of the state. *)
Definition sameOffload (o1 o2 : offloadSetting) : Prop :=
  sameFeature (feature o1) (feature o2) ∧ ToLower (state o1) = ToLower (state o2).

(** The profile of scenario D. *)
Definition scenarioD : shapingProfile :=
  mkProfile "10001" ["cake"; "unlimited"; "besteffort"]
            ["cake"; "unlimited"; "diffserv4"]
            [mkOffload "rx" "on"; mkOffload "tx" "on"; mkOffload "gro" "off"]
            "".

Definition withOffloads (p : shapingProfile) (offs : list offloadSetting)
  : shapingProfile :=
  mkProfile (queueLength p) (rootQdisc p) (ifbQdisc p) offs (mtuOverride p).

(** The four profiles of a profile set. *)
Definition builtinProfiles (ps : profileSet) : list shapingProfile :=
  [internalVirtual ps; externalVirtual ps; externalPhysical ps; loopback ps].

(** The sorted offload pairs of the built-in profiles, for the profile's
    gro state. *)
Definition builtinPairs (gro : string) : list string :=
  [ "gro=" +:+ gro; "gso=off"; "lro=off"; "rx=on"; "rx=on"; "sg=off";
    "tso=off"; "tx-gso-partial=off"; "tx-scatter-gather=off"; "tx=on";
    "tx=on"; "ufo=off" ].

(** The four ways the specification lists for an interface to be
    virtual. *)
Definition virtualByName (name : string) : bool :=
  hasInternalVirtualPrefix name || hasExternalVirtualPrefix name.

Definition virtualBySysfsPath (fs : Sysfs) (name : string) : bool :=
  match EvalSymlinks fs (pathJoin "/sys/class/net" name) with
  | Some resolved => isSysfsVirtualPath resolved
  | None => false
  end.

Definition virtualByDriver (fs : Sysfs) (name : string) : bool :=
  let driver := interfaceDriverModule fs (pathJoin "/sys/class/net" name) in
  negb (String.eqb driver "")
  && inSet (normalizeIdentifier driver) virtualDriverModules.

Definition virtualByVendor (fs : Sysfs) (name : string) : bool :=
  let vendor := interfaceVendor fs (pathJoin "/sys/class/net" name) in
  negb (String.eqb vendor "")
  && inSet (normalizeIdentifier vendor) virtualVendorIDs.

Definition specIsVirtual (fs : Sysfs) (name : string) : bool :=
  virtualByName name || virtualBySysfsPath fs name
  || virtualByDriver fs name || virtualByVendor fs name.

(** External: an external-virtual name prefix, or the link index is in the
    set of link indexes with a default route. *)
Definition specIsExternal (defaultRouteIndexes : gset Z) (index : Z)
    (name : string) : bool :=
  hasExternalVirtualPrefix name || bool_decide (index ∈ defaultRouteIndexes).

(** The decision procedure of the specification, first match wins. *)
Definition specClassify (fs : Sysfs) (defaultRouteIndexes : gset Z)
    (attrs : LinkAttrs) : ifaceClass :=
  if hasFlag (Flags attrs) FlagLoopback then classLoopback
  else if hasInternalVirtualPrefix (Name attrs) then classInternalVirtualSkip
  else
    match specIsExternal defaultRouteIndexes (Index attrs) (Name attrs),
          specIsVirtual fs (Name attrs) with
    | true, true => classExternalVirtual
    | true, false => classExternalPhysical
    | false, true => classInternalVirtual
    | false, false => classExternalPhysical
    end.

(** The state of a classifier that has worked against one sysfs: cached
    link indexes are positive, cached answers are those of the hardware
    detection. *)
Definition classifierInv (fs : Sysfs) (ic : InterfaceClassifier) : Prop :=
  (∀ i, i ∈ externalLinkIndexes ic → 0 < i)
  ∧ (∀ name b, virtualCache ic !! name = Some b →
               b = detectVirtualHardware fs name).

Definition shapedClass (c : ifaceClass) : bool :=
  match c with
  | classLoopback | classExternalPhysical | classExternalVirtual
  | classInternalVirtual => true
  | classInternalVirtualSkip | classUnknown => false
  end.

(** The IFB a link requires, by the specification: none for a link without
    attributes or name, for an IFB, and for a skipped or unknown class. *)
Definition requiredIfb (fs : Sysfs) (defaultRouteIndexes : gset Z)
    (link : Link) : option string :=
  match Attrs link with
  | None => None
  | Some attrs =>
      if String.eqb (Name attrs) "" || HasPrefix (Name attrs) "ifb" then None
      else if shapedClass (specClassify fs defaultRouteIndexes attrs)
      then Some (truncateIfb (IfbPrefix +:+ Name attrs))
      else None
  end.

(** A sysfs with no entry at all. *)
Definition bareSysfs : Sysfs :=
  mkSysfs (fun _ => None) (fun _ => None) (fun _ => None).

(** A sysfs in which ens3 is bound to the virtio_net driver module. *)
Definition virtioSysfs : Sysfs :=
  mkSysfs
    (fun _ => None)
    (fun path =>
       if String.eqb path "/sys/class/net/ens3/device/driver/module"
       then Some "../../../../module/virtio_net" else None)
    (fun _ => None).

(** An environment in which every command and every netlink or file call
    fails. *)
Definition failure : ExternalError := mkExternal "exit status 1" false false.

Definition failingEnv : Env :=
  {| envRun := fun _ _ _ => ("", Some failure);
     envLinkList := fun _ => Err failure;
     envLinkByName := fun _ _ => Err failure;
     envLinkByIndex := fun _ _ => Err failure;
     envLinkDel := fun _ _ => Some failure;
     envLinkSetMTU := fun _ _ _ => Some failure;
     envLinkSetTxQLen := fun _ _ _ => Some failure;
     envRouteList := fun _ _ => Err failure;
     envReadFile := fun _ _ => Err failure |}.

(** A shaper as main builds it, durations rendered as the defaults are. *)
Definition initialShaper : Shaper :=
  NewShaper (fun d => if d =? 100000 then "100µs" else "20µs")
            (mkSettings (Config.mainWindowConfig 1495040 3145728 10485760)
                        (mkProfileSettings 0 0 0 0 0)).

(** An apply pass that does nothing, to run the watcher against. *)
Definition idleApply (s : Shaper) (only : option (gset string))
  : M (Shaper * option GoError) := ret (s, None).

Definition namedLink (name : string) : Link :=
  mkLink (Some (mkAttrs 2 1500 1000 name FlagUp)).

(** An environment in which every command and every netlink call
    succeeds; links are found up, with the MTU and queue length given. *)
Definition okEnv (mtu qlen : Z) : Env :=
  {| envRun := fun _ _ _ => ("", None);
     envLinkList := fun _ => Ok [];
     envLinkByName := fun _ name => Ok (mkLink (Some (mkAttrs 9 mtu qlen name FlagUp)));
     envLinkByIndex := fun _ index => Ok (mkLink (Some (mkAttrs index mtu qlen "eth0" FlagUp)));
     envLinkDel := fun _ _ => None;
     envLinkSetMTU := fun _ _ _ => None;
     envLinkSetTxQLen := fun _ _ _ => None;
     envRouteList := fun _ _ => Ok [];
     envReadFile := fun _ _ => Ok "" |}.

(** The same, except that tc fails. *)
Definition tcFailsEnv (mtu qlen : Z) : Env :=
  {| envRun := fun _ name _ =>
       if String.eqb name "tc" then ("", Some failure) else ("", None);
     envLinkList := fun _ => Ok [];
     envLinkByName := fun _ name => Ok (mkLink (Some (mkAttrs 9 mtu qlen name FlagUp)));
     envLinkByIndex := fun _ index => Ok (mkLink (Some (mkAttrs index mtu qlen "eth0" FlagUp)));
     envLinkDel := fun _ _ => None;
     envLinkSetMTU := fun _ _ _ => None;
     envLinkSetTxQLen := fun _ _ _ => None;
     envRouteList := fun _ _ => Ok [];
     envReadFile := fun _ _ => Ok "" |}.

(** The local routing table of a host with the loopback addresses and one
    address on eth0, as [ip route show table local] prints it. *)
Definition localTable : string :=
  "local 127.0.0.0/8 dev lo proto kernel scope host src 127.0.0.1"
  +:+ String "010"%char
  ("local 127.0.0.1 dev lo proto kernel scope host src 127.0.0.1"
  +:+ String "010"%char
  ("broadcast 127.255.255.255 dev lo proto kernel scope link src 127.0.0.1"
  +:+ String "010"%char
  ("local 192.168.1.10 dev eth0 proto kernel scope host src 192.168.1.10"
  +:+ String "010"%char EmptyString))).

(** An environment in which ip prints [localTable] for the local table and
    every other command succeeds without output. *)
Definition localTableEnv : Env :=
  {| envRun := fun _ name args =>
       if String.eqb name "ip"
          && bool_decide (args = ["route"; "show"; "table"; "local"])
       then (localTable, None) else ("", None);
     envLinkList := fun _ => Ok [];
     envLinkByName := fun _ name => Ok (mkLink (Some (mkAttrs 9 1500 1000 name FlagUp)));
     envLinkByIndex := fun _ index => Ok (mkLink (Some (mkAttrs index 1500 1000 "eth0" FlagUp)));
     envLinkDel := fun _ _ => None;
     envLinkSetMTU := fun _ _ _ => None;
     envLinkSetTxQLen := fun _ _ _ => None;
     envRouteList := fun _ _ => Ok [];
     envReadFile := fun _ _ => Ok "" |}.

(** The optimizer main builds from a traffic template that sets init
    windows of 146000 bytes and a loopback window of 16 MiB: MSSBytes is
    left at zero. *)
Definition mainOptimizer : Route.Optimizer :=
  Route.NewOptimizer
    (Config.mainWindowConfig 146000 146000 (16 * 1024 * 1024)) true.

Definition eth0 : LinkAttrs := mkAttrs 2 1500 1000 "eth0" FlagUp.

(** An interface whose MTU is below config.MinMTU: a CAN bus device. *)
Definition smallMtuLink : LinkAttrs := mkAttrs 4 16 10 "can0" FlagUp.

Definition physicalProfile : shapingProfile :=
  externalPhysical (profiles initialShaper).

(** The context buildProfileContext would hand to the steps for
    [smallMtuLink], were its MTU not refused. *)
Definition smallMtuContext : profileContext :=
  {| iface := "can0";
     attrs := smallMtuLink;
     profile := physicalProfile;
     profileName := "external-physical";
     mtuStr := "16";
     pcQueueLength := "10001";
     desiredMTU := 16;
     desiredQueueLen := 10001;
     signature := makeSignature "16" "10001" physicalProfile;
     ifbName := "ifb4can0" |}.

(** The state the callbacks keep: with apply-all set the name set is
    empty. *)
Definition pendingInv (p : pendingChanges) : Prop :=
  all p = true → names p = ∅.

(** The applied-signature map holds no entry for the empty name. *)
Definition signaturesInv (s : Shaper) : Prop :=
  appliedSignatures s !! "" = None.

End Spec.

(** ** Predicates and sample data the further properties are stated with *)

Module Preds.
Import GoStrings.

Fixpoint allBytes (p : ascii → bool) (s : string) : bool :=
  match s with
  | EmptyString => true
  | String c rest => p c && allBytes p rest
  end.

Definition notSpace (c : ascii) : bool := negb (Ascii.is_space c).

(** A token as strings.Fields yields it: not empty, no white space. *)
Definition isWord (w : string) : bool :=
  negb (String.eqb w "") && allBytes notSpace w.

Definition noByte (b : ascii) (s : string) : bool :=
  allBytes (fun c => negb (Ascii.eqb c b)) s.

Definition headNotSpace (s : string) : bool :=
  match s with
  | EmptyString => false
  | String c _ => notSpace c
  end.

Fixpoint lastNotSpace (s : string) : bool :=
  match s with
  | EmptyString => false
  | String c EmptyString => notSpace c
  | String _ rest => lastNotSpace rest
  end.

(** A string as strings.TrimSpace leaves it, and not empty. *)
Definition isTight (s : string) : bool := headNotSpace s && lastNotSpace s.

(** [n] spaces *)
Fixpoint spaces (n : nat) : string :=
  match n with
  | O => EmptyString
  | S k => String " "%char (spaces k)
  end.

(** A computation that, from any trace and against any environment, only
    adds calls that satisfy [P], and returns a value that satisfies [Q]. *)
Definition emits {A} (P : World.Call → Prop) (Q : A → Prop) (m : World.M A)
  : Prop :=
  ∀ env t, ∃ calls, (m env t).2 = t ++ calls ∧ Forall P calls ∧ Q (m env t).1.

Definition setsMTU (c : World.Call) : bool :=
  match c with World.CallLinkSetMTU _ _ => true | _ => false end.

Definition keepsMTU (c : World.Call) : Prop := setsMTU c = false.

(** The interface a call deletes: LinkDel of a link with attributes, or
    ip link del. *)
Definition deletes (c : World.Call) : option string :=
  match c with
  | World.CallLinkDel link => World.Name <$> World.Attrs link
  | World.CallRun name args =>
      if String.eqb name "ip" then
        match args with
        | [a1; a2; target] =>
            if String.eqb a1 "link" && String.eqb a2 "del" then Some target
            else None
        | _ => None
        end
      else None
  | _ => None
  end.

(** The interfaces the initial cleanup visits: named by an internal virtual
    prefix, neither an IFB nor a loopback. *)
Definition skippedNames (links : list World.Link) : list string :=
  omap
    (λ link,
       match World.Attrs link with
       | Some attrs =>
           if HasPrefix (World.Name attrs) "ifb"
              || World.hasFlag (World.Flags attrs) World.FlagLoopback
           then None
           else if Traffic.hasInternalVirtualPrefix (World.Name attrs)
           then Some (World.Name attrs) else None
       | None => None
       end)
    links.

Definition cleanupCalls (name : string) : list World.Call :=
  [ World.CallRun "tc" ["qdisc"; "del"; "dev"; name; "root"];
    World.CallRun "tc" ["qdisc"; "del"; "dev"; name; "handle";
                        Traffic.IngressHandle; "ingress"];
    World.CallRun "ip" ["link"; "del";
                        Traffic.truncateIfb (Traffic.IfbPrefix +:+ name)] ].

(** A pending change set under which the next apply reaches [name]. *)
Definition covers (p : Traffic.pendingChanges) (name : string) : Prop :=
  Traffic.all p = true ∨ name ∈ Traffic.names p.

(** The keys and values parseTemplate yields: a key is not empty, has no
    white space at its ends and holds no #, = or newline; a value holds no #
    or newline. *)
Definition goodKey (k : string) : bool :=
  isTight k && noByte "#"%char k && noByte "="%char k && noByte "010"%char k.

Definition goodValue (v : string) : bool :=
  noByte "#"%char v && noByte "010"%char v.

Definition goodParams (m : gmap string string) : Prop :=
  ∀ k v, m !! k = Some v →
         goodKey k = true ∧ goodValue v = true ∧ Sysctl.isSysctlKey k = true.

(** The line merge puts out for an existing line, and the key it marks as
    updated. *)
Definition mergeOut (params : gmap string string) (line : string) : string :=
  let trimmed := TrimSpace line in
  if String.eqb trimmed "" || HasPrefix trimmed "#" then line
  else
    let key := Sysctl.extractKey trimmed in
    if String.eqb key "" then line
    else
      match params !! key with
      | Some value => Sysctl.paramLine (key, value)
      | None => line
      end.

Definition mergeKey (params : gmap string string) (line : string)
  : option string :=
  let trimmed := TrimSpace line in
  if String.eqb trimmed "" || HasPrefix trimmed "#" then None
  else
    let key := Sysctl.extractKey trimmed in
    if String.eqb key "" then None
    else
      match params !! key with
      | Some _ => Some key
      | None => None
      end.

(** What a line of a merged file satisfies: it holds no newline and merge
    puts it out as it is. *)
Definition settled (params : gmap string string) (l : string) : Prop :=
  noByte "010"%char l = true ∧ mergeOut params l = l.

(** A template and an existing sysctl.conf to run merge on. *)
Definition sampleTemplate : string :=
  "# common" +:+ Sysctl.LF +:+ "net.ipv4.tcp_sack = 1 # on" +:+ Sysctl.LF
  +:+ "rlimit.nofile=1048576" +:+ Sysctl.LF +:+ " vm.swappiness=10"
  +:+ Sysctl.LF.

Definition sampleSysctlConf : string :=
  "# local settings" +:+ Sysctl.LF +:+ "vm.swappiness = 60" +:+ Sysctl.LF
  +:+ "kernel.panic 5".



(** An environment in which every file read yields [content]. *)
Definition fileEnv (content : string) : World.Env :=
  {| World.envRun := fun _ _ _ => ("", None);
     World.envLinkList := fun _ => Ok [];
     World.envLinkByName := fun _ _ => Ok (World.mkLink None);
     World.envLinkByIndex := fun _ _ => Ok (World.mkLink None);
     World.envLinkDel := fun _ _ => None;
     World.envLinkSetMTU := fun _ _ _ => None;
     World.envLinkSetTxQLen := fun _ _ _ => None;
     World.envRouteList := fun _ _ => Ok [];
     World.envReadFile := fun _ _ => Ok content |}.

(** The MemTotal line of /proc/meminfo as the kernel prints it: the label,
    padding of at least one space, the number and the unit. *)
Definition memTotalLine (pad : nat) (n : Z) : string :=
  "MemTotal:" +:+ spaces (S pad) +:+ Itoa n +:+ " kB".

(** A line holds no newline. *)
Definition noLF (l : string) : bool := noByte "010"%char l.

(** A template line rlimit.<resource>=<value>, the value a decimal number
    or, for [None], the word unlimited. *)
Definition rlimitValue (v : option Z) : string :=
  match v with
  | Some n => Itoa n
  | None => "unlimited"
  end.

Definition rlimitLine (e : string * option Z) : string :=
  "rlimit." +:+ e.1 +:+ "=" +:+ rlimitValue e.2.

(** The number a template value stands for. *)
Definition rlimitNumber (v : option Z) : Z := default (2 ^ 64 - 1) v.

(** The limit a template entry asks for: the resource of that name, soft
    and hard limit alike the number, except that a stack size other than
    the largest number counts kilobytes and wraps around at 64 bits. *)
Definition limitFor (e : string * option Z) (l : Rlimit.limitConfig) : Prop :=
  Rlimit.resourceNameToRlimit e.1 = Some (Rlimit.resource l)
  ∧ Rlimit.name l = "RLIMIT_" +:+ ToUpper e.1
  ∧ Rlimit.hard l = Rlimit.soft l
  ∧ (e.1 ≠ "stack" → Rlimit.soft l = rlimitNumber e.2)
  ∧ (e.1 = "stack" → rlimitNumber e.2 = 2 ^ 64 - 1 →
     Rlimit.soft l = 2 ^ 64 - 1)
  ∧ (e.1 = "stack" → rlimitNumber e.2 ≠ 2 ^ 64 - 1 →
     Rlimit.soft l = (rlimitNumber e.2 * 1024) mod 2 ^ 64).

End Preds.

(* ===================================================================== *)
(** * Properties *)
(* ===================================================================== *)

(** ** Memory-tier selection *)

Section TierSelection.
Import Syslimit.

Lemma SFcompare_antisym (a b : spec_float) :
  SFcompare b a = CompOpp <$> SFcompare a b.
Proof.
  destruct a as [sa|sa| |sa ma ea], b as [sb|sb| |sb mb eb]; simpl;
    try reflexivity;
    repeat match goal with s : bool |- _ => destruct s end;
    simpl; try reflexivity.
  all: change (PosDef.Pos.compare_cont Eq) with Pos.compare.
  all: rewrite (Z.compare_antisym ea eb), (Pos.compare_antisym ma mb).
  all: destruct (ea ?= eb)%Z; simpl; try reflexivity.
  all: destruct (ma ?= mb)%positive; reflexivity.
Qed.

Lemma float_ltb_leb_flip (x y : float) :
  PrimFloat.ltb x y = true → PrimFloat.leb y x = false.
Proof.
  rewrite ltb_spec, leb_spec. unfold SFltb, SFleb.
  rewrite (SFcompare_antisym (Prim2SF x) (Prim2SF y)).
  destruct (SFcompare (Prim2SF x) (Prim2SF y)) as [[]|]; simpl; congruence.
Qed.

Lemma float_leb_ltb_flip (x y : float) :
  PrimFloat.leb x y = true → PrimFloat.ltb y x = false.
Proof.
  rewrite ltb_spec, leb_spec. unfold SFltb, SFleb.
  rewrite (SFcompare_antisym (Prim2SF x) (Prim2SF y)).
  destruct (SFcompare (Prim2SF x) (Prim2SF y)) as [[]|]; simpl; congruence.
Qed.

Lemma selectFrom_Some tiers eff n t :
  selectFrom tiers eff n = Some t →
  ∃ i, (i < n)%nat ∧ tiers !! i = Some t ∧ qualifies eff t = true ∧
       ∀ j u, (i < j < n)%nat → tiers !! j = Some u → qualifies eff u = false.
Proof.
  induction n as [|n IH]; simpl; [discriminate|].
  destruct (tiers !! n) as [u|] eqn:Hn.
  - destruct (PrimFloat.leb (MemoryMB u) eff) eqn:Hq.
    + intros [= <-]. exists n. repeat split; auto with lia.
    + intros Hs. destruct (IH Hs) as (i & Hi & Hl & Hqi & Hrest).
      exists i. repeat split; auto with lia.
      intros j v Hj Hv. destruct (decide (j = n)) as [->|Hne].
      * rewrite Hn in Hv. injection Hv as <-. exact Hq.
      * apply (Hrest j v); [lia|done].
  - intros Hs. destruct (IH Hs) as (i & Hi & Hl & Hqi & Hrest).
    exists i. repeat split; auto with lia.
    intros j v Hj Hv. destruct (decide (j = n)) as [->|Hne].
    + congruence.
    + apply (Hrest j v); [lia|done].
Qed.

Lemma selectFrom_None tiers eff n :
  selectFrom tiers eff n = None →
  ∀ j u, (j < n)%nat → tiers !! j = Some u → qualifies eff u = false.
Proof.
  induction n as [|n IH]; simpl; [intros; lia|].
  destruct (tiers !! n) as [u|] eqn:Hn.
  - destruct (PrimFloat.leb (MemoryMB u) eff) eqn:Hq; [discriminate|].
    intros Hs j v Hj Hv. destruct (decide (j = n)) as [->|Hne].
    + rewrite Hn in Hv. injection Hv as <-. exact Hq.
    + apply (IH Hs j v); [lia|done].
  - intros Hs j v Hj Hv. destruct (decide (j = n)) as [->|Hne].
    + congruence.
    + apply (IH Hs j v); [lia|done].
Qed.

Lemma sortedAscending_lookup tiers i j t u :
  sortedAscending tiers = true → (i ≤ j)%nat →
  tiers !! i = Some t → tiers !! j = Some u →
  PrimFloat.leb (MemoryMB t) (MemoryMB u) = true.
Proof.
  revert i j. induction tiers as [|a rest IH]; intros i j Hs Hij Hi Hj.
  - discriminate.
  - simpl in Hs. apply andb_prop in Hs as [Hs Hrest].
    apply andb_prop in Hs as [Hrefl Hall].
    destruct i as [|i].
    + injection Hi as <-. destruct j as [|j].
      * injection Hj as <-. exact Hrefl.
      * simpl in Hj. rewrite forallb_forall in Hall. apply Hall.
        apply list_elem_of_In. eapply list_elem_of_lookup_2. exact Hj.
    + destruct j as [|j]; [lia|]. simpl in Hi, Hj.
      apply (IH i j); auto with lia.
Qed.

(** C1.  selectBestMemoryTier fails exactly when the tier list is empty,
    systemMemoryMB <= 0, or systemMemoryMB exceeds MaximumSupportedMemoryMB.
    For a non-empty list sorted ascending by MemoryMB and
    0 < systemMemoryMB <= MaximumSupportedMemoryMB it returns
    effectiveMemoryMB = systemMemoryMB * 0.8 (the float64 product) together
    with the largest tier whose MemoryMB <= effectiveMemoryMB, or the
    smallest tier when no tier qualifies. *)
Theorem selectBestMemoryTier_spec (systemMemoryMB : float)
    (tiers : list MemoryTierConfig) :
  (is_err (selectBestMemoryTier systemMemoryMB tiers) = true ↔
     tiers = []
     ∨ PrimFloat.leb systemMemoryMB 0%float = true
     ∨ PrimFloat.ltb MaximumSupportedMemoryMB systemMemoryMB = true)
  ∧
  (tiers ≠ [] →
   sortedAscending tiers = true →
   PrimFloat.ltb 0%float systemMemoryMB = true →
   PrimFloat.leb systemMemoryMB MaximumSupportedMemoryMB = true →
   let effectiveMemoryMB :=
     PrimFloat.mul systemMemoryMB MemoryEffectivenessFactor in
   ∃ t,
     selectBestMemoryTier systemMemoryMB tiers = Ok (t, effectiveMemoryMB)
     ∧ t ∈ tiers
     ∧ ((qualifies effectiveMemoryMB t = true
         ∧ ∀ u, u ∈ tiers → qualifies effectiveMemoryMB u = true →
                PrimFloat.leb (MemoryMB u) (MemoryMB t) = true)
        ∨ ((∀ u, u ∈ tiers → qualifies effectiveMemoryMB u = false)
           ∧ tiers !! 0%nat = Some t
           ∧ ∀ u, u ∈ tiers →
                  PrimFloat.leb (MemoryMB t) (MemoryMB u) = true))).
Proof.
  split.
  - unfold selectBestMemoryTier. destruct tiers as [|t0 rest].
    + simpl. split; auto.
    + destruct (PrimFloat.leb systemMemoryMB 0) eqn:H0; cbn [is_err].
      { split; auto. }
      destruct (PrimFloat.ltb MaximumSupportedMemoryMB systemMemoryMB) eqn:H1;
        cbn [is_err].
      { split; auto. }
      destruct (selectFrom _ _ _); cbn [is_err];
        (split; [discriminate | intros [?|[?|?]]; discriminate]).
  - intros Hne Hsorted Hpos Hmax eff.
    apply float_ltb_leb_flip in Hpos. apply float_leb_ltb_flip in Hmax.
    unfold selectBestMemoryTier. destruct tiers as [|t0 rest]; [done|].
    rewrite Hpos, Hmax. fold eff.
    destruct (selectFrom (t0 :: rest) eff (length (t0 :: rest))) as [t|] eqn:Hsel.
    + apply selectFrom_Some in Hsel as (i & Hi & Hl & Hq & Hrest).
      exists t. split; [done|]. split.
      { eapply list_elem_of_lookup_2. exact Hl. }
      left. split; [done|]. intros u Hu Hqu.
      apply list_elem_of_lookup_1 in Hu as [j Hj].
      destruct (decide (j ≤ i)%nat) as [Hle|Hgt].
      * eapply sortedAscending_lookup; eauto.
      * assert (j < length (t0 :: rest))%nat
          by (eapply lookup_lt_Some; exact Hj).
        rewrite (Hrest j u) in Hqu; [discriminate|lia|done].
    + exists t0. split; [done|]. split; [left|].
      right. split; [|split; [done|]].
      * intros u Hu. apply list_elem_of_lookup_1 in Hu as [j Hj].
        eapply selectFrom_None; eauto. eapply lookup_lt_Some; exact Hj.
      * intros u Hu. apply list_elem_of_lookup_1 in Hu as [j Hj].
        eapply (sortedAscending_lookup _ 0%nat j); eauto with lia.
Qed.

Lemma selectBestMemoryTier_spec_witness :
  ∃ t,
    selectBestMemoryTier 8192%float scenarioTiers
      = Ok (t, PrimFloat.mul 8192%float MemoryEffectivenessFactor)
    ∧ Filename t = "limits_4gb.conf".
Proof.
  destruct (proj2 (selectBestMemoryTier_spec 8192%float scenarioTiers))
    as (t & Ht & _); try (vm_compute; congruence).
  exists t. split; [exact Ht|].
  vm_compute in Ht. injection Ht as <-. reflexivity.
Defined.

Example scenario_A_16g :
  Filename <$> (match selectBestMemoryTier 16384%float scenarioTiers with
                | Ok (t, _) => Some t | Err _ => None end)
  = Some "limits_12gb.conf".
Proof. vm_compute. reflexivity. Qed.

Example scenario_A_512m :
  Filename <$> (match selectBestMemoryTier 512%float scenarioTiers with
                | Ok (t, _) => Some t | Err _ => None end)
  = Some "limits_1gb.conf".
Proof. vm_compute. reflexivity. Qed.

End TierSelection.

(** ** Signatures *)

Section Signatures.
Import GoStrings Traffic Spec.

Lemma SortStrings_sorted l : Sorted String.le (SortStrings l).
Proof. apply Sorted_merge_sort. apply _. Qed.

Lemma SortStrings_perm l : SortStrings l ≡ₚ l.
Proof. apply merge_sort_Permutation. Qed.

Lemma SortStrings_Permutation l1 l2 :
  l1 ≡ₚ l2 → SortStrings l1 = SortStrings l2.
Proof.
  intros Hp. apply (Sorted_unique String.le); try apply SortStrings_sorted.
  by rewrite !SortStrings_perm.
Qed.

Lemma makeSignature_unfold mtu qlen profile :
  makeSignature mtu qlen profile =
  "mtu=" +:+ mtu +:+ ";qlen=" +:+ qlen
  +:+ ";root=" +:+ Join (rootQdisc profile) ","
  +:+ ";ifb=" +:+ Join (ifbQdisc profile) ","
  +:+ ";off=" +:+ Join (SortStrings (offloadPair <$> offloads profile)) ",".
Proof.
  unfold makeSignature. destruct (offloads profile); reflexivity.
Qed.

(** C2.  makeSignature returns exactly
    mtu=<mtu>;qlen=<qlen>;root=<root tokens joined by commas>;ifb=<ifb
    tokens joined by commas>;off=<offload pairs in ascending byte order,
    joined by commas>; it depends on nothing but its three arguments, any
    permutation of the offload list yields the same signature, and the
    profile of scenario D gives the signature the specification lists. *)
Theorem makeSignature_spec (mtu qlen : string) (profile : shapingProfile) :
  (∃ pairs,
     pairs ≡ₚ offloadPair <$> offloads profile
     ∧ Sorted String.le pairs
     ∧ makeSignature mtu qlen profile =
       "mtu=" +:+ mtu +:+ ";qlen=" +:+ qlen
       +:+ ";root=" +:+ Join (rootQdisc profile) ","
       +:+ ";ifb=" +:+ Join (ifbQdisc profile) ","
       +:+ ";off=" +:+ Join pairs ",")
  ∧ (∀ offs, offs ≡ₚ offloads profile →
       makeSignature mtu qlen (withOffloads profile offs)
       = makeSignature mtu qlen profile)
  ∧ makeSignature "1500" "10001" scenarioD =
    "mtu=1500;qlen=10001;root=cake,unlimited,besteffort;ifb=cake,unlimited,diffserv4;off=gro=off,rx=on,tx=on".
Proof.
  split; [|split].
  - exists (SortStrings (offloadPair <$> offloads profile)).
    split; [apply SortStrings_perm|].
    split; [apply SortStrings_sorted|]. apply makeSignature_unfold.
  - intros offs Hp. rewrite !makeSignature_unfold. simpl.
    rewrite (SortStrings_Permutation (offloadPair <$> offs)
               (offloadPair <$> offloads profile)); [done|].
    by rewrite Hp.
  - vm_compute. reflexivity.
Qed.

Lemma makeSignature_spec_witness :
  makeSignature "1500" "10001"
    (withOffloads scenarioD
       [mkOffload "gro" "off"; mkOffload "tx" "on"; mkOffload "rx" "on"])
  = makeSignature "1500" "10001" scenarioD.
Proof.
  apply (proj1 (proj2 (makeSignature_spec "1500" "10001" scenarioD))).
  simpl. etrans; [apply Permutation_swap|].
  etrans; [apply perm_skip, Permutation_swap|]. apply Permutation_swap.
Defined.

End Signatures.

(** ** Alias spellings of offload features *)

Section Aliases.
Import GoStrings Traffic Spec.

Lemma is_space_toLowerByte c : Ascii.is_space (toLowerByte c) = Ascii.is_space c.
Proof. by destruct c as [[] [] [] [] [] [] [] []]. Qed.

Lemma toLowerByte_idemp c : toLowerByte (toLowerByte c) = toLowerByte c.
Proof. by destruct c as [[] [] [] [] [] [] [] []]. Qed.

Lemma ToLower_idemp s : ToLower (ToLower s) = ToLower s.
Proof. induction s as [|c s IH]; simpl; [done|]. by rewrite toLowerByte_idemp, IH. Qed.

Lemma ToLower_eqb_empty s : String.eqb (ToLower s) "" = String.eqb s "".
Proof. by destruct s. Qed.

Lemma ToLower_trimLeft s : ToLower (trimLeft s) = trimLeft (ToLower s).
Proof.
  induction s as [|c s IH]; simpl; [done|].
  rewrite is_space_toLowerByte. by destruct (Ascii.is_space c).
Qed.

Lemma ToLower_trimRight s : ToLower (trimRight s) = trimRight (ToLower s).
Proof.
  induction s as [|c s IH]; simpl; [done|].
  rewrite is_space_toLowerByte, <- IH, ToLower_eqb_empty.
  by destruct (Ascii.is_space c && String.eqb (trimRight s) "").
Qed.

Lemma ToLower_TrimSpace s : ToLower (TrimSpace s) = TrimSpace (ToLower s).
Proof. unfold TrimSpace. by rewrite ToLower_trimRight, ToLower_trimLeft. Qed.

Lemma inSet_elem key keys : inSet key keys = true → key ∈ keys.
Proof.
  unfold inSet. intros H. apply existsb_exists in H as (k & Hin & Heq).
  apply String.eqb_eq in Heq as ->. by apply list_elem_of_In.
Qed.

Lemma normalizeSetFeatureName_lower name :
  normalizeSetFeatureName name = normalizeSetFeatureName (ToLower name).
Proof.
  unfold normalizeSetFeatureName.
  by rewrite !ToLower_TrimSpace, ToLower_idemp.
Qed.

Lemma normalizeSetFeatureName_rx name :
  inSet (ToLower name) rxSpellings = true → normalizeSetFeatureName name = "rx".
Proof.
  intros H%inSet_elem. rewrite normalizeSetFeatureName_lower.
  unfold rxSpellings in H. set_unfold.
  destruct H as [->|[->|[->|[]]]]; reflexivity.
Qed.

Lemma normalizeSetFeatureName_tx name :
  inSet (ToLower name) txSpellings = true → normalizeSetFeatureName name = "tx".
Proof.
  intros H%inSet_elem. rewrite normalizeSetFeatureName_lower.
  unfold txSpellings in H. set_unfold.
  destruct H as [->|[->|[->|[]]]]; reflexivity.
Qed.

Lemma sameFeature_normalize a b :
  sameFeature a b → normalizeSetFeatureName a = normalizeSetFeatureName b.
Proof.
  intros [a' b' H|a' b' Ha Hb|a' b' Ha Hb].
  - rewrite (normalizeSetFeatureName_lower a'),
            (normalizeSetFeatureName_lower b'). by rewrite H.
  - by rewrite !normalizeSetFeatureName_rx.
  - by rewrite !normalizeSetFeatureName_tx.
Qed.

Lemma sameOffload_pair o1 o2 : sameOffload o1 o2 → offloadPair o1 = offloadPair o2.
Proof.
  intros [Hf Hs]. unfold offloadPair.
  by rewrite (sameFeature_normalize _ _ Hf), Hs.
Qed.

Lemma normalizeSetFeatureName_is_lower name :
  ToLower (normalizeSetFeatureName name) = normalizeSetFeatureName name.
Proof.
  unfold normalizeSetFeatureName.
  repeat match goal with |- context [if ?c then _ else _] => destruct c end;
    try reflexivity.
  apply ToLower_idemp.
Qed.

(** C9.  makeSignature writes each offload as
    normalizeSetFeatureName(feature) = lowercased state: its text ends, after
    off=, in these pairs in ascending order, joined by commas.  rx-checksum
    and rx_checksum become rx, tx-checksum and tx_checksum become tx, any
    other name becomes its trimmed lower-case form, and every pair comes out
    in lower case.  Two profiles with the same qdisc tokens whose offload
    lists differ, entry by entry, only in these spellings or in letter case
    have the same signature; in each built-in profile the rx and rx-checksum
    entries (and tx and tx-checksum) are the same pair, which the sorted
    list, and with it the signature of the profile, holds twice. *)
Theorem makeSignature_alias_collapse (mtu qlen : string) (p1 p2 : shapingProfile) :
  (normalizeSetFeatureName "rx-checksum" = "rx"
   ∧ normalizeSetFeatureName "rx_checksum" = "rx"
   ∧ normalizeSetFeatureName "tx-checksum" = "tx"
   ∧ normalizeSetFeatureName "tx_checksum" = "tx")
  ∧ (∀ o, ToLower (offloadPair o) = offloadPair o)
  ∧ (rootQdisc p1 = rootQdisc p2 →
     ifbQdisc p1 = ifbQdisc p2 →
     Forall2 sameOffload (offloads p1) (offloads p2) →
     makeSignature mtu qlen p1 = makeSignature mtu qlen p2)
  ∧ (∀ durationString cfg p,
       p ∈ builtinProfiles (newProfileSet durationString cfg) →
       ∃ gro,
         mkOffload "rx" "on" ∈ offloads p
         ∧ mkOffload "rx-checksum" "on" ∈ offloads p
         ∧ mkOffload "tx" "on" ∈ offloads p
         ∧ mkOffload "tx-checksum" "on" ∈ offloads p
         ∧ offloadPair (mkOffload "rx" "on")
           = offloadPair (mkOffload "rx-checksum" "on")
         ∧ offloadPair (mkOffload "tx" "on")
           = offloadPair (mkOffload "tx-checksum" "on")
         ∧ SortStrings (offloadPair <$> offloads p) = builtinPairs gro)
  ∧ makeSignature mtu qlen p1 =
    "mtu=" +:+ mtu +:+ ";qlen=" +:+ qlen
    +:+ ";root=" +:+ Join (rootQdisc p1) ","
    +:+ ";ifb=" +:+ Join (ifbQdisc p1) ","
    +:+ ";off="
    +:+ Join (SortStrings
                ((λ o, normalizeSetFeatureName (feature o) +:+ "="
                       +:+ ToLower (state o)) <$> offloads p1)) ","
  ∧ (∀ name,
       let key := ToLower (TrimSpace name) in
       (inSet key rxSpellings = true → normalizeSetFeatureName name = "rx")
       ∧ (inSet key txSpellings = true → normalizeSetFeatureName name = "tx")
       ∧ (inSet key rxSpellings = false → inSet key txSpellings = false →
          normalizeSetFeatureName name = key))
  ∧ (∀ durationString cfg p,
       p ∈ builtinProfiles (newProfileSet durationString cfg) →
       ∃ gro,
         makeSignature mtu qlen p =
         "mtu=" +:+ mtu +:+ ";qlen=" +:+ qlen
         +:+ ";root=" +:+ Join (rootQdisc p) ","
         +:+ ";ifb=" +:+ Join (ifbQdisc p) ","
         +:+ ";off=" +:+ Join (builtinPairs gro) ",").
Proof.
  split; [by vm_compute|]. split; [|split; [|split; [|split; [|split]]]].
  - intros o. unfold offloadPair.
    assert (Happ : ∀ a b, ToLower (a +:+ b) = ToLower a +:+ ToLower b).
    { intros a b. induction a as [|c a IH]; simpl; [done|]. by rewrite IH. }
    by rewrite !Happ, normalizeSetFeatureName_is_lower, ToLower_idemp.
  - intros Hr Hi Hoff. rewrite !makeSignature_unfold, Hr, Hi.
    replace (offloadPair <$> offloads p1) with (offloadPair <$> offloads p2);
      [done|].
    induction Hoff as [|o1 o2 l1 l2 Ho _ IH]; simpl; [done|].
    f_equal; [symmetry; by apply sameOffload_pair|exact IH].
  - intros durationString cfg p Hp. unfold builtinProfiles in Hp.
    set_unfold.
    destruct Hp as [->|[->|[->|[->|[]]]]]; simpl;
      [exists "off"|exists "off"|exists "on"|exists "off"];
      repeat split; try (by vm_compute);
      unfold offloadsWithGro, offloadPrefix, offloadSuffix; set_solver.
  - apply makeSignature_unfold.
  - intros name key. subst key. unfold normalizeSetFeatureName, inSet.
    cbn [existsb rxSpellings txSpellings].
    set (key := ToLower (TrimSpace name)).
    destruct (String.eqb_spec key "rx-checksum") as [->|H1]; [by vm_compute|].
    destruct (String.eqb_spec key "rx_checksum") as [->|H2]; [by vm_compute|].
    destruct (String.eqb_spec key "tx-checksum") as [->|H3]; [by vm_compute|].
    destruct (String.eqb_spec key "tx_checksum") as [->|H4]; [by vm_compute|].
    cbn [orb]. rewrite !orb_false_r.
    destruct (String.eqb_spec key "rx") as [->|H5]; [done|].
    destruct (String.eqb_spec key "tx") as [->|H6]; done.
  - intros durationString cfg p Hp. unfold builtinProfiles in Hp.
    set_unfold.
    destruct Hp as [->|[->|[->|[->|[]]]]];
      [exists "off"|exists "off"|exists "on"|exists "off"];
      rewrite makeSignature_unfold; do 8 f_equal; by vm_compute.
Qed.

Lemma makeSignature_alias_collapse_witness :
  makeSignature "1500" "10001"
    (withOffloads scenarioD
       [mkOffload "RX-Checksum" "ON"; mkOffload "tx_checksum" "On";
        mkOffload "GRO" "off"])
  = makeSignature "1500" "10001" scenarioD.
Proof.
  apply (proj1 (proj2 (proj2 (makeSignature_alias_collapse "1500" "10001"
           (withOffloads scenarioD
              [mkOffload "RX-Checksum" "ON"; mkOffload "tx_checksum" "On";
               mkOffload "GRO" "off"])
           scenarioD)))); [reflexivity|reflexivity|].
  repeat constructor; simpl;
    first [ by apply sameFeature_rx | by apply sameFeature_tx
          | by apply sameFeature_case ].
Defined.

End Aliases.

(** ** The route optimizer *)

Section RouteOptimizer.
Import GoStrings Errors World Route.

(** Rewriting a monadic computation one call at a time. *)
Lemma bind_run {A B} (m : M A) (k : A → M B) env t :
  bind m k env t = k (m env t).1 env (m env t).2.
Proof. unfold bind. by destruct (m env t). Qed.

Lemma wrapInt_id (z : Z) : - 2 ^ 63 ≤ z < 2 ^ 63 → wrapInt z = z.
Proof.
  intros Hz. unfold wrapInt. rewrite Z.mod_small by lia. lia.
Qed.

(** C6.  The loopback window is not converted with the loopback MSS.  At
    the window configuration main builds for init windows of 146000 bytes
    and a loopback window of 16 MiB, the optimizer holds 11492 loopback
    segments, the quotient by the standard MSS 1460 that the init windows
    are divided by as well (100 segments each), and changes every loopback
    route of the local table to mtu 65520 initcwnd 11492 initrwnd 11492;
    the loopback MSS 65520 of internal/config gives
    bytesToSegments(16 MiB, 65520) = 257, which is not the count applied. *)
Theorem loopback_segments_default :
  loopbackCwndSegments Spec.mainOptimizer = 11492
  ∧ loopbackRwndSegments Spec.mainOptimizer = 11492
  ∧ initCwndSegments Spec.mainOptimizer = 100
  ∧ initRwndSegments Spec.mainOptimizer = 100
  ∧ MSSBytes (cfg Spec.mainOptimizer) = Config.defaultStandardMSS
  ∧ jobParams (loopbackJob Spec.mainOptimizer)
    = newParams 65520 11492 11492 "cubic"
  ∧ optimizeLoopback Spec.mainOptimizer Spec.localTableEnv []
    = (None,
       [ CallRun "ip" ["route"; "show"; "table"; "local"];
         CallRun "ip" ["route"; "change"; "local"; "127.0.0.0/8"; "dev"; "lo";
                       "proto"; "kernel"; "scope"; "host"; "src"; "127.0.0.1";
                       "mtu"; "65520"; "initcwnd"; "11492";
                       "initrwnd"; "11492"; "fastopen_no_cookie"; "1";
                       "congctl"; "lock"; "cubic"];
         CallRun "ip" ["route"; "change"; "local"; "127.0.0.1"; "dev"; "lo";
                       "proto"; "kernel"; "scope"; "host"; "src"; "127.0.0.1";
                       "mtu"; "65520"; "initcwnd"; "11492";
                       "initrwnd"; "11492"; "fastopen_no_cookie"; "1";
                       "congctl"; "lock"; "cubic"] ])
  ∧ bytesToSegments (16 * 1024 * 1024) Config.defaultLoopbackMSS = 257
  ∧ loopbackCwndSegments Spec.mainOptimizer
    ≠ bytesToSegments (16 * 1024 * 1024) Config.defaultLoopbackMSS.
Proof. repeat split; by vm_compute. Qed.

Lemma optimize_recoverable job env t e :
  (optimize job env t).1 = Some e → isRecoverable e = true.
Proof.
  unfold optimize. rewrite bind_run.
  destruct (fetchRoutes (routeArgs job) env t).1 as [lines|err].
  - rewrite bind_run.
    destruct (applyRoutes _ _ env _).1.2 as [applyErr|]; simpl.
    + by intros [= <-].
    + discriminate.
  - simpl. by intros [= <-].
Qed.

Lemma optimizeNIC_recoverable opt env t e :
  (optimizeNIC opt env t).1 = Some e → isRecoverable e = true.
Proof.
  unfold optimizeNIC. rewrite bind_run.
  destruct (getPrimaryNIC opt env t).1 as [nic|err].
  - destruct (String.eqb nic "").
    + simpl. by intros [= <-].
    + rewrite bind_run. apply optimize_recoverable.
  - simpl. by intros [= <-].
Qed.

Lemma Optimize_unfold opt env t :
  Optimize opt env t =
  let r1 := optimizeLoopback opt env t in
  let r2 := optimizeLocal opt env r1.2 in
  let r3 := optimizeNIC opt env r2.2 in
  (ErrorOrNil
     (Add (Add (Add [] (prefixed "loopback" r1.1)) (prefixed "local" r2.1))
          (prefixed "nic" r3.1)),
   r3.2).
Proof. unfold Optimize. by rewrite !bind_run. Qed.

Lemma aggregate_spec (a b c : string) (o1 o2 o3 : option GoError) :
  let r :=
    ErrorOrNil (Add (Add (Add [] (prefixed a o1)) (prefixed b o2))
                    (prefixed c o3)) in
  (r = None ↔ o1 = None ∧ o2 = None ∧ o3 = None)
  ∧ (∀ e, r = Some e →
          e = Multi (omap id [prefixed a o1; prefixed b o2; prefixed c o3])).
Proof.
  destruct o1, o2, o3; simpl; split;
    first [ split; [discriminate | intros (? & ? & ?); congruence]
          | by intros e [= <-]
          | done
          | discriminate ].
Qed.

(** C8.  Optimize runs the loopback, local and nic categories in turn; it
    returns a non-nil error exactly when at least one of them fails; a
    category's failure is a Recoverable error; the error returned is the
    MultiError of the failures, each prefixed with its category; and Apply
    goes on to applyInterfaces with the nil selector whatever Optimize
    returned. *)
Theorem Optimize_error_propagation (opt : Optimizer) (env : Env) (t : Trace) :
  let r1 := optimizeLoopback opt env t in
  let r2 := optimizeLocal opt env r1.2 in
  let r3 := optimizeNIC opt env r2.2 in
  ((Optimize opt env t).1 = None ↔ r1.1 = None ∧ r2.1 = None ∧ r3.1 = None)
  ∧ (∀ e, r1.1 = Some e ∨ r2.1 = Some e ∨ r3.1 = Some e →
          isRecoverable e = true)
  ∧ (∀ e, (Optimize opt env t).1 = Some e →
          e = Multi (omap id [ prefixed "loopback" r1.1;
                               prefixed "local" r2.1;
                               prefixed "nic" r3.1 ]))
  ∧ (Optimize opt env t).2 = r3.2
  ∧ (∀ applyInterfaces s,
       Traffic.Apply applyInterfaces s env t
       = applyInterfaces s None env
           (Optimize (Traffic.routeOptimizer s) env t).2).
Proof.
  intros r1 r2 r3. rewrite Optimize_unfold. cbv zeta.
  destruct (aggregate_spec "loopback" "local" "nic" r1.1 r2.1 r3.1)
    as [Hnil Hmulti].
  split; [exact Hnil|]. split; [|split; [exact Hmulti|split]].
  - intros e [H|[H|H]].
    + eapply optimize_recoverable. exact H.
    + eapply optimize_recoverable. exact H.
    + eapply optimizeNIC_recoverable. exact H.
  - reflexivity.
  - intros applyInterfaces s. unfold Traffic.Apply. by rewrite bind_run.
Qed.

(** When every command fails, the three categories fail, Optimize returns
    the three errors, and the apply pass still follows. *)
Lemma Optimize_error_propagation_witness :
  let opt := NewOptimizer (Config.mainWindowConfig 146000 146000 10485760) true in
  (∃ e1 e2 e3, (Optimize opt Spec.failingEnv []).1 = Some (Multi [e1; e2; e3]))
  ∧ ∀ applyInterfaces s,
      ∃ t, Traffic.Apply applyInterfaces s Spec.failingEnv []
           = applyInterfaces s None Spec.failingEnv t.
Proof.
  split.
  - vm_compute. eauto.
  - intros applyInterfaces s. eexists.
    apply (Optimize_error_propagation (Traffic.routeOptimizer s)).
Defined.

End RouteOptimizer.

(** ** Pending changes of the netlink watcher *)

Section Pending.
Import GoStrings Errors World Traffic Spec.

Lemma pendingInv_new : pendingInv newPendingChanges.
Proof. discriminate. Qed.

Lemma pendingInv_AddLink p u : pendingInv p → pendingInv (AddLink p u).
Proof.
  unfold pendingInv, AddLink. intros Hp.
  destruct (all p) eqn:Hall; [intros _; by apply Hp|].
  destruct (namedAttrs _); simpl; [by rewrite Hall|done].
Qed.

Lemma pendingInv_AddAddr p u env t :
  pendingInv p → pendingInv (AddAddr p u env t).1.
Proof.
  unfold pendingInv, AddAddr. intros Hp.
  destruct (all p) eqn:Hall; [intros _; by apply Hp|]. rewrite bind_run.
  destruct (safeGetLinkAttrs _ env t).1 as [attrs|err]; simpl; [|done].
  destruct (String.eqb (Name attrs) ""); simpl; [done|by rewrite Hall].
Qed.

Lemma handleEvents_all p evs env t :
  all p = true → handleEvents p evs env t = (p, t).
Proof.
  intros Hall. induction evs as [|ev evs IH]; simpl; [done|].
  rewrite bind_run.
  assert (handleEvent p ev env t = (p, t)) as ->; [|exact IH].
  destruct ev; simpl; unfold AddLink, AddAddr; by rewrite Hall.
Qed.

End Pending.

(** C7.  A link update with no name to resolve, or an address update whose
    link index resolves to no named link, leaves apply-all set and the name
    set empty; with apply-all set, AddLink and AddAddr (and any sequence of
    events) leave the state as it is, without asking netlink; and a reapply
    tick that finds apply-all set clears the pending changes and calls
    applyInterfaces with the nil selector. *)
Theorem pending_escalation
    (applyInterfaces :
       Traffic.Shaper → option (gset string) →
       World.M (Traffic.Shaper * option Errors.GoError))
    (p : Traffic.pendingChanges) (env : World.Env) (t : World.Trace) :
  Spec.pendingInv p →
  (∀ u, Traffic.namedAttrs (World.Attrs (Traffic.updLink u)) = None →
        Traffic.AddLink p u = Traffic.mkPending true ∅)
  ∧ (∀ u,
       (∀ attrs,
          (World.safeGetLinkAttrs (Traffic.updLinkIndex u) env t).1 = Ok attrs →
          World.Name attrs = "") →
       (Traffic.AddAddr p u env t).1 = Traffic.mkPending true ∅)
  ∧ (Traffic.all p = true →
     (∀ u, Traffic.AddLink p u = p)
     ∧ (∀ u, Traffic.AddAddr p u env t = (p, t))
     ∧ (∀ evs, Traffic.handleEvents p evs env t = (p, t))
     ∧ (∀ s,
          Traffic.applyPending applyInterfaces s p env t
          = let r := applyInterfaces s None env t in
            ((r.1.1, Traffic.mkPending false ∅, r.1.2), r.2))).
Proof.
  intros Hinv. unfold Spec.pendingInv in Hinv. split; [|split].
  - intros u Hu. unfold Traffic.AddLink. rewrite Hu.
    destruct p as [[] ns]; simpl in *; [|done].
    by rewrite (Hinv eq_refl).
  - intros u Hu. unfold Traffic.AddAddr.
    destruct p as [[] ns]; simpl in *.
    { by rewrite (Hinv eq_refl). }
    rewrite bind_run.
    destruct (World.safeGetLinkAttrs _ env t).1 as [attrs|err] eqn:E; [|done].
    by rewrite (Hu attrs eq_refl).
  - intros Hall. repeat split.
    + intros u. unfold Traffic.AddLink. by rewrite Hall.
    + intros u. unfold Traffic.AddAddr. by rewrite Hall.
    + intros evs. by apply handleEvents_all.
    + intros s. unfold Traffic.applyPending, Traffic.snapshot. rewrite Hall.
      simpl. by rewrite bind_run.
Qed.

(** Scenario F: events for eth0, eth0 and eth1, then an address event
    whose index does not resolve; the next tick applies all interfaces. *)
Lemma pending_escalation_witness :
  let events :=
    [ Traffic.LinkEvent (Traffic.mkLinkUpdate (Spec.namedLink "eth0"));
      Traffic.LinkEvent (Traffic.mkLinkUpdate (Spec.namedLink "eth0"));
      Traffic.LinkEvent (Traffic.mkLinkUpdate (Spec.namedLink "eth1")) ] in
  let p := (Traffic.handleEvents Traffic.newPendingChanges events
              Spec.failingEnv []).1 in
  Traffic.names p = {["eth0"; "eth1"]}
  ∧ (Traffic.AddAddr p (Traffic.mkAddrUpdate 7) Spec.failingEnv []).1
    = Traffic.mkPending true ∅
  ∧ Traffic.applyPending Spec.idleApply Spec.initialShaper
      (Traffic.mkPending true ∅) Spec.failingEnv []
    = ((Spec.initialShaper, Traffic.mkPending false ∅, None), []).
Proof.
  split; [|split].
  - apply set_eq. intros x. vm_compute. set_solver.
  - apply (pending_escalation Spec.idleApply _ Spec.failingEnv []).
    + discriminate.
    + intros attrs. discriminate.
  - apply (pending_escalation Spec.idleApply (Traffic.mkPending true ∅)
             Spec.failingEnv []); first [reflexivity | by intros _].
Defined.

(** ** Interface classification *)

Section Classification.
Import GoStrings Errors World Traffic Spec.

Lemma detectVirtualHardware_spec fs name :
  detectVirtualHardware fs name = specIsVirtual fs name.
Proof.
  unfold detectVirtualHardware, specIsVirtual, virtualByName,
    virtualBySysfsPath, virtualByDriver, virtualByVendor.
  repeat match goal with
         | |- context [if ?c then _ else _] => destruct c eqn:?
         end; simpl; reflexivity.
Qed.

Lemma classifierInv_new fs : classifierInv fs NewInterfaceClassifier.
Proof. split; simpl; [set_solver|]. intros name b. by rewrite lookup_empty. Qed.

Lemma isVirtualInterface_inv fs ic name :
  classifierInv fs ic → name ≠ "" →
  (isVirtualInterface fs ic name).1 = detectVirtualHardware fs name
  ∧ classifierInv fs (isVirtualInterface fs ic name).2
  ∧ externalLinkIndexes (isVirtualInterface fs ic name).2
    = externalLinkIndexes ic.
Proof.
  intros [Hpos Hcache] Hname. unfold isVirtualInterface.
  destruct (String.eqb name "") eqn:E; [by apply String.eqb_eq in E|].
  destruct (virtualCache ic !! name) as [cached|] eqn:Hc; simpl.
  - split; [by apply Hcache|]. by split.
  - split; [done|]. split; [|done]. split; simpl; [done|].
    intros n b. destruct (decide (name = n)) as [->|Hne].
    + rewrite lookup_insert_eq. by intros [= <-].
    + rewrite lookup_insert_ne by done. apply Hcache.
Qed.

Lemma isExternalInterface_spec ic index name :
  (∀ i, i ∈ externalLinkIndexes ic → 0 < i) →
  isExternalInterface ic index name
  = specIsExternal (externalLinkIndexes ic) index name.
Proof.
  intros Hpos. unfold isExternalInterface, specIsExternal.
  destruct (hasExternalVirtualPrefix name); [done|]. simpl.
  destruct (index <=? 0) eqn:E; [|done].
  symmetry. apply bool_decide_eq_false. intros Hin%Hpos. lia.
Qed.

(** Classify keeps the classifier's state consistent and, for a named
    link, answers as the decision procedure does. *)
Lemma Classify_inv fs ic attrs :
  classifierInv fs ic →
  classifierInv fs (Classify fs ic attrs).2
  ∧ externalLinkIndexes (Classify fs ic attrs).2 = externalLinkIndexes ic
  ∧ (∀ a, attrs = Some a → Name a ≠ "" →
          (Classify fs ic attrs).1
          = specClassify fs (externalLinkIndexes ic) a).
Proof.
  intros Hinv. destruct attrs as [a|];
    [|simpl; split; [done|split; [done|intros ? [=]]]].
  unfold Classify.
  destruct (hasFlag (Flags a) FlagLoopback) eqn:Hl.
  { simpl. split; [done|]. split; [done|]. intros a' [= <-] _.
    unfold specClassify. by rewrite Hl. }
  destruct (String.eqb (Name a) "") eqn:Hn.
  { simpl. split; [done|]. split; [done|]. intros a' [= <-] Hne.
    by apply String.eqb_eq in Hn. }
  destruct (hasInternalVirtualPrefix (Name a)) eqn:Hp.
  { simpl. split; [done|]. split; [done|]. intros a' [= <-] _.
    unfold specClassify. by rewrite Hl, Hp. }
  assert (Name a ≠ "") as Hne by (intros H; by rewrite H in Hn).
  destruct (isVirtualInterface_inv fs ic (Name a) Hinv Hne)
    as (Hv & Hinv' & Hext).
  destruct (isVirtualInterface fs ic (Name a)) as [isVirtual ic'] eqn:E.
  simpl in Hv, Hinv', Hext.
  rewrite (isExternalInterface_spec ic') by apply Hinv'.
  rewrite Hext, Hv, detectVirtualHardware_spec.
  assert (∀ c : ifaceClass,
            c = specClassify fs (externalLinkIndexes ic) a →
            classifierInv fs (c, ic').2
            ∧ externalLinkIndexes (c, ic').2 = externalLinkIndexes ic
            ∧ (∀ a', Some a = Some a' → Name a' ≠ "" →
                     (c, ic').1 = specClassify fs (externalLinkIndexes ic) a'))
    as Hfinish.
  { intros c ->. split; [done|]. split; [done|]. by intros a' [= <-] _. }
  unfold specClassify in Hfinish. rewrite Hl, Hp in Hfinish.
  destruct (specIsExternal _ _ _), (specIsVirtual fs (Name a));
    by apply Hfinish.
Qed.

Lemma defaultRouteIndexes_pos routes acc :
  (∀ i, i ∈ acc → 0 < i) → ∀ i, i ∈ defaultRouteIndexes routes acc → 0 < i.
Proof.
  unfold defaultRouteIndexes. revert acc.
  induction routes as [|r routes IH]; intros acc Hacc; simpl; [done|].
  apply IH. destruct (negb (isDefaultRoute r) || (LinkIndex r <=? 0)) eqn:E;
    [done|].
  apply orb_false_elim in E as [_ E]. intros i. set_unfold. intros [->|Hi].
  - lia.
  - by apply Hacc.
Qed.

(** The refresh keeps the classifier's state consistent. *)
Lemma classifierInv_refresh fs now ic env t :
  classifierInv fs ic →
  classifierInv fs (RefreshExternalInterfaces now ic env t).1.
Proof.
  intros [Hpos Hcache]. unfold RefreshExternalInterfaces.
  destruct (_ && _); [done|]. rewrite !bind_run. simpl. split; [|done].
  simpl. unfold fetchDefaultRoutes. rewrite !bind_run.
  assert (H4 : ∀ i, i ∈ (match (RouteList FAMILY_V4 env t).1 with
                          | Ok routes => ret (defaultRouteIndexes routes ∅)
                          | Err _ => ret ∅
                          end env (RouteList FAMILY_V4 env t).2).1 → 0 < i).
  { destruct (RouteList FAMILY_V4 env t).1; simpl; [|set_solver].
    apply defaultRouteIndexes_pos. set_solver. }
  destruct (RouteList FAMILY_V6 env _).1; simpl; [|done].
  by apply defaultRouteIndexes_pos.
Qed.

(** C5 (as the code has it).  Classify returns Loopback when the loopback
    flag is set; otherwise Unknown for a link with an empty name; otherwise,
    for a classifier whose caches come from the same sysfs and default
    routes, it follows the decision procedure: InternalVirtualSkip for a
    skip prefix, then ExternalVirtual, ExternalPhysical or InternalVirtual
    by isExternal and isVirtual, ExternalPhysical when neither holds.  wg0
    without a default route is ExternalVirtual, and ens3 on the virtio_net
    driver module without a default route is InternalVirtual. *)
Theorem Classify_decision (fs : Sysfs) (ic : InterfaceClassifier)
    (attrs : LinkAttrs) :
  classifierInv fs ic →
  (hasFlag (Flags attrs) FlagLoopback = true →
   (Classify fs ic (Some attrs)).1 = classLoopback)
  ∧ (hasFlag (Flags attrs) FlagLoopback = false → Name attrs = "" →
     (Classify fs ic (Some attrs)).1 = classUnknown)
  ∧ (Name attrs ≠ "" →
     (Classify fs ic (Some attrs)).1
     = specClassify fs (externalLinkIndexes ic) attrs)
  ∧ (Name attrs = "wg0" → hasFlag (Flags attrs) FlagLoopback = false →
     (Classify fs ic (Some attrs)).1 = classExternalVirtual)
  ∧ (Name attrs = "ens3" → hasFlag (Flags attrs) FlagLoopback = false →
     Index attrs ∉ externalLinkIndexes ic →
     (∃ target,
        Readlink fs "/sys/class/net/ens3/device/driver/module" = Some target
        ∧ Base target = "virtio_net") →
     (Classify fs ic (Some attrs)).1 = classInternalVirtual).
Proof.
  intros Hinv.
  destruct (Classify_inv fs ic (Some attrs) Hinv) as (_ & _ & Hspec).
  split; [|split; [|split; [|split]]].
  - intros Hl. unfold Classify. by rewrite Hl.
  - intros Hl Hn. unfold Classify. by rewrite Hl, Hn.
  - intros Hn. by apply Hspec.
  - intros Hn Hl. rewrite (Hspec attrs eq_refl) by (by rewrite Hn).
    unfold specClassify, specIsExternal, specIsVirtual. rewrite Hl, Hn.
    reflexivity.
  - intros Hn Hl Hidx (target & Hlink & Hbase).
    rewrite (Hspec attrs eq_refl) by (by rewrite Hn).
    unfold specClassify, specIsExternal, specIsVirtual. rewrite Hl, Hn.
    rewrite (bool_decide_eq_false_2 _ Hidx).
    assert (virtualByDriver fs "ens3" = true) as ->.
    { unfold virtualByDriver, interfaceDriverModule, readLinkBase.
      change (pathJoin (pathJoin "/sys/class/net" "ens3")
                       "device/driver/module")
        with "/sys/class/net/ens3/device/driver/module".
      rewrite Hlink, Hbase. reflexivity. }
    change (hasInternalVirtualPrefix "ens3") with false.
    change (hasExternalVirtualPrefix "ens3") with false.
    change (virtualByName "ens3") with false. simpl.
    by rewrite orb_true_r.
Qed.

Lemma Classify_decision_witness :
  (Classify virtioSysfs NewInterfaceClassifier
     (Some (mkAttrs 2 1500 1000 "ens3" FlagUp))).1 = classInternalVirtual
  ∧ (Classify bareSysfs NewInterfaceClassifier
       (Some (mkAttrs 5 1420 1000 "wg0" FlagUp))).1 = classExternalVirtual.
Proof.
  split.
  - apply (Classify_decision virtioSysfs NewInterfaceClassifier
             (mkAttrs 2 1500 1000 "ens3" FlagUp));
      [apply classifierInv_new|reflexivity|reflexivity|set_solver|].
    exists "../../../../module/virtio_net". split; reflexivity.
  - apply (Classify_decision bareSysfs NewInterfaceClassifier
             (mkAttrs 5 1420 1000 "wg0" FlagUp));
      [apply classifierInv_new|reflexivity|reflexivity].
Defined.

(** The claim as the specification states it, for every link, fails on a
    link without a name: the decision procedure ends in ExternalPhysical,
    Classify answers Unknown. *)
Lemma Classify_counterexample :
  (Classify bareSysfs NewInterfaceClassifier
     (Some (mkAttrs 2 1500 1000 "" FlagUp))).1 = classUnknown
  ∧ specClassify bareSysfs ∅ (mkAttrs 2 1500 1000 "" FlagUp)
    = classExternalPhysical.
Proof. split; reflexivity. Qed.

End Classification.

(** ** IFB names *)

Section IfbNames.
Import GoStrings Errors World Traffic Spec.

Lemma takeBytes_length n s :
  (n ≤ String.length s)%nat → String.length (takeBytes n s) = n.
Proof.
  revert s. induction n as [|n IH]; intros s H.
  - by destruct s.
  - destruct s as [|c s]; simpl in *; [lia|]. rewrite IH; lia.
Qed.

Lemma takeBytes_all s : takeBytes (String.length s) s = s.
Proof. induction s as [|c s IH]; simpl; [done|]. by rewrite IH. Qed.

Lemma truncateIfb_prefix name :
  (11 ≤ String.length name)%nat →
  truncateIfb (IfbPrefix +:+ name) = IfbPrefix +:+ takeBytes 11 name.
Proof.
  intros Hlen. unfold truncateIfb, IfbPrefix.
  change (String.length ("ifb4" +:+ name)) with (4 + String.length name)%nat.
  destruct (Nat.leb (4 + String.length name) 15) eqn:E.
  - apply Nat.leb_le in E. assert (String.length name = 11%nat) as H by lia.
    rewrite <- H. by rewrite takeBytes_all.
  - reflexivity.
Qed.

Lemma truncateIfb_bound name :
  (String.length (truncateIfb name) ≤ 15)%nat.
Proof.
  unfold truncateIfb. destruct (Nat.leb (String.length name) 15) eqn:E.
  - by apply Nat.leb_le in E.
  - apply Nat.leb_gt in E. rewrite takeBytes_length; lia.
Qed.

(** The required IFBs of a pass are those the specification lists, for a
    classifier in a consistent state. *)
Lemma determineRequiredIfbs_spec fs ic links required :
  classifierInv fs ic →
  (determineRequiredIfbs fs ic links required).1
  = list_to_set (omap (requiredIfb fs (externalLinkIndexes ic)) links)
    ∪ required.
Proof.
  revert ic required.
  induction links as [|link links IH]; intros ic required Hinv.
  { cbn. by rewrite (left_id_L ∅ (∪)). }
  cbn -[Classify]. unfold requiredIfb at 1.
  destruct (Attrs link) as [a|] eqn:Ha; [|by rewrite IH].
  destruct (String.eqb (Name a) "" || HasPrefix (Name a) "ifb") eqn:Hskip;
    [by rewrite IH|].
  apply orb_false_elim in Hskip as [Hn _].
  assert (Name a ≠ "") as Hne by (intros H; by rewrite H in Hn).
  destruct (Classify_inv fs ic (Some a) Hinv) as (Hinv' & Hext & Hspec).
  specialize (Hspec a eq_refl Hne).
  destruct (Classify fs ic (Some a)) as [class ic'] eqn:E.
  simpl in Hinv', Hext, Hspec. rewrite <- Hspec, <- Hext.
  destruct class; simpl; rewrite IH by done; try done.
  all: rewrite (assoc_L (∪)).
  all: by rewrite (comm_L (∪) (list_to_set _) {[_]}).
Qed.

(** C10.  truncateIfb keeps the first 15 bytes of ifb4 + name: two
    interface names of at least 11 bytes with the same first 11 bytes get
    the same IFB name.  Hence exchanging one such interface for the other in
    the links of a pass leaves the required-IFB set as it is, and the skip
    check asks netlink for the same IFB and answers alike for both. *)
Theorem truncateIfb_collision (a b : string) :
  (11 ≤ String.length a)%nat →
  (11 ≤ String.length b)%nat →
  takeBytes 11 a = takeBytes 11 b →
  truncateIfb (IfbPrefix +:+ a) = truncateIfb (IfbPrefix +:+ b)
  ∧ (∀ fs ic before after la lb,
       classifierInv fs ic →
       (∃ attrs, Attrs la = Some attrs ∧ Name attrs = a) →
       (∃ attrs, Attrs lb = Some attrs ∧ Name attrs = b) →
       is_Some (requiredIfb fs (externalLinkIndexes ic) la) →
       is_Some (requiredIfb fs (externalLinkIndexes ic) lb) →
       (determineRequiredIfbs fs ic (before ++ la :: after) ∅).1
       = (determineRequiredIfbs fs ic (before ++ lb :: after) ∅).1)
  ∧ (∀ s sig env t,
       appliedSignatures s !! a = Some sig →
       appliedSignatures s !! b = Some sig →
       isAlreadyConfigured s a sig env t = isAlreadyConfigured s b sig env t
       ∧ (isAlreadyConfigured s a sig env t).2
         = t ++ [CallLinkByName (truncateIfb (IfbPrefix +:+ b))]).
Proof.
  intros Ha Hb Hab.
  assert (truncateIfb (IfbPrefix +:+ a) = truncateIfb (IfbPrefix +:+ b)) as Heq.
  { by rewrite !truncateIfb_prefix, Hab. }
  split; [exact Heq|]. split.
  - intros fs ic before after la lb Hinv (xa & Hxa & Hna) (xb & Hxb & Hnb)
      [ia Hia] [ib Hib].
    rewrite !determineRequiredIfbs_spec by done.
    rewrite !omap_app. simpl. rewrite Hia, Hib.
    assert (ia = ib) as ->; [|done].
    unfold requiredIfb in Hia, Hib. rewrite Hxa in Hia. rewrite Hxb in Hib.
    repeat match goal with
           | H : (if ?c then _ else _) = Some _ |- _ => destruct c; [|done]
           | H : (if ?c then _ else _) = Some _ |- _ => destruct c; [done|]
           end.
    injection Hia as <-. injection Hib as <-. by rewrite Hna, Hnb.
  - intros s sig env t Hsa Hsb. unfold isAlreadyConfigured.
    rewrite Hsa, Hsb, String.eqb_refl, Heq. simpl. split; [done|].
    rewrite bind_run. simpl.
    by destruct (envLinkByName env t _) as [[[?|]]|].
Qed.

Lemma truncateIfb_collision_witness :
  "enp0s31f6ab1" ≠ "enp0s31f6ab2"
  ∧ truncateIfb (IfbPrefix +:+ "enp0s31f6ab1") = "ifb4enp0s31f6ab"
  ∧ truncateIfb (IfbPrefix +:+ "enp0s31f6ab1")
    = truncateIfb (IfbPrefix +:+ "enp0s31f6ab2")
  ∧ (determineRequiredIfbs bareSysfs NewInterfaceClassifier
       [namedLink "lo0"; namedLink "enp0s31f6ab1"] ∅).1
    = (determineRequiredIfbs bareSysfs NewInterfaceClassifier
         [namedLink "lo0"; namedLink "enp0s31f6ab2"] ∅).1.
Proof.
  split; [discriminate|]. split; [reflexivity|].
  pose proof (truncateIfb_collision "enp0s31f6ab1" "enp0s31f6ab2"
                ltac:(simpl; lia) ltac:(simpl; lia) eq_refl)
    as (Hname & Hset & _).
  split; [exact Hname|].
  apply (Hset bareSysfs NewInterfaceClassifier [namedLink "lo0"] []
              (namedLink "enp0s31f6ab1") (namedLink "enp0s31f6ab2")).
  - apply classifierInv_new.
  - by eexists.
  - by eexists.
  - by eexists.
  - by eexists.
Defined.

End IfbNames.

(** ** Applying a profile *)

Section ConfigureProfile.
Import GoStrings Errors World Traffic Spec.

Lemma signaturesInv_new durationString settings :
  signaturesInv (NewShaper durationString settings).
Proof. apply lookup_empty. Qed.

(** What a built context holds. *)
Lemma buildProfileContext_context s attrs profile profileName env t pc t1 :
  buildProfileContext s attrs profile profileName env t = (BuildContext pc, t1) →
  ∃ a m q,
    attrs = Some a ∧ Name a ≠ ""
    ∧ isAlreadyConfigured s (Name a)
        (makeSignature (deriveProfileParameters a profile).1
                       (deriveProfileParameters a profile).2 profile) env t
      = (false, t1)
    ∧ parseProfileParameters (Name a) (deriveProfileParameters a profile).1
        (deriveProfileParameters a profile).2 profileName = Ok (m, q)
    ∧ pc = {| iface := Name a;
              attrs := a;
              profile := profile;
              profileName := profileName;
              mtuStr := (deriveProfileParameters a profile).1;
              pcQueueLength := (deriveProfileParameters a profile).2;
              desiredMTU := m;
              desiredQueueLen := q;
              signature :=
                makeSignature (deriveProfileParameters a profile).1
                              (deriveProfileParameters a profile).2 profile;
              ifbName := truncateIfb (IfbPrefix +:+ Name a) |}.
Proof.
  unfold buildProfileContext, validateProfileInput.
  destruct attrs as [a|]; [|done].
  destruct (String.eqb (Name a) "") eqn:Hn; [done|].
  simpl. rewrite bind_run.
  destruct (isAlreadyConfigured s (Name a) _ env t) as [skip t'] eqn:Hskip.
  simpl. destruct skip; [done|].
  destruct (parseProfileParameters _ _ _ _) as [[m q]|e] eqn:Hparse; [|done].
  simpl. intros [= <- <-]. exists a, m, q.
  split; [done|]. split; [intros H; by rewrite H in Hn|]. by repeat split.
Qed.

Lemma configureProfile_signaturesInv s attrs profile profileName env t :
  signaturesInv s →
  signaturesInv (configureProfile s attrs profile profileName env t).1.1.
Proof.
  intros Hinv. unfold configureProfile. rewrite bind_run.
  destruct (buildProfileContext s attrs profile profileName env t)
    as [built t1] eqn:Hb.
  cbn [fst snd]. destruct built as [err| |pc]; [exact Hinv..|].
  rewrite bind_run.
  destruct (runProfileSteps pc profileSteps env t1) as [[e|] t2];
    [exact Hinv|].
  apply buildProfileContext_context in Hb
    as (a & m & q & _ & Hne & _ & _ & ->).
  unfold signaturesInv. cbn. by rewrite lookup_insert_ne.
Qed.

Lemma cleanupStaleSignatures_signaturesInv s env t :
  signaturesInv s → signaturesInv (cleanupStaleSignatures s env t).1.1.
Proof.
  intros Hinv. unfold cleanupStaleSignatures. rewrite bind_run.
  destruct (LinkList env t).1; simpl; [|done].
  unfold signaturesInv. simpl. apply map_lookup_filter_None. by left.
Qed.

(** C3.  When the applied-signature map records, for the link's name, the
    signature just computed, and netlink finds the link ifb4<name>
    (truncated to 15 bytes) with its UP flag set, configureProfile returns
    nil, leaves the shaper (and so the applied-signature map) as it was,
    and the only call it makes is that LinkByName: no command is run and
    no netlink mutation is made. *)
Theorem configureProfile_skip (s : Shaper) (a : LinkAttrs)
    (profile : shapingProfile) (profileName : string) (env : Env) (t : Trace)
    (link : Link) (ifbAttrs : LinkAttrs) :
  signaturesInv s →
  appliedSignatures s !! Name a
  = Some (makeSignature (deriveProfileParameters a profile).1
                        (deriveProfileParameters a profile).2 profile) →
  envLinkByName env t (truncateIfb (IfbPrefix +:+ Name a)) = Ok link →
  Attrs link = Some ifbAttrs →
  hasFlag (Flags ifbAttrs) FlagUp = true →
  ∃ calls,
    configureProfile s (Some a) profile profileName env t
    = ((s, None), t ++ calls)
    ∧ calls = [CallLinkByName (truncateIfb (IfbPrefix +:+ Name a))]
    ∧ Forall (λ c, isCommand c = false ∧ isNetlinkMutation c = false) calls.
Proof.
  intros Hinv Hsig Hlink Hattrs Hup.
  exists [CallLinkByName (truncateIfb (IfbPrefix +:+ Name a))].
  split; [|split; [done|by repeat constructor]].
  assert (String.eqb (Name a) "" = false) as Hne.
  { destruct (String.eqb (Name a) "") eqn:E; [|done].
    apply String.eqb_eq in E. rewrite E in Hsig.
    unfold signaturesInv in Hinv. congruence. }
  unfold configureProfile, buildProfileContext, validateProfileInput.
  rewrite Hne. simpl in *. rewrite !bind_run.
  unfold isAlreadyConfigured. rewrite Hsig, String.eqb_refl. simpl.
  rewrite bind_run. unfold LinkByName, call. simpl.
  by rewrite Hlink, Hattrs, Hup.
Qed.

Lemma configureProfile_skip_witness :
  let s :=
    withSignatures initialShaper
      {["eth0" := makeSignature "1500" "10001" physicalProfile]} in
  configureProfile s (Some eth0) physicalProfile "external-physical"
    (okEnv 1500 10001) []
  = ((s, None), [CallLinkByName "ifb4eth0"]).
Proof.
  intros s.
  destruct (configureProfile_skip s eth0 physicalProfile "external-physical"
              (okEnv 1500 10001) []
              (mkLink (Some (mkAttrs 9 1500 10001 "ifb4eth0" FlagUp)))
              (mkAttrs 9 1500 10001 "ifb4eth0" FlagUp))
    as (calls & Hrun & -> & _); [reflexivity..|exact Hrun].
Defined.

Lemma runProfileSteps_four pc env t :
  let r1 := configureLinkParamsStep pc env t in
  let r2 := configureRootQdiscStep pc env r1.2 in
  let r3 := configureIngressAndIfbStep pc env r2.2 in
  let r4 := ensureOffloadsStep pc env r3.2 in
  runProfileSteps pc profileSteps env t =
  match r1.1 with
  | Some e => (Some e, r1.2)
  | None =>
      match r2.1 with
      | Some e => (Some e, r2.2)
      | None =>
          match r3.1 with
          | Some e => (Some e, r3.2)
          | None =>
              match r4.1 with
              | Some e => (Some e, r4.2)
              | None => (None, r4.2)
              end
          end
      end
  end.
Proof.
  intros r1 r2 r3 r4. unfold profileSteps. cbn [runProfileSteps].
  rewrite bind_run. fold r1. destruct r1.1; [done|].
  rewrite bind_run. fold r2. destruct r2.1; [done|].
  rewrite bind_run. fold r3. destruct r3.1; [done|].
  rewrite bind_run. fold r4. by destruct r4.1.
Qed.

(** C4 (as the code has it).  For a named interface that the skip check
    does not take: when the MTU or the queue length fails validation,
    configureProfile returns that error, runs no step and leaves the shaper
    as it was; otherwise it runs the four steps in the order link
    parameters, root qdisc, ingress and IFB, offloads, stops at the first
    step that returns an error and returns that error, and stores the
    signature under the interface name exactly when all four steps return
    nil; whenever it returns an error the shaper, and so the
    applied-signature map, is unchanged. *)
Theorem configureProfile_steps (s : Shaper) (a : LinkAttrs)
    (profile : shapingProfile) (profileName : string) (env : Env) (t : Trace) :
  let mtuStr := (deriveProfileParameters a profile).1 in
  let queueLength := (deriveProfileParameters a profile).2 in
  let sig := makeSignature mtuStr queueLength profile in
  let checked := isAlreadyConfigured s (Name a) sig env t in
  Name a ≠ "" →
  checked.1 = false →
  (∀ e,
     parseProfileParameters (Name a) mtuStr queueLength profileName = Err e →
     configureProfile s (Some a) profile profileName env t
     = ((s, Some e), checked.2))
  ∧ (∀ m q,
       parseProfileParameters (Name a) mtuStr queueLength profileName
       = Ok (m, q) →
       let pc :=
         {| iface := Name a;
            attrs := a;
            profile := profile;
            profileName := profileName;
            mtuStr := mtuStr;
            pcQueueLength := queueLength;
            desiredMTU := m;
            desiredQueueLen := q;
            signature := sig;
            ifbName := truncateIfb (IfbPrefix +:+ Name a) |} in
       let r1 := configureLinkParamsStep pc env checked.2 in
       let r2 := configureRootQdiscStep pc env r1.2 in
       let r3 := configureIngressAndIfbStep pc env r2.2 in
       let r4 := ensureOffloadsStep pc env r3.2 in
       configureProfile s (Some a) profile profileName env t =
       match r1.1 with
       | Some e => ((s, Some e), r1.2)
       | None =>
           match r2.1 with
           | Some e => ((s, Some e), r2.2)
           | None =>
               match r3.1 with
               | Some e => ((s, Some e), r3.2)
               | None =>
                   match r4.1 with
                   | Some e => ((s, Some e), r4.2)
                   | None =>
                       ((withSignatures s
                           (<[Name a := sig]> (appliedSignatures s)),
                         None),
                        r4.2)
                   end
               end
           end
       end)
  ∧ (∀ s' err t',
       configureProfile s (Some a) profile profileName env t
       = ((s', err), t') →
       match err with
       | Some _ => s' = s
       | None =>
           s' = withSignatures s (<[Name a := sig]> (appliedSignatures s))
       end).
Proof.
  intros mtuStr queueLength sig checked.
  unfold deriveProfileParameters in mtuStr, queueLength.
  cbn [fst snd] in mtuStr, queueLength. intros Hname Hcheck.
  assert (String.eqb (Name a) "" = false) as Hne.
  { destruct (String.eqb (Name a) "") eqn:E; [|done].
    by apply String.eqb_eq in E. }
  assert (Hrun :
    configureProfile s (Some a) profile profileName env t =
    match parseProfileParameters (Name a) mtuStr queueLength profileName with
    | Err e => ((s, Some e), checked.2)
    | Ok (m, q) =>
        let pc :=
          {| iface := Name a; attrs := a; profile := profile;
             profileName := profileName; mtuStr := mtuStr;
             pcQueueLength := queueLength; desiredMTU := m;
             desiredQueueLen := q; signature := sig;
             ifbName := truncateIfb (IfbPrefix +:+ Name a) |} in
        let r := runProfileSteps pc profileSteps env checked.2 in
        match r.1 with
        | Some e => ((s, Some e), r.2)
        | None =>
            ((withSignatures s (<[Name a := sig]> (appliedSignatures s)),
              None), r.2)
        end
    end).
  { unfold configureProfile, buildProfileContext, validateProfileInput.
    rewrite Hne. cbn [deriveProfileParameters]. rewrite !bind_run.
    fold mtuStr queueLength sig checked. rewrite Hcheck.
    destruct (parseProfileParameters (Name a) mtuStr queueLength profileName)
      as [[m q]|e]; [|done].
    cbn [ret fst snd]. rewrite bind_run. cbn [iface signature].
    by destruct (runProfileSteps _ profileSteps env checked.2).1. }
  split; [|split].
  - intros e He. by rewrite Hrun, He.
  - intros m q Hparse pc r1 r2 r3 r4. rewrite Hrun, Hparse. cbv zeta.
    rewrite (runProfileSteps_four _ env checked.2). fold pc r1 r2 r3 r4.
    by destruct r1.1, r2.1, r3.1, r4.1.
  - intros s' err t'. rewrite Hrun.
    destruct (parseProfileParameters (Name a) mtuStr queueLength profileName)
      as [[m q]|e].
    + cbv zeta. destruct (runProfileSteps _ profileSteps env checked.2).1;
        by intros [= <- <- <-].
    + by intros [= <- <- <-].
Qed.

(** eth0 shaped from scratch: every step succeeds and the signature is
    stored; with tc failing, the root-qdisc step stops the run and nothing
    is stored. *)
Lemma configureProfile_steps_witness :
  appliedSignatures
    (configureProfile initialShaper (Some eth0) physicalProfile
       "external-physical" (okEnv 1500 10001) []).1.1 !! "eth0"
  = Some (makeSignature "1500" "10001" physicalProfile)
  ∧ (configureProfile initialShaper (Some eth0) physicalProfile
       "external-physical" (tcFailsEnv 1500 10001) []).1.1
    = initialShaper.
Proof.
  split.
  - destruct (configureProfile initialShaper (Some eth0) physicalProfile
                "external-physical" (okEnv 1500 10001) [])
      as [[s' err] t'] eqn:Hrun.
    pose proof (proj2 (proj2 (configureProfile_steps initialShaper eth0
                  physicalProfile "external-physical" (okEnv 1500 10001) []
                  ltac:(discriminate) eq_refl)) s' err t' Hrun) as Hs.
    assert (err = None) as ->.
    { vm_compute in Hrun. by injection Hrun as _ <- _. }
    rewrite Hs. apply lookup_insert_eq.
  - destruct (configureProfile initialShaper (Some eth0) physicalProfile
                "external-physical" (tcFailsEnv 1500 10001) [])
      as [[s' err] t'] eqn:Hrun.
    pose proof (proj2 (proj2 (configureProfile_steps initialShaper eth0
                  physicalProfile "external-physical" (tcFailsEnv 1500 10001) []
                  ltac:(discriminate) eq_refl)) s' err t' Hrun) as Hs.
    assert (is_Some err) as [e ->].
    { vm_compute in Hrun. injection Hrun as _ <- _. eauto. }
    exact Hs.
Defined.

(** The claim as the specification states it, for every interface the skip
    check does not take, fails on an interface whose MTU is out of range:
    the skip check does not take it, yet configureProfile returns an error
    without one call made, while the four steps, had they run, would have
    called tc. *)
Lemma configureProfile_counterexample :
  (Classify bareSysfs NewInterfaceClassifier (Some smallMtuLink)).1
  = classExternalPhysical
  ∧ (isAlreadyConfigured initialShaper "can0"
       (makeSignature "16" "10001" physicalProfile) (okEnv 16 10) []).1
    = false
  ∧ configureProfile initialShaper (Some smallMtuLink) physicalProfile
      "external-physical" (okEnv 16 10) []
    = ((initialShaper,
        Some (Categorized CategoryRecoverable
                (Errorf "mtu %d out of range [%d, %d]"
                        [ArgInt 16; ArgInt 68; ArgInt 65535] None)
                (mkContext "validate_profile_mtu" "can0" "external-physical"
                           "" "" "16" "" "" ∅))),
       [])
  ∧ (runProfileSteps smallMtuContext profileSteps (okEnv 16 10) []).2 ≠ [].
Proof.
  split; [reflexivity|]. split; [reflexivity|]. split.
  - vm_compute. reflexivity.
  - vm_compute. discriminate.
Qed.

End ConfigureProfile.

(* ===================================================================== *)
(** * Further properties of the code *)
(* ===================================================================== *)

(** ** Strings: tokens and joins *)

Section StringFacts.
Import GoStrings Preds.

Lemma rev_app_rev_app w a b :
  String.rev_app (String.rev_app w a) b = String.rev_app a (w +:+ b).
Proof.
  revert a b. induction w as [|c w IH]; intros a b; simpl; [done|].
  by rewrite IH.
Qed.

Lemma app_cons (c : ascii) (a b : string) : String c a +:+ b = String c (a +:+ b).
Proof. reflexivity. Qed.

Lemma app_empty_r (s : string) : s +:+ "" = s.
Proof. induction s as [|c s IH]; [done|]. by rewrite app_cons, IH. Qed.

Lemma app_assoc_s (a b c : string) : (a +:+ b) +:+ c = a +:+ b +:+ c.
Proof. induction a as [|x a IH]; [done|]. by rewrite !app_cons, IH. Qed.

Lemma rev_rev w : String.rev (String.rev w) = w.
Proof. unfold String.rev. rewrite rev_app_rev_app. simpl. apply app_empty_r. Qed.

Lemma allBytes_app p a b : allBytes p (a +:+ b) = allBytes p a && allBytes p b.
Proof.
  induction a as [|c a IH]; [done|]. rewrite app_cons. simpl.
  by rewrite IH, andb_assoc.
Qed.

Lemma allBytes_rev_app p a b :
  allBytes p (String.rev_app a b) = allBytes p a && allBytes p b.
Proof.
  revert b. induction a as [|c a IH]; intros b; simpl; [done|].
  rewrite IH. simpl. by destruct (p c), (allBytes p a), (allBytes p b).
Qed.

(** words_go on a run of non-space bytes *)
Lemma words_go_word w cur rest :
  allBytes notSpace w = true → w ≠ "" →
  String.words_go cur (w +:+ rest)
  = String.words_go (Some (String.rev_app w (default "" cur))) rest.
Proof.
  revert cur. induction w as [|c w IH]; intros cur Hw Hne; [done|].
  simpl in Hw. apply andb_true_iff in Hw as [Hc Hw].
  unfold notSpace in Hc. apply negb_true_iff in Hc.
  change (String c w +:+ rest) with (String c (w +:+ rest)). simpl. rewrite Hc.
  destruct w as [|c' w'].
  - simpl. by destruct cur.
  - rewrite IH by done. simpl. by destruct cur.
Qed.

Lemma Fields_Join ws :
  Forall (λ w, isWord w = true) ws → Fields (Join ws " ") = ws.
Proof.
  unfold Fields, Join, String.words.
  induction ws as [|w ws IH]; intros Hws; [done|].
  apply Forall_cons in Hws as [Hw Hws]. unfold isWord in Hw.
  apply andb_true_iff in Hw as [Hne Hw]. apply negb_true_iff in Hne.
  assert (w ≠ "") as Hne' by (intros ->; done).
  destruct ws as [|w' ws'].
  - simpl. rewrite <- (app_empty_r w) at 1. rewrite words_go_word by done.
    simpl. change (String.rev (String.rev_app w "")) with (String.rev (String.rev w)).
    by rewrite rev_rev.
  - change (String.concat " " (w :: w' :: ws'))
      with (w +:+ " " +:+ String.concat " " (w' :: ws')).
    rewrite words_go_word by done. simpl.
    change (String.rev (String.rev_app w "")) with (String.rev (String.rev w)).
    rewrite rev_rev. f_equal. by apply IH.
Qed.

Lemma rev_app_empty a b : String.rev_app a b = "" → a = "" ∧ b = "".
Proof.
  revert b. induction a as [|c a IH]; intros b; simpl; [done|].
  intros H. by destruct (IH _ H).
Qed.

Lemma rev_isWord c :
  c ≠ "" → allBytes notSpace c = true → isWord (String.rev c) = true.
Proof.
  intros Hne Hc. unfold isWord, String.rev.
  rewrite allBytes_rev_app, Hc. simpl. rewrite andb_true_r.
  apply negb_true_iff, String.eqb_neq. intros H.
  by apply rev_app_empty in H as [? _].
Qed.

Lemma words_go_isWord cur s :
  (∀ c, cur = Some c → c ≠ "" ∧ allBytes notSpace c = true) →
  Forall (λ w, isWord w = true) (String.words_go cur s).
Proof.
  revert cur. induction s as [|a s IH]; intros cur Hcur; simpl.
  - destruct cur as [c|]; simpl; [|done]. destruct (Hcur c eq_refl) as [Hne Hc].
    apply Forall_singleton. by apply rev_isWord.
  - destruct (Ascii.is_space a) eqn:Ha.
    + apply Forall_app. split; [|by apply IH].
      destruct cur as [c|]; simpl; [|done]. destruct (Hcur c eq_refl) as [Hne Hc].
      apply Forall_singleton. by apply rev_isWord.
    + apply IH. intros c [= <-]. split; [by destruct cur|].
      destruct cur as [c|]; simpl; unfold notSpace at 1; rewrite Ha; simpl; [|done].
      by apply Hcur.
Qed.

Lemma Fields_isWord s : Forall (λ w, isWord w = true) (Fields s).
Proof. apply words_go_isWord. by intros c [=]. Qed.

End StringFacts.

(** ** Cleaning and applying route lines *)

Section RouteLines.
Import GoStrings Errors World Route Preds.

Lemma cleanTokens_sublist tokens skip :
  cleanTokens tokens skip `sublist_of` tokens.
Proof.
  revert skip. induction tokens as [|token rest IH]; intros skip; simpl; [done|].
  destruct skip as [|k]; [|by apply sublist_cons].
  destruct (isTunedToken token); [by apply sublist_cons|].
  destruct (String.eqb token "congctl"); [|by apply sublist_skip].
  destruct rest as [|lock [|x rest']]; try by apply sublist_skip.
  destruct (String.eqb lock "lock"); [by apply sublist_cons|by apply sublist_skip].
Qed.

Lemma cleanTokens_untuned tokens skip token :
  token ∈ cleanTokens tokens skip → isTunedToken token = false.
Proof.
  revert skip. induction tokens as [|tok rest IH]; intros skip; simpl.
  { by intros ?%elem_of_nil. }
  destruct skip as [|k]; [|by apply IH].
  destruct (isTunedToken tok) eqn:Ht; [by apply IH|].
  assert (token ∈ tok :: cleanTokens rest 0 → isTunedToken token = false) as Hkeep.
  { intros [->|Hin]%elem_of_cons; [done|by eapply IH]. }
  destruct (String.eqb tok "congctl"); [|done].
  destruct rest as [|lock [|x rest']]; try done.
  destruct (String.eqb lock "lock"); [by apply IH|done].
Qed.

Lemma Join_empty ws :
  Forall (λ w, isWord w = true) ws → Join ws " " = "" → ws = [].
Proof.
  intros Hws H. destruct ws as [|w ws]; [done|].
  apply Forall_cons in Hws as [Hw _]. unfold isWord in Hw.
  destruct w as [|c w]; [done|]. unfold Join in H. simpl in H.
  by destruct ws.
Qed.

Lemma cleanTokens_words line :
  Forall (λ w, isWord w = true) (cleanTokens (Fields line) 0).
Proof.
  pose proof (Fields_isWord line) as HF. rewrite Forall_forall in HF.
  apply Forall_forall. intros w Hw. apply HF.
  eapply elem_of_submseteq; [exact Hw|].
  apply sublist_submseteq, cleanTokens_sublist.
Qed.

Lemma cleanRouteLine_fields (line : string) :
  Fields (cleanRouteLine line) = cleanTokens (Fields line) 0.
Proof. unfold cleanRouteLine. apply Fields_Join, cleanTokens_words. Qed.

Lemma cleanRouteLine_empty (line : string) :
  cleanRouteLine line = "" ↔ cleanTokens (Fields line) 0 = [].
Proof.
  unfold cleanRouteLine. split.
  - apply Join_empty, cleanTokens_words.
  - by intros ->.
Qed.

(** X1.  cleanRouteLine only drops tokens: the fields of the cleaned line
    are the fields of the line that the cleaning loop keeps, in their order;
    none of them is mtu, initcwnd, initrwnd or fastopen_no_cookie; and the
    cleaned line is empty exactly when the loop keeps no token. *)
Theorem cleanRouteLine_tokens (line : string) :
  Fields (cleanRouteLine line) = cleanTokens (Fields line) 0
  ∧ cleanTokens (Fields line) 0 `sublist_of` Fields line
  ∧ (∀ token, token ∈ Fields (cleanRouteLine line) →
              isTunedToken token = false)
  ∧ (cleanRouteLine line = "" ↔ cleanTokens (Fields line) 0 = []).
Proof.
  split; [apply cleanRouteLine_fields|].
  split; [apply cleanTokens_sublist|]. split.
  - intros token. rewrite cleanRouteLine_fields. apply cleanTokens_untuned.
  - apply cleanRouteLine_empty.
Qed.

Lemma cleanTokens_args (p : params) : cleanTokens (args p) 0 = [].
Proof.
  unfold args. destruct p as [m c r cc]; simpl.
  destruct (String.eqb cc ""); reflexivity.
Qed.

(** X2.  Cleaning undoes tuning: for route tokens none of which is mtu,
    initcwnd, initrwnd, fastopen_no_cookie or congctl, the loop of
    cleanRouteLine removes exactly the arguments params.args() appended
    (tokens followed by args gives back tokens) and leaves the untuned
    tokens as they are. *)
Theorem cleanTokens_args_roundtrip (tokens : list string) (p : params) :
  (∀ token, token ∈ tokens →
            isTunedToken token = false ∧ token ≠ "congctl") →
  cleanTokens (tokens ++ args p) 0 = tokens
  ∧ cleanTokens tokens 0 = tokens.
Proof.
  induction tokens as [|tok rest IH]; intros Hclean.
  { split; [apply cleanTokens_args|done]. }
  destruct (Hclean tok) as [Ht Hc]; [by left|].
  destruct IH as [IH1 IH2]. { intros token Hin. apply Hclean. by right. }
  apply String.eqb_neq in Hc.
  split; simpl; rewrite Ht, Hc; by f_equal.
Qed.

Lemma cleanTokens_args_roundtrip_witness :
  cleanTokens (["local"; "10.0.0.1"; "dev"; "eth0"; "proto"; "kernel"]
               ++ args (newParams 1500 100 100 "cubic")) 0
  = ["local"; "10.0.0.1"; "dev"; "eth0"; "proto"; "kernel"].
Proof.
  apply (cleanTokens_args_roundtrip
           ["local"; "10.0.0.1"; "dev"; "eth0"; "proto"; "kernel"]
           (newParams 1500 100 100 "cubic")).
  intros token Hin.
  repeat (apply elem_of_cons in Hin as [->|Hin]; [by split|]).
  by apply elem_of_nil in Hin.
Defined.

Lemma applyRouteChange_clean route params env t :
  cleanTokens (Fields route) 0 ≠ [] →
  let args := ("route" :: "change" :: cleanTokens (Fields route) 0) ++ params in
  applyRouteChange (cleanRouteLine route) params env t
  = (match (envRun env t "ip" args).2 with
     | Some e => Some (Errorf "ip %s: %w" [ArgStr (Join args " ")]
                              (Some (External e)))
     | None => None
     end,
     t ++ [CallRun "ip" args]).
Proof.
  intros Hne args. subst args. unfold applyRouteChange.
  rewrite cleanRouteLine_fields.
  destruct (cleanTokens (Fields route) 0) as [|tok toks]; [done|].
  rewrite bind_run. unfold runIPCommand, Run, call. cbn [fst snd].
  by destruct (envRun env t "ip" _).2.
Qed.

Lemma applyRoutesLoop_spec routes params o f fe env t :
  0 ≤ o → 0 ≤ f → (fe = None ↔ f = 0) →
  let todo :=
    base.filter (λ toks, toks ≠ [])
           ((λ route, cleanTokens (Fields route) 0) <$> routes) in
  let r := applyRoutesLoop routes params o f fe env t in
  r.2 = t ++ ((λ toks, CallRun "ip" (("route" :: "change" :: toks) ++ params))
              <$> todo)
  ∧ 0 ≤ r.1.1.1 ∧ 0 ≤ r.1.1.2
  ∧ r.1.1.1 + r.1.1.2 = o + f + Z.of_nat (length todo)
  ∧ (r.1.2 = None ↔ r.1.1.2 = 0).
Proof.
  revert o f fe t. induction routes as [|route rest IH]; intros o f fe t Ho Hf Hfe.
  { simpl. rewrite app_nil_r. repeat split; try done; try lia; apply Hfe. }
  cbn zeta. cbn [applyRoutesLoop fmap list_fmap].
  pose proof (cleanRouteLine_empty route) as Hempty.
  destruct (String.eqb route "") eqn:Hr.
  { apply String.eqb_eq in Hr as ->. rewrite filter_cons_False by (by intros H).
    by apply IH. }
  destruct (String.eqb (cleanRouteLine route) "") eqn:Hl.
  { apply String.eqb_eq, Hempty in Hl. rewrite Hl.
    rewrite filter_cons_False by (by intros H). by apply IH. }
  assert (cleanTokens (Fields route) 0 ≠ []) as Hne.
  { intros H. apply Hempty in H. rewrite H in Hl. done. }
  rewrite filter_cons_True by done.
  rewrite bind_run, (applyRouteChange_clean route params env t Hne).
  cbn [fst snd fmap list_fmap length].
  destruct (envRun env t "ip" _).2 as [e|].
  - match goal with
    | |- context [applyRoutesLoop rest params ?o' ?f' ?fe' env ?t'] =>
        destruct (IH o' f' fe' t') as (H1 & H2 & H3 & H4 & H5)
    end; [done|lia| |].
    { destruct fe; split; first [done | intros; exfalso; lia]. }
    split; [by rewrite H1, <- app_assoc|].
    split; [done|]. split; [done|]. split; [|done].
    rewrite H4, Nat2Z.inj_succ. lia.
  - match goal with
    | |- context [applyRoutesLoop rest params ?o' ?f' ?fe' env ?t'] =>
        destruct (IH o' f' fe' t') as (H1 & H2 & H3 & H4 & H5)
    end; [lia|done|done|].
    split; [by rewrite H1, <- app_assoc|].
    split; [done|]. split; [done|]. split; [|done].
    rewrite H4, Nat2Z.inj_succ. lia.
Qed.

(** X3.  applyRoutes issues one ip route change command (cleaned tokens,
    then the parameters) per route whose cleaned line is not empty, in
    order, and no other call; the optimized and failure counts are not
    negative and add up to the number of these commands; the error it
    returns is nil exactly when the failure count is 0. *)
Theorem applyRoutes_accounting (routes params : list string) (env : Env)
    (t : Trace) :
  let todo :=
    base.filter (λ toks, toks ≠ [])
           ((λ route, cleanTokens (Fields route) 0) <$> routes) in
  let r := applyRoutes routes params env t in
  r.2 = t ++ ((λ toks, CallRun "ip" (("route" :: "change" :: toks) ++ params))
              <$> todo)
  ∧ 0 ≤ r.1.1.1 ∧ 0 ≤ r.1.1.2
  ∧ r.1.1.1 + r.1.1.2 = Z.of_nat (length todo)
  ∧ (r.1.2 = None ↔ r.1.1.2 = 0).
Proof.
  intros todo r.
  destruct (applyRoutesLoop_spec routes params 0 0 None env t)
    as (H1 & H2 & H3 & H4 & H5); [done..|].
  repeat split; try done; apply H5.
Qed.
End RouteLines.

(** ** Route categories and the primary interface *)

Section RouteJobs.
Import GoStrings Errors World Route Preds.

(** X4.  No route line belongs to both the local and the loopback category:
    shouldOptimizeLocal and shouldOptimizeLoopback are never both true, so a
    line filterRoutes keeps for the one is not kept for the other. *)
Theorem local_loopback_disjoint (line : string) :
  shouldOptimizeLocal line && shouldOptimizeLoopback line = false
  ∧ (∀ lines, line ∈ filterRoutes lines shouldOptimizeLocal →
              line ∉ filterRoutes lines shouldOptimizeLoopback).
Proof.
  assert (shouldOptimizeLocal line && shouldOptimizeLoopback line = false) as H.
  { unfold shouldOptimizeLocal, shouldOptimizeLoopback.
    destruct (String.eqb line "" || negb (HasPrefix line "local ")); [done|].
    destruct (Contains line "broadcast"); [done|].
    destruct (Contains line "linkdown"); [done|].
    destruct (extractDevice line) as [device|]; [|done].
    by destruct (String.eqb device "lo"). }
  split; [exact H|]. intros lines. unfold filterRoutes.
  rewrite !list_elem_of_filter. intros [H1 _] [H2 _].
  by rewrite H1, H2 in H.
Qed.

Lemma extractDevice_named output device :
  extractDevice output = Some device → device ≠ "".
Proof.
  unfold extractDevice. destruct (String.eqb output ""); [done|].
  induction (Split output _) as [|line rest IH]; simpl; [done|].
  destruct (deviceAfterDev (Fields line)) as [d|]; [|done].
  destruct (String.eqb d "") eqn:E; [done|].
  intros [= <-]. by apply String.eqb_neq.
Qed.

Lemma firstDefaultRouteLink_named routes env t name :
  (firstDefaultRouteLink routes env t).1 = Some name → name ≠ "".
Proof.
  revert t. induction routes as [|route rest IH]; intros t; simpl; [done|].
  destruct (Dst route); [apply IH|].
  destruct (LinkIndex route <=? 0); [apply IH|].
  rewrite bind_run. destruct (safeGetLinkAttrs _ env t).1 as [attrs|]; [|apply IH].
  destruct (String.eqb (Name attrs) "") eqn:E; [apply IH|].
  simpl. intros [= <-]. by apply String.eqb_neq.
Qed.

Lemma firstPhysicalRouteLink_named routes env t name :
  (firstPhysicalRouteLink routes env t).1 = Some name →
  name ≠ "" ∧ isVirtualName name = false.
Proof.
  revert t. induction routes as [|route rest IH]; intros t; simpl; [done|].
  destruct (LinkIndex route <=? 0); [apply IH|].
  rewrite bind_run. destruct (safeGetLinkAttrs _ env t).1 as [attrs|]; [|apply IH].
  destruct (String.eqb (Name attrs) "" || isVirtualName (Name attrs)) eqn:E;
    [apply IH|].
  simpl. intros [= <-]. apply orb_false_elim in E as [E1 E2].
  split; [by apply String.eqb_neq|done].
Qed.

Lemma firstDefaultLineDevice_named lines nic :
  firstDefaultLineDevice lines = Some nic → nic ≠ "".
Proof.
  induction lines as [|raw rest IH]; simpl; [done|].
  destruct (negb _); [done|].
  destruct (extractDevice (TrimSpace raw)) as [d|] eqn:E; [|done].
  destruct (String.eqb d "") eqn:E'; [done|].
  intros [= <-]. by apply String.eqb_neq.
Qed.

Lemma firstPhysicalLineDevice_named lines nic :
  firstPhysicalLineDevice lines = Some nic →
  nic ≠ "" ∧ nic ≠ "lo" ∧ isVirtualName nic = false.
Proof.
  induction lines as [|raw rest IH]; simpl; [done|].
  destruct (Contains _ "linkdown"); [done|].
  destruct (extractDevice (TrimSpace raw)) as [d|] eqn:E; [|done].
  destruct (String.eqb d "lo") eqn:E'; [done|].
  destruct (isVirtualName d) eqn:Ev; simpl; [done|].
  intros [= <-]. split; [by eapply extractDevice_named|].
  split; [by apply String.eqb_neq|done].
Qed.

Lemma getPrimaryNICFromCommand_named env t nic :
  (getPrimaryNICFromCommand env t).1 = Ok nic → nic ≠ "".
Proof.
  unfold getPrimaryNICFromCommand. rewrite bind_run.
  destruct (fetchRoutes _ env t).1 as [lines|]; [|done].
  destruct (firstDefaultLineDevice lines) as [d|] eqn:E1; simpl.
  { intros [= <-]. by eapply firstDefaultLineDevice_named. }
  destruct (firstPhysicalLineDevice lines) as [d|] eqn:E2; simpl; [|done].
  intros [= <-]. by eapply firstPhysicalLineDevice_named.
Qed.

Lemma getPrimaryNICFromNetlink_named env t nic :
  (getPrimaryNICFromNetlink env t).1 = Ok nic → nic ≠ "".
Proof.
  unfold getPrimaryNICFromNetlink. rewrite bind_run.
  destruct (RouteList FAMILY_V4 env t).1 as [routes|]; [|done].
  rewrite bind_run.
  destruct (firstDefaultRouteLink routes env _).1 as [d|] eqn:E1; simpl.
  { intros [= <-]. by eapply firstDefaultRouteLink_named. }
  rewrite bind_run.
  destruct (firstPhysicalRouteLink routes env _).1 as [d|] eqn:E2; simpl; [|done].
  intros [= <-]. by eapply firstPhysicalRouteLink_named.
Qed.

Lemma getPrimaryNIC_named_aux opt env t nic :
  (getPrimaryNIC opt env t).1 = Ok nic → nic ≠ "".
Proof.
  unfold getPrimaryNIC. destruct (hasNetlink opt);
    [|apply getPrimaryNICFromCommand_named].
  rewrite bind_run.
  destruct (getPrimaryNICFromNetlink env t).1 as [d|] eqn:E;
    [|apply getPrimaryNICFromCommand_named].
  destruct (String.eqb d "") eqn:E'; [apply getPrimaryNICFromCommand_named|].
  simpl. intros [= <-]. by apply String.eqb_neq.
Qed.

Lemma optimize_result job env t :
  (optimize job env t).1 = None
  ∨ ∃ err, (optimize job env t).1 = fetchError job err
           ∨ (optimize job env t).1 = applyError job err.
Proof.
  unfold optimize. rewrite bind_run.
  destruct (fetchRoutes (routeArgs job) env t).1 as [lines|err].
  - rewrite bind_run.
    destruct (applyRoutes _ _ env _).1.2 as [applyErr|]; simpl; eauto.
  - simpl. eauto.
Qed.

(** X5.  getPrimaryNIC never succeeds with an empty interface name, so the
    branch of optimizeNIC for an empty name, which would wrap a nil error,
    is never taken: optimizeNIC never returns the detection failure that
    wraps nil. *)
Theorem getPrimaryNIC_named (opt : Optimizer) (env : Env) (t : Trace) :
  (∀ nic, (getPrimaryNIC opt env t).1 = Ok nic → nic ≠ "")
  ∧ (optimizeNIC opt env t).1 ≠ detectFailure None.
Proof.
  split; [intros nic; apply getPrimaryNIC_named_aux|].
  unfold optimizeNIC. rewrite bind_run.
  destruct (getPrimaryNIC opt env t).1 as [nic|err] eqn:E.
  - apply getPrimaryNIC_named_aux, String.eqb_neq in E. rewrite E.
    rewrite bind_run.
    match goal with
    | |- (optimize ?job env ?t').1 ≠ _ =>
        destruct (optimize_result job env t') as [->|[err [->| ->]]]
    end; by intros [=].
  - simpl. by intros [=].
Qed.

(** X6.  optimize first lists the routes with ip and the job's routeArgs.
    When the listing fails or cannot be scanned, that is its only call and
    it returns a Recoverable error; otherwise it goes on with exactly one ip
    route change per listed line that passes the job's filter and keeps a
    token after cleaning, in listing order, with the job's parameters
    appended. *)
Theorem optimize_calls (job : routeJob) (env : Env) (t : Trace) :
  let listing := envRun env t "ip" (routeArgs job) in
  let r := optimize job env t in
  match listing.2, ScanLines listing.1 with
  | None, Some lines =>
      let todo :=
        base.filter (λ toks, toks ≠ [])
          ((λ line, cleanTokens (Fields line) 0)
             <$> filterRoutes lines (Route.filter job)) in
      r.2 = t ++ CallRun "ip" (routeArgs job)
              :: ((λ toks, CallRun "ip" (("route" :: "change" :: toks)
                                           ++ args (jobParams job)))
                  <$> todo)
  | _, _ =>
      r.2 = t ++ [CallRun "ip" (routeArgs job)]
      ∧ ∃ e, r.1 = Some e ∧ isRecoverable e = true
  end.
Proof.
  cbn zeta. unfold optimize, fetchRoutes, runIPCommand, Run, call.
  rewrite !bind_run. cbn [fst snd].
  destruct (envRun env t "ip" (routeArgs job)) as [out [e|]]; cbn [fst snd].
  { destruct (ScanLines out); simpl; eauto. }
  destruct (ScanLines out) as [lines|]; cbn [fst snd ret]; [|simpl; eauto].
  rewrite bind_run.
  destruct (applyRoutesLoop_spec (filterRoutes lines (Route.filter job))
              (args (jobParams job)) 0 0 None env
              (t ++ [CallRun "ip" (routeArgs job)]))
    as (H1 & _); [done..|].
  unfold applyRoutes.
  destruct (applyRoutesLoop _ _ 0 0 None env _) as [[[o f] [fe|]] t'];
    cbn [fst snd] in *; rewrite H1; by rewrite <- app_assoc.
Qed.

End RouteJobs.

(** ** IFB names and the cache of the classifier *)

Section ClassifierState.
Import GoStrings Errors World Traffic Spec Preds.

Lemma app_length_s (a b : string) :
  String.length (a +:+ b) = (String.length a + String.length b)%nat.
Proof. induction a as [|c a IH]; [done|]. rewrite app_cons. simpl. by rewrite IH. Qed.

Lemma prefix_app (p s : string) : String.prefix p (p +:+ s) = true.
Proof.
  induction p as [|c p IH]; [by destruct s|].
  rewrite app_cons. simpl. by destruct (ascii_dec c c).
Qed.

(** X7.  The IFB name of an interface, truncateIfb of ifb4 followed by the
    name, is at most 15 bytes long and starts with ifb4; for a name of at
    most 11 bytes it is ifb4 followed by the whole name, and two such names
    never share an IFB name. *)
Theorem ifbName_fits (name : string) :
  let ifb := truncateIfb (IfbPrefix +:+ name) in
  (String.length ifb ≤ 15)%nat
  ∧ HasPrefix ifb IfbPrefix = true
  ∧ ((String.length name ≤ 11)%nat → ifb = IfbPrefix +:+ name)
  ∧ (∀ other, (String.length name ≤ 11)%nat →
              (String.length other ≤ 11)%nat →
              truncateIfb (IfbPrefix +:+ other) = ifb → other = name).
Proof.
  assert (∀ n, (String.length n ≤ 11)%nat →
               truncateIfb (IfbPrefix +:+ n) = IfbPrefix +:+ n) as Hshort.
  { intros n Hn. unfold truncateIfb. rewrite app_length_s.
    change (String.length IfbPrefix) with 4%nat.
    destruct (Nat.leb (4 + String.length n) 15) eqn:E; [done|].
    apply Nat.leb_gt in E. lia. }
  cbn zeta. split; [apply truncateIfb_bound|]. split; [|split].
  - unfold truncateIfb, HasPrefix. destruct (Nat.leb _ 15); [apply prefix_app|].
    change (takeBytes 15 (IfbPrefix +:+ name))
      with (IfbPrefix +:+ takeBytes 11 name).
    apply prefix_app.
  - apply Hshort.
  - intros other Hn Ho. rewrite !Hshort by done.
    by intros ?%(inj (String.app IfbPrefix)).
Qed.

Lemma isVirtualInterface_cached fs fs' ic name :
  isVirtualInterface fs' (isVirtualInterface fs ic name).2 name
  = isVirtualInterface fs ic name.
Proof.
  unfold isVirtualInterface.
  destruct (String.eqb name "") eqn:Hn; [done|].
  destruct (virtualCache ic !! name) as [cached|] eqn:Hc; simpl.
  - by rewrite Hc.
  - by rewrite lookup_insert_eq.
Qed.

(** X8.  Classify is stable under its own cache: classifying the same link
    again, with the classifier state the first call left behind, gives the
    same class and leaves that state as it is, whatever sysfs holds by then. *)
Theorem Classify_cached (fs fs' : Sysfs) (ic : InterfaceClassifier)
    (attrs : option LinkAttrs) :
  Classify fs' (Classify fs ic attrs).2 attrs = Classify fs ic attrs.
Proof.
  destruct attrs as [a|]; [|done]. unfold Classify.
  destruct (hasFlag (Flags a) FlagLoopback) eqn:Hl; [done|].
  destruct (String.eqb (Name a) "") eqn:Hn; [done|].
  destruct (hasInternalVirtualPrefix (Name a)) eqn:Hp; [done|].
  pose proof (isVirtualInterface_cached fs fs' ic (Name a)) as Hsame.
  destruct (isVirtualInterface fs ic (Name a)) as [isVirtual ic'] eqn:E.
  simpl in Hsame.
  destruct (isExternalInterface ic' (Index a) (Name a)) eqn:He, isVirtual;
    simpl; rewrite Hsame; by rewrite He.
Qed.


End ClassifierState.

(** ** Refreshing the classifier and the signature map *)

Section ClassifierRefresh.
Import GoStrings Errors World Traffic Spec Preds.


Lemma currentNames_elem links name :
  name ∈ currentNames links
  ↔ name ≠ "" ∧ ∃ link attrs, link ∈ links ∧ Attrs link = Some attrs
                              ∧ Name attrs = name.
Proof.
  unfold currentNames.
  assert (∀ acc : gset string, name ∈ foldl
            (λ current link,
               match Attrs link with
               | Some attrs =>
                   if negb (String.eqb (Name attrs) "")
                   then {[Name attrs]} ∪ current else current
               | None => current
               end) acc links
          ↔ name ∈ acc
            ∨ (name ≠ "" ∧ ∃ link attrs, link ∈ links ∧ Attrs link = Some attrs
                                         ∧ Name attrs = name)) as H.
  { induction links as [|link links IH]; intros acc; simpl.
    { split; [by left|]. intros [?|(_ & ? & ? & []%elem_of_nil & _)]. done. }
    rewrite IH. clear IH. split.
    - intros [Hin|(Hne & l & a & Hl & Ha & Hn)].
      + destruct (Attrs link) as [attrs|] eqn:Ha; [|by left].
        destruct (String.eqb (Name attrs) "") eqn:E; simpl in Hin; [by left|].
        apply elem_of_union in Hin as [->%elem_of_singleton|?]; [|by left].
        right. split; [by apply String.eqb_neq|].
        exists link, attrs. split; [by left|done].
      + right. split; [done|]. exists l, a. split; [by right|done].
    - intros [Hin|(Hne & l & a & Hl & Ha & Hn)].
      + left. destruct (Attrs link) as [attrs|]; [|done].
        destruct (negb _); [|done]. apply elem_of_union. by right.
      + apply elem_of_cons in Hl as [->|Hl].
        * left. rewrite Ha, Hn. apply String.eqb_neq in Hne. rewrite Hne. simpl.
          apply elem_of_union. left. by apply elem_of_singleton.
        * right. split; [done|]. by exists l, a. }
  rewrite H. split; [|by right]. by intros [[]%elem_of_empty|?].
Qed.

(** X10.  cleanupStaleSignatures lists the links once and makes no other
    call. If the listing fails, the applied signatures stay as they are and
    a Recoverable error is returned; otherwise it returns nil and keeps
    exactly the signatures recorded under a non-empty name that a listed
    link carries. Classifier, profiles and the initial-cleanup flag are
    untouched. *)
Theorem cleanupStaleSignatures_spec (s : Shaper) (env : Env) (t : Trace) :
  let r := cleanupStaleSignatures s env t in
  r.2 = t ++ [CallLinkList]
  ∧ classifier r.1.1 = classifier s
  ∧ didInitialCleanup r.1.1 = didInitialCleanup s
  ∧ profiles r.1.1 = profiles s
  ∧ match envLinkList env t with
    | Err e =>
        appliedSignatures r.1.1 = appliedSignatures s
        ∧ ∃ err, r.1.2 = Some err ∧ isRecoverable err = true
    | Ok links =>
        r.1.2 = None
        ∧ ∀ name sig,
            appliedSignatures r.1.1 !! name = Some sig
            ↔ appliedSignatures s !! name = Some sig ∧ name ≠ ""
              ∧ ∃ link attrs, link ∈ links ∧ Attrs link = Some attrs
                              ∧ Name attrs = name
    end.
Proof.
  cbn zeta. unfold cleanupStaleSignatures, LinkList, call. rewrite bind_run.
  cbn [fst snd]. destruct (envLinkList env t) as [links|e]; cbn [fst snd ret].
  - do 4 (split; [done|]). split; [done|]. intros name sig. simpl.
    rewrite map_lookup_filter_Some. simpl. rewrite currentNames_elem.
    tauto.
  - repeat split; try done. simpl. eauto.
Qed.

End ClassifierRefresh.

(** ** Decimal numbers *)

Section Decimal.
Import GoStrings Preds.

Lemma digitValue_pretty (d : N) :
  (d < 10)%N → digitValue (pretty_N_char d) = Some (Z.of_N d).
Proof.
  intros Hd.
  assert (d = 0 ∨ d = 1 ∨ d = 2 ∨ d = 3 ∨ d = 4 ∨ d = 5 ∨ d = 6 ∨ d = 7
          ∨ d = 8 ∨ d = 9)%N as H by lia.
  repeat (destruct H as [->|H]; [reflexivity|]). by subst.
Qed.

(** Parsing the digits that pretty_N_go puts in front of [s]. *)
Lemma parseDigits_pretty_go (x : N) :
  ∃ k : Z, 0 < k ∧ Z.of_N x < k
    ∧ ∀ s acc, parseDigits (pretty_N_go x s) acc
               = parseDigits s (acc * k + Z.of_N x).
Proof.
  induction (N.lt_wf_0 x) as [x _ IH].
  destruct (decide (x = 0%N)) as [->|Hx].
  { exists 1. split; [lia|]. split; [lia|]. intros s acc.
    rewrite pretty_N_go_0. f_equal. lia. }
  destruct (IH (x `div` 10)%N) as (k & Hk & Hlt & Hgo).
  { apply N.div_lt; lia. }
  exists (10 * k). split; [lia|]. split.
  { pose proof (N.div_mod x 10 ltac:(lia)).
    pose proof (N.mod_lt x 10 ltac:(lia)). lia. }
  intros s acc. rewrite pretty_N_go_step by lia. rewrite Hgo. simpl.
  rewrite digitValue_pretty by (apply N.mod_lt; lia). f_equal.
  pose proof (N.div_mod x 10 ltac:(lia)). lia.
Qed.

Lemma pretty_go_digit (x : N) s :
  (0 < x)%N → ∃ c rest, pretty_N_go x s = String c rest
                        ∧ digitValue c ≠ None.
Proof.
  revert s. induction (N.lt_wf_0 x) as [x _ IH]; intros s Hx.
  rewrite pretty_N_go_step by done.
  destruct (decide (x `div` 10 = 0)%N) as [->|Hd].
  - rewrite pretty_N_go_0. eexists _, _. split; [done|].
    rewrite digitValue_pretty by (apply N.mod_lt; lia). done.
  - apply IH; [apply N.div_lt; lia|by apply N.neq_0_lt_0].
Qed.

Lemma digit_not_sign c :
  digitValue c ≠ None → c ≠ "-"%char ∧ c ≠ "+"%char.
Proof. intros H. split; intros ->; by apply H. Qed.

Lemma Atoi_unsigned s c rest :
  s = String c rest → digitValue c ≠ None →
  Atoi s = match parseDigits s 0 with
           | Some v => if (- 2 ^ 63 <=? v) && (v <=? 2 ^ 63 - 1)
                       then Some v else None
           | None => None
           end.
Proof.
  intros -> Hc. apply digit_not_sign in Hc as [H1 H2]. unfold Atoi.
  destruct c as [[] [] [] [] [] [] [] []]; try done.
Qed.

Lemma Atoi_negative d :
  d ≠ "" →
  Atoi (String "-" d)
  = match parseDigits d 0 with
    | Some v => if (- 2 ^ 63 <=? - v) && (- v <=? 2 ^ 63 - 1)
                then Some (- v) else None
    | None => None
    end.
Proof. intros Hd. unfold Atoi. by destruct d. Qed.

Lemma Atoi_Itoa (n : Z) :
  Atoi (Itoa n)
  = if (- 2 ^ 63 <=? n) && (n <=? 2 ^ 63 - 1) then Some n else None.
Proof.
  unfold Itoa, pretty, pretty_Z. destruct n as [|p|p].
  - reflexivity.
  - unfold pretty, pretty_positive, pretty, pretty_N.
    destruct (decide (N.pos p = 0%N)); [done|].
    destruct (pretty_go_digit (N.pos p) "" ltac:(lia)) as (c & rest & Hs & Hc).
    rewrite (Atoi_unsigned _ c rest Hs Hc).
    destruct (parseDigits_pretty_go (N.pos p)) as (k & _ & _ & ->). simpl.
    done.
  - unfold pretty, pretty_positive, pretty, pretty_N.
    destruct (decide (N.pos p = 0%N)); [done|].
    destruct (pretty_go_digit (N.pos p) "" ltac:(lia)) as (c & rest & Hs & Hc).
    change ("-" +:+ pretty_N_go (N.pos p) "")
      with (String "-" (pretty_N_go (N.pos p) "")).
    rewrite Atoi_negative by (by rewrite Hs).
    destruct (parseDigits_pretty_go (N.pos p)) as (k & _ & _ & ->). simpl.
    done.
Qed.

End Decimal.

(** ** The calls a computation makes *)

Section Emits.
Import GoStrings Errors World Traffic Spec Preds.

Lemma emits_ret {A} (P : Call → Prop) (Q : A → Prop) (a : A) :
  Q a → emits P Q (ret a).
Proof. intros Ha env t. exists []. by rewrite app_nil_r. Qed.

Lemma emits_bind {A B} (P : Call → Prop) (Q : A → Prop) (R : B → Prop)
    (m : M A) (k : A → M B) :
  emits P Q m → (∀ a, Q a → emits P R (k a)) → emits P R (bind m k).
Proof.
  intros Hm Hk env t. rewrite bind_run.
  destruct (Hm env t) as (c1 & E1 & F1 & Ha).
  destruct (Hk _ Ha env (m env t).2) as (c2 & E2 & F2 & Hb).
  exists (c1 ++ c2). split; [by rewrite E2, E1, <- app_assoc|].
  split; [by apply Forall_app|done].
Qed.

Lemma emits_call {A} (P : Call → Prop) (Q : A → Prop) (c : Call)
    (answer : Env → Trace → A) :
  P c → (∀ env t, Q (answer env t)) → emits P Q (call c answer).
Proof.
  intros Hc Ha env t. exists [c]. split; [done|]. split; [|apply Ha].
  by apply Forall_singleton.
Qed.

Lemma emits_weaken {A} (P P' : Call → Prop) (Q Q' : A → Prop) (m : M A) :
  (∀ c, P c → P' c) → (∀ a, Q a → Q' a) → emits P Q m → emits P' Q' m.
Proof.
  intros HP HQ Hm env t. destruct (Hm env t) as (calls & E & F & Ha).
  exists calls. split; [done|]. split; [|by apply HQ].
  eapply Forall_impl; [exact F|exact HP].
Qed.

End Emits.

Ltac emits_prim :=
  first
    [ apply emits_ret; try done
    | apply emits_call; [try done|try done] ].

Ltac emits_step :=
  lazymatch goal with
  | |- Preds.emits _ _ (World.bind _ _) =>
      eapply (emits_bind _ (λ _, True)); [|intros ? _]
  | |- Preds.emits _ _ (World.ret _) => apply emits_ret; try done
  | |- Preds.emits _ _ (World.call _ _) =>
      apply emits_call; [try done|try done]
  | |- Preds.emits _ _ (match ?x with _ => _ end) => destruct x eqn:?
  end.

Section ProfileCalls.
Import GoStrings Errors World Traffic Spec Preds.

Lemma emits_execCommand P name args opts :
  P (CallRun name args) → emits P (λ _, True) (execCommand name args opts).
Proof.
  intros HP. unfold execCommand, Run. repeat emits_step.
Qed.

Lemma keepsMTU_exec name args opts :
  emits keepsMTU (λ _, True) (execCommand name args opts).
Proof. by apply emits_execCommand. Qed.

Lemma keepsMTU_ensureIfbWith link name mtu qlen :
  emits keepsMTU (λ _, True) (ensureIfbWith link name mtu qlen).
Proof.
  unfold ensureIfbWith, run, LinkByName.
  repeat first [apply keepsMTU_exec | emits_step].
Qed.

Lemma keepsMTU_ensureIfb name mtu qlen :
  emits keepsMTU (λ _, True) (ensureIfb name mtu qlen).
Proof.
  unfold ensureIfb, run, LinkByName.
  repeat first [apply keepsMTU_exec | apply keepsMTU_ensureIfbWith | emits_step].
Qed.

Lemma keepsMTU_applyEachOffload iface settings :
  emits keepsMTU (λ _, True) (applyEachOffload iface settings).
Proof.
  induction settings as [|setting rest IH]; simpl; [by apply emits_ret|].
  unfold runOptional. repeat first [apply keepsMTU_exec | exact IH | emits_step].
Qed.

Lemma keepsMTU_ensureOffloads iface settings :
  emits keepsMTU (λ _, True) (ensureOffloads iface settings).
Proof.
  unfold ensureOffloads, readEthtoolFeatures, runGetOutput, runOptional, Run.
  repeat first [apply keepsMTU_exec | apply keepsMTU_applyEachOffload
               | emits_step].
Qed.

Lemma keepsMTU_steps pc :
  desiredMTU pc = MTU (attrs pc) →
  emits keepsMTU (λ _, True) (runProfileSteps pc profileSteps).
Proof.
  intros Hmtu. unfold profileSteps. cbn [runProfileSteps].
  unfold configureLinkParamsStep, configureRootQdiscStep,
    configureIngressAndIfbStep, ensureOffloadsStep, replaceFilter, run,
    runQuiet, LinkByName, LinkSetTxQLen.
  rewrite Hmtu, Z.eqb_refl. cbn [negb].
  repeat first [apply keepsMTU_exec | apply keepsMTU_ensureIfb
               | apply keepsMTU_ensureOffloads | emits_step].
Qed.

Lemma keepsMTU_build s a profile profileName :
  mtuOverride profile = "" →
  emits keepsMTU
    (λ built, ∀ pc, built = BuildContext pc → desiredMTU pc = MTU (attrs pc))
    (buildProfileContext s (Some a) profile profileName).
Proof.
  intros Hov. unfold buildProfileContext.
  destruct (validateProfileInput (Some a) profileName) as [a'|err] eqn:Hv;
    [|by apply emits_ret].
  assert (a' = a) as ->.
  { unfold validateProfileInput in Hv. destruct (String.eqb (Name a) ""); congruence. }
  unfold deriveProfileParameters. rewrite Hov. cbn [negb String.eqb].
  eapply (emits_bind _ (λ _, True)).
  { unfold isAlreadyConfigured, LinkByName. repeat emits_step. }
  intros skip _. destruct skip; [by apply emits_ret|].
  unfold parseProfileParameters. rewrite Atoi_Itoa.
  destruct ((- 2 ^ 63 <=? MTU a) && (MTU a <=? 2 ^ 63 - 1)); [|by apply emits_ret].
  destruct ((MTU a <? MinMTU) || (MaxMTU <? MTU a)); [by apply emits_ret|].
  destruct (Atoi (queueLength profile)) as [q|]; [|by apply emits_ret].
  destruct ((q <? MinQueueLen) || (MaxQueueLen <? q)); [by apply emits_ret|].
  apply emits_ret. by intros pc [= <-].
Qed.

(** X11.  For a profile without an MTU override, configureProfile never
    calls netlink LinkSetMTU, whatever the environment answers: the desired
    MTU is then the interface's own. *)
Theorem configureProfile_keeps_mtu (s : Shaper) (a : LinkAttrs)
    (profile : shapingProfile) (profileName : string) :
  mtuOverride profile = "" →
  emits (λ c, setsMTU c = false) (λ _, True)
        (configureProfile s (Some a) profile profileName).
Proof.
  intros Hov. unfold configureProfile.
  eapply emits_bind; [by apply keepsMTU_build|].
  intros built Hb. destruct built as [err| |pc]; try by apply emits_ret.
  eapply (emits_bind _ (λ _, True)); [by apply keepsMTU_steps, Hb|].
  intros err _. destruct err; by apply emits_ret.
Qed.

Lemma configureProfile_keeps_mtu_witness :
  mtuOverride physicalProfile = ""
  ∧ emits (λ c, setsMTU c = false) (λ _, True)
          (configureProfile initialShaper (Some eth0) physicalProfile
                            "external-physical").
Proof.
  split; [reflexivity|].
  apply (configureProfile_keeps_mtu initialShaper eth0 physicalProfile
           "external-physical").
  reflexivity.
Defined.

End ProfileCalls.

(** ** Cleanup around an apply pass, and pending changes *)

Section Cleanup.
Import GoStrings Errors World Traffic Spec Preds.

Lemma pruneStaleIfbs_emits links required :
  emits (λ c, ∃ name, deletes c = Some name
                      ∧ HasPrefix name IfbPrefix = true ∧ name ∉ required)
        (λ err, err = None)
        (pruneStaleIfbs links required).
Proof.
  induction links as [|link rest IH]; simpl; [by apply emits_ret|].
  destruct (Attrs link) as [a|] eqn:Ha; [|exact IH].
  destruct (HasPrefix (Name a) IfbPrefix) eqn:Hp; [|exact IH].
  destruct (bool_decide (Name a ∈ required)) eqn:Hr; [exact IH|].
  apply bool_decide_eq_false in Hr.
  eapply (emits_bind _ (λ _, True)).
  { apply emits_call; [|done]. exists (Name a). simpl. by rewrite Ha. }
  intros [e|] _; [|exact IH].
  eapply (emits_bind _ (λ _, True)); [|intros ? _; exact IH].
  apply emits_execCommand. by exists (Name a).
Qed.

Lemma pruneStaleIfbs_complete links required env t link a :
  link ∈ links → Attrs link = Some a → HasPrefix (Name a) IfbPrefix = true →
  Name a ∉ required →
  CallLinkDel link ∈ (pruneStaleIfbs links required env t).2.
Proof.
  intros Hin Ha Hp Hr.
  assert (∀ ls t', CallLinkDel link ∈ t' →
                   CallLinkDel link ∈ (pruneStaleIfbs ls required env t').2)
    as Hkeep.
  { intros ls t' Hin'.
    destruct (pruneStaleIfbs_emits ls required env t') as (calls & -> & _).
    apply elem_of_app. by left. }
  revert t. induction links as [|l rest IH]; intros t; [by apply elem_of_nil in Hin|].
  apply elem_of_cons in Hin as [<-|Hin].
  - simpl. rewrite Ha, Hp. rewrite (bool_decide_eq_false_2 _ Hr).
    rewrite bind_run. unfold LinkDel, call. cbn [fst snd].
    destruct (envLinkDel env t link).
    + rewrite bind_run. apply Hkeep.
      destruct (emits_execCommand (λ _, True) "ip" ["link"; "del"; Name a]
                  (mkOpts [] true) I env (t ++ [CallLinkDel link]))
        as (calls & E & _).
      unfold runQuiet. rewrite E. rewrite !elem_of_app, list_elem_of_singleton.
      auto.
    + apply Hkeep. rewrite elem_of_app, list_elem_of_singleton. auto.
  - simpl. destruct (Attrs l) as [a'|]; [|by apply IH].
    destruct (HasPrefix (Name a') IfbPrefix); [|by apply IH].
    destruct (bool_decide _); [by apply IH|].
    rewrite bind_run. destruct (LinkDel l env t).1; [|by apply IH].
    rewrite bind_run. by apply IH.
Qed.

(** X12.  Every call pruneStaleIfbs makes deletes an interface whose name
    starts with ifb4 and is not in the required set; every listed link of
    that kind is deleted through netlink; the function returns nil. With the
    required set that determineRequiredIfbs computes from the same links,
    the IFB of no interface that needs one is deleted. *)
Theorem pruneStaleIfbs_safe (links : list Link) (required : gset string) :
  emits (λ c, ∃ name, deletes c = Some name
                      ∧ HasPrefix name IfbPrefix = true ∧ name ∉ required)
        (λ err, err = None)
        (pruneStaleIfbs links required)
  ∧ (∀ env t link a,
       link ∈ links → Attrs link = Some a →
       HasPrefix (Name a) IfbPrefix = true → Name a ∉ required →
       CallLinkDel link ∈ (pruneStaleIfbs links required env t).2)
  ∧ (∀ fs ic env t link ifb c,
       classifierInv fs ic → link ∈ links →
       requiredIfb fs (externalLinkIndexes ic) link = Some ifb →
       c ∈ drop (length t)
              (pruneStaleIfbs links (determineRequiredIfbs fs ic links ∅).1
                              env t).2 →
       deletes c ≠ Some ifb).
Proof.
  split; [apply pruneStaleIfbs_emits|]. split.
  { intros env t link a. apply pruneStaleIfbs_complete. }
  intros fs ic env t link ifb c Hinv Hin Hreq Hc.
  destruct (pruneStaleIfbs_emits links (determineRequiredIfbs fs ic links ∅).1
              env t) as (calls & E & F & _).
  rewrite E, drop_app_length in Hc. rewrite Forall_forall in F.
  destruct (F c Hc) as (name & Hd & _ & Hnot). rewrite Hd. intros [= ->].
  apply Hnot. rewrite determineRequiredIfbs_spec by done.
  apply elem_of_union. left. apply elem_of_list_to_set, list_elem_of_omap.
  by exists link.
Qed.

Lemma execCommand_trace name args opts env t :
  (execCommand name args opts env t).2 = t ++ [CallRun name args].
Proof.
  unfold execCommand. rewrite bind_run. unfold Run, call. cbn [fst snd].
  destruct (envRun env t name args).2 as [e|]; [|done].
  destruct (extCanceled e); [done|]. by destruct (_ && _).
Qed.

Lemma cleanupSkippedInterface_trace name env t :
  (cleanupSkippedInterface name env t).2 = t ++ cleanupCalls name.
Proof.
  unfold cleanupSkippedInterface, runQuiet. rewrite !bind_run. cbn [snd ret].
  rewrite !execCommand_trace. by rewrite <- !app_assoc.
Qed.

Lemma cleanupSkippedVirtualInterfaces_trace links env t :
  cleanupSkippedVirtualInterfaces links env t
  = (None, t ++ concat (cleanupCalls <$> skippedNames links)).
Proof.
  revert t. induction links as [|link rest IH]; intros t.
  { simpl. by rewrite app_nil_r. }
  unfold skippedNames. cbn [cleanupSkippedVirtualInterfaces omap list_omap].
  fold (skippedNames rest).
  destruct (Attrs link) as [a|]; [|apply IH].
  destruct (HasPrefix (Name a) "ifb" || hasFlag (Flags a) FlagLoopback);
    [apply IH|].
  destruct (hasInternalVirtualPrefix (Name a)); cbn [negb]; [|apply IH].
  rewrite bind_run, IH, cleanupSkippedInterface_trace.
  cbn [fmap list_fmap concat]. by rewrite <- app_assoc.
Qed.

(** X13.  ensureInitialCleanup cleans up at most once per shaper: a first
    call issues, for each listed interface with an internal virtual prefix
    that is neither an ifb nor a loopback, the two tc qdisc deletions and
    the deletion of its IFB, in order, and sets the flag; with the flag set
    a call makes no call and changes nothing. *)
Theorem ensureInitialCleanup_once (s : Shaper) (links : list Link) (env : Env)
    (t : Trace) :
  let r := ensureInitialCleanup s links env t in
  r.1 = withInitialCleanup s true
  ∧ r.2 = t ++ (if didInitialCleanup s then []
                else concat (cleanupCalls <$> skippedNames links))
  ∧ (∀ name, name ∈ skippedNames links →
             hasInternalVirtualPrefix name = true
             ∧ HasPrefix name "ifb" = false)
  ∧ (∀ links' env' t', ensureInitialCleanup r.1 links' env' t' = (r.1, t')).
Proof.
  cbn zeta. unfold ensureInitialCleanup.
  destruct (didInitialCleanup s) eqn:Hd.
  - cbn [ret fst snd]. rewrite app_nil_r, Hd.
    split; [by destruct s; simpl in *; subst|]. split; [done|]. split; [|done].
    intros name (link & Hin & Hs)%list_elem_of_omap.
    destruct (Attrs link) as [a|]; [|done].
    destruct (HasPrefix (Name a) "ifb") eqn:Hp; [done|]. simpl in Hs.
    destruct (hasFlag _ _); [done|].
    destruct (hasInternalVirtualPrefix (Name a)) eqn:Hi; [|done].
    by injection Hs as <-.
  - rewrite bind_run, cleanupSkippedVirtualInterfaces_trace. cbn [ret fst snd].
    split; [done|]. split; [done|]. split; [|done].
    intros name (link & Hin & Hs)%list_elem_of_omap.
    destruct (Attrs link) as [a|]; [|done].
    destruct (HasPrefix (Name a) "ifb") eqn:Hp; [done|]. simpl in Hs.
    destruct (hasFlag _ _); [done|].
    destruct (hasInternalVirtualPrefix (Name a)) eqn:Hi; [|done].
    by injection Hs as <-.
Qed.

End Cleanup.

Section PendingCover.
Import GoStrings Errors World Traffic Spec Preds.

Lemma covers_AddLink p u name :
  covers p name → covers (AddLink p u) name.
Proof.
  unfold covers, AddLink. intros [H|H].
  - by rewrite H; left.
  - destruct (all p) eqn:Ha; [by left|].
    destruct (namedAttrs _); simpl; [right; set_solver|by left].
Qed.

Lemma covers_AddAddr p u env t name :
  covers p name → covers (AddAddr p u env t).1 name.
Proof.
  unfold covers, AddAddr. intros [H|H].
  - rewrite H. by left.
  - destruct (all p) eqn:Ha; [by left|]. rewrite bind_run.
    destruct (safeGetLinkAttrs _ env t).1 as [attrs|]; [|by left].
    destruct (String.eqb (Name attrs) ""); simpl; [by left|right; set_solver].
Qed.

Lemma covers_handleEvents p evs env t name :
  covers p name → covers (handleEvents p evs env t).1 name.
Proof.
  revert p t. induction evs as [|ev evs IH]; intros p t Hc; [done|].
  simpl. rewrite bind_run. apply IH. destruct ev; simpl.
  - by apply covers_AddLink.
  - by apply covers_AddAddr.
Qed.

(** X14.  A change recorded in pendingChanges is not lost before the next
    snapshot: a name that is covered (apply-all is set, or the name is in
    the set) stays covered under any further events; a link update that
    names an interface covers it, and so does an address update whose link
    index resolves to it; snapshot returns apply-all or a name set that
    holds every covered name. *)
Theorem pending_covers (p : pendingChanges) (env : Env) (t : Trace)
    (name : string) :
  (∀ evs, covers p name → covers (handleEvents p evs env t).1 name)
  ∧ (∀ u, namedAttrs (Attrs (updLink u)) = Some name →
          covers (AddLink p u) name)
  ∧ (∀ u attrs, envLinkByIndex env t (updLinkIndex u) = Ok (mkLink (Some attrs)) →
                Name attrs = name → covers (AddAddr p u env t).1 name)
  ∧ (∀ before u after,
       namedAttrs (Attrs (updLink u)) = Some name →
       covers (handleEvents p (before ++ LinkEvent u :: after) env t).1 name)
  ∧ (covers p name →
     (snapshot p).1 = true
     ∨ ∃ selected, (snapshot p).2 = Some selected ∧ name ∈ selected).
Proof.
  assert (∀ p' u, namedAttrs (Attrs (updLink u)) = Some name →
                  covers (AddLink p' u) name) as Hlink.
  { intros p' u Hn. unfold covers, AddLink.
    destruct (all p') eqn:Ha; [by left|]. rewrite Hn. right. simpl. set_solver. }
  split; [intros evs; apply covers_handleEvents|]. split; [apply Hlink|]. split.
  { intros u attrs Hidx Hn. unfold covers, AddAddr.
    destruct (all p) eqn:Ha; [by left|]. rewrite bind_run.
    unfold safeGetLinkAttrs. rewrite bind_run. unfold LinkByIndex, call.
    cbn [fst snd]. rewrite Hidx. cbn [Attrs ret fst snd]. rewrite Hn.
    destruct (String.eqb name ""); simpl; [by left|right; set_solver]. }
  split.
  { intros before u after Hn.
    assert (∀ evs1 evs2 p0 t0,
              handleEvents p0 (evs1 ++ evs2) env t0
              = handleEvents (handleEvents p0 evs1 env t0).1 evs2 env
                             (handleEvents p0 evs1 env t0).2) as Happ.
    { induction evs1 as [|e evs1 IH1]; intros evs2 p0 t0; [done|].
      simpl. rewrite !bind_run. apply IH1. }
    rewrite Happ. simpl. rewrite bind_run. apply covers_handleEvents.
    simpl. by apply Hlink. }
  intros [Ha|Hin]; unfold snapshot.
  - rewrite Ha. by left.
  - destruct (all p); [by left|]. right.
    destruct (bool_decide (names p = ∅)) eqn:E.
    + apply bool_decide_eq_true in E. rewrite E in Hin. set_solver.
    + by exists (names p).
Qed.

End PendingCover.

(** ** Configuration defaults and error values *)

Section ConfigDefaults.
Import Config.

Lemma orDefault_pos value fallback : 0 < fallback → 0 < orDefault value fallback.
Proof. unfold orDefault. destruct (value <=? 0) eqn:E; lia. Qed.

Lemma orDefault_keep value fallback : 0 < value → orDefault value fallback = value.
Proof. unfold orDefault. destruct (value <=? 0) eqn:E; lia. Qed.

Lemma leb_pos_false v : 0 < v → (v <=? 0) = false.
Proof. lia. Qed.

(** X15.  After ApplyDefaults the only complaint Validate can still raise is
    a standard MSS that is not below the standard MTU. ApplyDefaults is
    idempotent; of a configuration that already validates it changes at most
    InternalRTT, LoopbackRTT and LoopbackWindowBytes; applied to the zero
    configuration it gives Default(). *)
Theorem ApplyDefaults_Validate (c : Config) :
  let d := ApplyDefaults c in
  Validate d
  = (if StandardMTU (Network d) <=? StandardMSS (Network d)
     then Some "network.standard_mss must be positive and less than MTU"
     else None)
  ∧ ApplyDefaults d = d
  ∧ (Validate c = None →
     d = {| Network :=
              {| StandardMTU := StandardMTU (Network c);
                 StandardMSS := StandardMSS (Network c);
                 LoopbackMTU := LoopbackMTU (Network c);
                 LoopbackMSS := LoopbackMSS (Network c);
                 DefaultTxQueueLen := DefaultTxQueueLen (Network c);
                 LoopbackTxQueueLen := LoopbackTxQueueLen (Network c);
                 InternalRTT :=
                   orDefault (InternalRTT (Network c)) defaultInternalRTT;
                 LoopbackRTT :=
                   orDefault (LoopbackRTT (Network c)) defaultLoopbackRTT |};
            Traffic :=
              {| Routes :=
                   {| MSSBytes := MSSBytes (Routes (Traffic c));
                      InitCwndBytes := InitCwndBytes (Routes (Traffic c));
                      InitRwndBytes := InitRwndBytes (Routes (Traffic c));
                      LoopbackWindowBytes :=
                        orDefault (LoopbackWindowBytes (Routes (Traffic c)))
                                  defaultLoopbackWindowBytes |};
                 Watcher := Watcher (Traffic c) |} |})
  ∧ ApplyDefaults
      (mkConfig (mkNetworkConfig 0 0 0 0 0 0 0 0)
                (mkTrafficConfig (mkRouteConfig 0 0 0 0) (mkWatcherConfig 0 0 0)))
    = Default.
Proof.
  destruct c as [[mtu mss lmtu lmss q lq irtt lrtt] [[rmss cw rw lw] [ri ci at']]].
  cbn zeta. split; [|split; [|split; [|reflexivity]]].
  - unfold Validate, ApplyDefaults.
    cbn [Network Traffic Routes Watcher StandardMTU StandardMSS LoopbackMTU
         LoopbackMSS DefaultTxQueueLen LoopbackTxQueueLen MSSBytes
         InitCwndBytes InitRwndBytes ReapplyInterval CleanupInterval
         ApplyTimeout].
    rewrite !leb_pos_false by (by apply orDefault_pos).
    cbn [orb]. reflexivity.
  - unfold ApplyDefaults.
    cbn [Network Traffic Routes Watcher StandardMTU StandardMSS LoopbackMTU
         LoopbackMSS DefaultTxQueueLen LoopbackTxQueueLen MSSBytes
         InitCwndBytes InitRwndBytes LoopbackWindowBytes InternalRTT
         LoopbackRTT ReapplyInterval CleanupInterval ApplyTimeout].
    rewrite !(orDefault_keep (orDefault _ _)) by (by apply orDefault_pos).
    reflexivity.
  - unfold Validate, ApplyDefaults.
    cbn [Network Traffic Routes Watcher StandardMTU StandardMSS LoopbackMTU
         LoopbackMSS DefaultTxQueueLen LoopbackTxQueueLen MSSBytes
         InitCwndBytes InitRwndBytes LoopbackWindowBytes InternalRTT
         LoopbackRTT ReapplyInterval CleanupInterval ApplyTimeout].
    intros H.
    repeat match type of H with
           | (if ?b then _ else _) = None =>
               destruct b eqn:?; [discriminate H|]
           end.
    repeat match goal with
           | E : (_ || _) = false |- _ => apply orb_false_elim in E as [? ?]
           end.
    rewrite (orDefault_keep mtu), (orDefault_keep mss), (orDefault_keep lmtu),
      (orDefault_keep lmss), (orDefault_keep q), (orDefault_keep lq),
      (orDefault_keep rmss), (orDefault_keep cw), (orDefault_keep rw),
      (orDefault_keep ri), (orDefault_keep ci), (orDefault_keep at') by lia.
    reflexivity.
Qed.

End ConfigDefaults.

Section ErrorValues.
Import Errors.

Lemma orElse_assoc a b c : orElse c (orElse b a) = orElse (orElse c b) a.
Proof.
  unfold orElse. destruct (String.eqb c "") eqn:Ec; [|by rewrite Ec].
  by destruct (String.eqb b "").
Qed.

Lemma orElse_empty_l a : orElse "" a = a.
Proof. reflexivity. Qed.

Lemma orElse_empty_r a : orElse a "" = a.
Proof.
  unfold orElse. destruct (String.eqb a "") eqn:E; [|done].
  by apply String.eqb_eq in E.
Qed.

(** X16.  ErrorContext.Merge is associative, and the empty context is its
    identity on both sides. *)
Theorem Merge_monoid (a b c : ErrorContext) :
  Merge (Merge a b) c = Merge a (Merge b c)
  ∧ Merge a emptyContext = a
  ∧ Merge emptyContext a = a.
Proof.
  destruct a, b, c. unfold Merge, emptyContext; simpl.
  split; [|split].
  - rewrite !orElse_assoc. f_equal. by rewrite (assoc_L (∪)).
  - rewrite (left_id_L ∅ (∪)). reflexivity.
  - rewrite !orElse_empty_r. by rewrite (right_id_L ∅ (∪)).
Qed.

(** X17.  Adding errors to a MultiError keeps exactly the non-nil ones, in
    order; Len counts them; ErrorOrNil is nil exactly when every added error
    was nil, and otherwise is the MultiError that holds them. *)
Theorem MultiError_collect (errs : list (option GoError)) :
  let m := foldl Add [] errs in
  m = omap id errs
  ∧ Len m = Z.of_nat (length (omap id errs))
  ∧ (ErrorOrNil m = None ↔ Forall (λ err, err = None) errs)
  ∧ (∀ e, ErrorOrNil m = Some e → e = Multi (omap id errs)).
Proof.
  assert (∀ acc, foldl Add acc errs = acc ++ omap id errs) as H.
  { induction errs as [|[e|] errs IH]; intros acc; simpl.
    - by rewrite app_nil_r.
    - rewrite IH. by rewrite <- app_assoc.
    - apply IH. }
  cbn zeta. rewrite H. simpl. split; [done|]. split; [done|]. split.
  - split.
    + intros Hn. destruct (omap id errs) eqn:E; [|done].
      clear H Hn. induction errs as [|[e|] errs IH]; [done|done|].
      constructor; [done|]. by apply IH.
    + intros Hall. assert (omap id errs = []) as ->; [|done].
      clear H. induction Hall as [|? ? -> ? IH]; [done|]. exact IH.
  - intros e. destruct (omap id errs); [done|]. by intros [= <-].
Qed.

End ErrorValues.

(** ** Traffic mode detection *)

Section Modes.
Import GoStrings Errors TrafficModes Preds.




End Modes.

(** ** Strings: lines *)

Section Lines.
Import GoStrings Preds.

Lemma prefix_empty (s : string) : String.prefix "" s = true.
Proof. by destruct s. Qed.

Lemma prefix_single (b c : ascii) (s : string) :
  String.prefix (String b "") (String c s) = Ascii.eqb c b.
Proof.
  simpl. destruct (ascii_dec b c) as [->|Hne].
  - by rewrite prefix_empty, Ascii.eqb_refl.
  - symmetry. apply Ascii.eqb_neq. congruence.
Qed.

Lemma allBytes_trimLeft p s : allBytes p s = true → allBytes p (trimLeft s) = true.
Proof.
  induction s as [|c s IH]; simpl; [done|].
  intros [Hc Hs]%andb_true_iff. destruct (Ascii.is_space c); [by apply IH|].
  simpl. by rewrite Hc, Hs.
Qed.

Lemma allBytes_trimRight p s : allBytes p s = true → allBytes p (trimRight s) = true.
Proof.
  induction s as [|c s IH]; simpl; [done|].
  intros [Hc Hs]%andb_true_iff.
  destruct (Ascii.is_space c && String.eqb (trimRight s) ""); [done|].
  simpl. by rewrite Hc, IH.
Qed.

Lemma allBytes_TrimSpace p s : allBytes p s = true → allBytes p (TrimSpace s) = true.
Proof. intros H. by apply allBytes_trimRight, allBytes_trimLeft. Qed.

Lemma allBytes_takeBytes p n s : allBytes p s = true → allBytes p (takeBytes n s) = true.
Proof.
  revert s. induction n as [|n IH]; intros [|c s]; simpl; try done.
  intros [Hc Hs]%andb_true_iff. by rewrite Hc, IH.
Qed.

Lemma allBytes_dropBytes p n s : allBytes p s = true → allBytes p (dropBytes n s) = true.
Proof.
  revert s. induction n as [|n IH]; intros [|c s]; simpl; try done.
  intros [Hc Hs]%andb_true_iff. by apply IH.
Qed.

(** *** Splitting at newlines *)

Lemma splitAux_single (b : ascii) s cur :
  splitAux (String b "") s 0 cur
  = match s with
    | EmptyString => [cur]
    | String c rest =>
        if Ascii.eqb c b then cur :: splitAux (String b "") rest 0 ""
        else splitAux (String b "") rest 0 (cur +:+ String c "")
    end.
Proof. destruct s as [|c rest]; [done|]. cbn [splitAux]. by rewrite prefix_single. Qed.

Lemma app_single_assoc (cur : string) (c : ascii) (a : string) :
  (cur +:+ String c "") +:+ a = cur +:+ String c a.
Proof. by rewrite app_assoc_s. Qed.

Lemma splitAux_app (b : ascii) a rest cur :
  splitAux (String b "") (a +:+ String b rest) 0 cur
  = splitAux (String b "") a 0 cur ++ splitAux (String b "") rest 0 "".
Proof.
  revert cur. induction a as [|c a IH]; intros cur.
  - change ("" +:+ String b rest) with (String b rest).
    rewrite splitAux_single, Ascii.eqb_refl. done.
  - rewrite app_cons, !(splitAux_single b (String c _)).
    destruct (Ascii.eqb c b); [by rewrite IH|apply IH].
Qed.

Lemma splitAux_none (b : ascii) a cur :
  noByte b a = true → splitAux (String b "") a 0 cur = [cur +:+ a].
Proof.
  revert cur. induction a as [|c a IH]; intros cur Ha.
  - by rewrite app_empty_r.
  - simpl in Ha. apply andb_true_iff in Ha as [Hc Ha].
    apply negb_true_iff in Hc. rewrite splitAux_single, Hc, IH by done.
    by rewrite app_single_assoc.
Qed.

Lemma splitAux_pieces (b : ascii) s cur :
  noByte b cur = true →
  Forall (λ l, noByte b l = true) (splitAux (String b "") s 0 cur).
Proof.
  revert cur. induction s as [|c s IH]; intros cur Hcur.
  - by apply Forall_singleton.
  - rewrite splitAux_single. destruct (Ascii.eqb c b) eqn:E.
    + constructor; [done|]. by apply IH.
    + apply IH. unfold noByte. rewrite allBytes_app. simpl.
      unfold noByte in Hcur. by rewrite Hcur, E.
Qed.

Lemma Split_pieces (b : ascii) s :
  Forall (λ l, noByte b l = true) (Split s (String b "")).
Proof. by apply splitAux_pieces. Qed.

Lemma splitAux_nonempty (b : ascii) s cur :
  splitAux (String b "") s 0 cur ≠ [].
Proof.
  revert cur. induction s as [|c s IH]; intros cur; [done|].
  rewrite splitAux_single. destruct (Ascii.eqb c b); [done|apply IH].
Qed.

Lemma Split_nonempty (b : ascii) s : Split s (String b "") ≠ [].
Proof. apply splitAux_nonempty. Qed.

Lemma Split_Join (b : ascii) ls :
  ls ≠ [] → Forall (λ l, noByte b l = true) ls →
  Split (Join ls (String b "")) (String b "") = ls.
Proof.
  unfold Split, Join. induction ls as [|l ls IH]; intros Hne Hls; [done|].
  apply Forall_cons in Hls as [Hl Hls]. destruct ls as [|l' ls'].
  - simpl. by rewrite splitAux_none.
  - change (String.concat (String b "") (l :: l' :: ls'))
      with (l +:+ String b (String.concat (String b "") (l' :: ls'))).
    rewrite splitAux_app, splitAux_none by done. simpl. f_equal.
    by apply IH.
Qed.

Lemma Join_snoc_empty (sep : string) ls :
  ls ≠ [] → Join (ls ++ [""]) sep = Join ls sep +:+ sep.
Proof.
  unfold Join. induction ls as [|l ls IH]; intros Hne; [done|].
  destruct ls as [|l' ls'].
  - simpl. by rewrite app_empty_r.
  - change (String.concat sep ((l :: l' :: ls') ++ [""]))
      with (l +:+ sep +:+ String.concat sep ((l' :: ls') ++ [""])).
    rewrite IH by done.
    change (String.concat sep (l :: l' :: ls'))
      with (l +:+ sep +:+ String.concat sep (l' :: ls')).
    by rewrite !app_assoc_s.
Qed.

End Lines.

(** ** Strings: trimming and searching *)

Section Trimming.
Import GoStrings Preds.

Lemma trimLeft_head s : trimLeft s = "" ∨ headNotSpace (trimLeft s) = true.
Proof.
  induction s as [|c s IH]; simpl; [by left|].
  destruct (Ascii.is_space c) eqn:E; [done|]. right. simpl.
  unfold notSpace. by rewrite E.
Qed.

Lemma trimRight_head s :
  headNotSpace s = true → headNotSpace (trimRight s) = true.
Proof.
  destruct s as [|c s]; simpl; [done|]. unfold notSpace.
  intros H%negb_true_iff. rewrite H. simpl. unfold notSpace. by rewrite H.
Qed.

Lemma trimRight_last s : trimRight s = "" ∨ lastNotSpace (trimRight s) = true.
Proof.
  induction s as [|c s IH]; simpl; [by left|].
  destruct (Ascii.is_space c) eqn:E; simpl.
  - destruct (String.eqb_spec (trimRight s) "") as [H|H]; [by left|].
    right. simpl. destruct IH as [?|IH]; [done|].
    by destruct (trimRight s).
  - right. simpl. destruct IH as [->|IH]; [unfold notSpace; by rewrite E|].
    by destruct (trimRight s).
Qed.

Lemma TrimSpace_tight s : TrimSpace s = "" ∨ isTight (TrimSpace s) = true.
Proof.
  unfold TrimSpace, isTight.
  destruct (trimRight_last (trimLeft s)) as [H|H]; [by left|]. right.
  rewrite H, andb_true_r.
  destruct (trimLeft_head s) as [E|E]; [rewrite E in H; done|].
  by apply trimRight_head.
Qed.

Lemma trimLeft_id s : headNotSpace s = true → trimLeft s = s.
Proof.
  destruct s as [|c s]; simpl; [done|]. unfold notSpace.
  intros H%negb_true_iff. by rewrite H.
Qed.

Lemma lastNotSpace_nonempty s : lastNotSpace s = true → s ≠ "".
Proof. by destruct s. Qed.

Lemma trimRight_app k x :
  lastNotSpace k = true → trimRight (k +:+ x) = k +:+ trimRight x.
Proof.
  induction k as [|c k IH]; [done|]. intros Hk.
  rewrite !app_cons. cbn [trimRight]. destruct k as [|c' k'].
  - simpl in Hk. unfold notSpace in Hk. apply negb_true_iff in Hk.
    change ("" +:+ x) with x. change ("" +:+ trimRight x) with (trimRight x).
    by rewrite Hk.
  - rewrite IH by done. rewrite app_cons.
    by destruct (Ascii.is_space c).
Qed.

Lemma trimRight_id k : lastNotSpace k = true → trimRight k = k.
Proof.
  intros Hk. rewrite <- (app_empty_r k) at 1. rewrite trimRight_app by done.
  apply app_empty_r.
Qed.

Lemma TrimSpace_id k : isTight k = true → TrimSpace k = k.
Proof.
  unfold isTight, TrimSpace. intros [H1 H2]%andb_true_iff.
  by rewrite trimLeft_id, trimRight_id.
Qed.

Lemma headNotSpace_app k x : headNotSpace k = true → headNotSpace (k +:+ x) = true.
Proof. by destruct k. Qed.

Lemma TrimSpace_app k x :
  isTight k = true → TrimSpace (k +:+ x) = k +:+ trimRight x.
Proof.
  unfold isTight, TrimSpace. intros [H1 H2]%andb_true_iff.
  rewrite trimLeft_id by (by apply headNotSpace_app).
  by apply trimRight_app.
Qed.

Lemma isWord_tight w : isWord w = true → isTight w = true.
Proof.
  unfold isWord, isTight. intros [Hne Hw]%andb_true_iff.
  destruct w as [|c w]; [done|]. simpl in Hw.
  apply andb_true_iff in Hw as [Hc Hw]. simpl headNotSpace. rewrite Hc. simpl.
  clear Hne. revert c Hc. induction w as [|c' w IH]; intros c Hc; [done|].
  simpl in Hw. apply andb_true_iff in Hw as [Hc' Hw]. by apply IH.
Qed.

(** *** strings.Index for a single byte *)

Lemma Index_single (b c : ascii) s :
  Index (String c s) (String b "")
  = if Ascii.eqb c b then 0
    else let i := Index s (String b "") in if i <? 0 then -1 else i + 1.
Proof. cbn [Index]. by rewrite prefix_single. Qed.

Lemma Index_empty (b : ascii) : Index "" (String b "") = -1.
Proof. reflexivity. Qed.

Lemma Index_range (b : ascii) s :
  -1 ≤ Index s (String b "") ∧ Index s (String b "") < Z.of_nat (String.length s) + 1.
Proof.
  induction s as [|c s IH]; [rewrite Index_empty; simpl; lia|].
  rewrite Index_single. cbn zeta. cbn [String.length].
  destruct (Ascii.eqb c b); [lia|].
  destruct (Index s (String b "") <? 0) eqn:E; lia.
Qed.

Lemma Index_none (b : ascii) s :
  Index s (String b "") < 0 ↔ noByte b s = true.
Proof.
  induction s as [|c s IH]; [by rewrite Index_empty|].
  rewrite Index_single. cbn zeta. unfold noByte in *. cbn [allBytes].
  destruct (Ascii.eqb c b); cbn [negb andb].
  - split; [lia|done].
  - pose proof (Index_range b s).
    destruct (Index s (String b "") <? 0) eqn:E.
    + split; [intros _; apply IH; lia|lia].
    + split; [lia|]. intros Hs. apply IH in Hs. lia.
Qed.

Lemma Index_head (b : ascii) s :
  Index s (String b "") = 0 ↔ HasPrefix s (String b "") = true.
Proof.
  unfold HasPrefix. destruct s as [|c s]; [done|].
  rewrite Index_single, prefix_single. cbn zeta.
  destruct (Ascii.eqb c b); [done|]. pose proof (Index_range b s).
  destruct (Index s (String b "") <? 0) eqn:E; split; try done; lia.
Qed.

Lemma takeBytes_Index (b : ascii) s :
  0 ≤ Index s (String b "") →
  noByte b (takeBytes (Z.to_nat (Index s (String b ""))) s) = true.
Proof.
  induction s as [|c s IH]; [done|].
  rewrite Index_single. cbn zeta. destruct (Ascii.eqb c b) eqn:E; [done|].
  pose proof (Index_range b s).
  destruct (Index s (String b "") <? 0) eqn:E'; [lia|]. intros _.
  replace (Z.to_nat (Index s (String b "") + 1))
    with (S (Z.to_nat (Index s (String b "")))) by lia.
  unfold noByte in *. cbn [takeBytes allBytes]. rewrite E. cbn [negb andb].
  apply IH. lia.
Qed.

Lemma Index_app (b : ascii) k x :
  noByte b k = true →
  Index (k +:+ String b x) (String b "") = Z.of_nat (String.length k).
Proof.
  induction k as [|c k IH]; intros Hk.
  - change ("" +:+ String b x) with (String b x).
    by rewrite Index_single, Ascii.eqb_refl.
  - simpl in Hk. apply andb_true_iff in Hk as [Hc Hk].
    apply negb_true_iff in Hc. rewrite app_cons, Index_single, Hc. cbn zeta.
    rewrite IH by done. cbn [String.length].
    destruct (Z.of_nat (String.length k) <? 0) eqn:E; lia.
Qed.

Lemma takeBytes_app k x : takeBytes (String.length k) (k +:+ x) = k.
Proof.
  induction k as [|c k IH]; [by destruct x|]. rewrite app_cons. simpl.
  by rewrite IH.
Qed.

(** *** strings.SplitN(s, sep, 2) for a single byte *)

Lemma splitFirst_single (b : ascii) s cur :
  (noByte b s = true ∧ splitFirst (String b "") s cur = [cur +:+ s])
  ∨ (∃ k v, s = k +:+ String b v ∧ noByte b k = true
            ∧ splitFirst (String b "") s cur = [cur +:+ k; v]).
Proof.
  revert cur. induction s as [|c s IH]; intros cur.
  - left. split; [done|]. simpl. by rewrite app_empty_r.
  - cbn [splitFirst]. rewrite prefix_single. destruct (Ascii.eqb c b) eqn:E.
    + apply Ascii.eqb_eq in E as ->. right. exists "", s.
      split; [done|]. split; [done|]. simpl. by rewrite app_empty_r.
    + destruct (IH (cur +:+ String c "")) as [[Hs ->]|(k & v & -> & Hk & ->)].
      * left. unfold noByte in *. cbn [allBytes]. rewrite E, Hs.
        split; [done|]. by rewrite app_single_assoc.
      * right. exists (String c k), v. split; [done|].
        unfold noByte in *. cbn [allBytes]. rewrite E, Hk.
        split; [done|]. by rewrite app_single_assoc.
Qed.

End Trimming.

(** ** Templates of sysctl parameters *)

Section SysctlConf.
Import GoStrings Errors Sysctl Preds.

Lemma noByte_app b x y : noByte b (x +:+ y) = noByte b x && noByte b y.
Proof. apply allBytes_app. Qed.

Lemma stripComment_clean line :
  HasPrefix line "#" = false →
  noByte "#" (stripComment line) = true
  ∧ (∀ b, noByte b line = true → noByte b (stripComment line) = true).
Proof.
  intros Hp. unfold stripComment.
  destruct (0 <? Index line "#") eqn:E.
  - split.
    + apply allBytes_TrimSpace, takeBytes_Index. lia.
    + intros b Hb. by apply allBytes_TrimSpace, allBytes_takeBytes.
  - split; [|done]. apply Index_none. pose proof (Index_range "#" line).
    destruct (decide (Index line "#" = 0)) as [H0|H0]; [|lia].
    apply Index_head in H0. congruence.
Qed.

Lemma parseTemplateLine_entry line :
  ∃ o : option (string * string),
    (∀ params, parseTemplateLine params line
               = match o with
                 | Some kv => <[kv.1 := kv.2]> params
                 | None => params
                 end)
    ∧ (∀ kv, o = Some kv →
             isSysctlKey kv.1 = true
             ∧ (noByte "010" line = true →
                goodKey kv.1 = true ∧ goodValue kv.2 = true)).
Proof.
  unfold parseTemplateLine.
  destruct (String.eqb (TrimSpace line) "" || HasPrefix (TrimSpace line) "#")
    eqn:E; [by exists None|].
  apply orb_false_elim in E as [_ Hp].
  destruct (stripComment_clean _ Hp) as [Hhash Hkeep].
  unfold SplitN2.
  destruct (splitFirst_single "=" (stripComment (TrimSpace line)) "")
    as [[_ ->]|(k0 & v0 & Hs & Hk0 & ->)]; [by exists None|].
  change ("" +:+ k0) with k0.
  destruct (String.eqb (TrimSpace k0) "" || HasPrefix (TrimSpace k0) "rlimit."
            || negb (isSysctlKey (TrimSpace k0))) eqn:E; [by exists None|].
  apply orb_false_elim in E as [E Hkey]. apply orb_false_elim in E as [Hne _].
  apply negb_false_iff in Hkey. exists (Some (TrimSpace k0, TrimSpace v0)).
  split; [done|]. intros kv [= <-]. split; [done|]. intros Hlf.
  assert (noByte "010" (stripComment (TrimSpace line)) = true) as Hlf'.
  { by apply Hkeep, allBytes_TrimSpace. }
  rewrite Hs in Hhash, Hlf'. rewrite noByte_app in Hhash, Hlf'.
  apply andb_true_iff in Hhash as [Hh1 Hh2].
  apply andb_true_iff in Hlf' as [Hl1 Hl2].
  unfold noByte in Hh2, Hl2. cbn [allBytes] in Hh2, Hl2.
  apply andb_true_iff in Hh2 as [_ Hh2]. apply andb_true_iff in Hl2 as [_ Hl2].
  cbn [fst snd]. split.
  - unfold goodKey. destruct (TrimSpace_tight k0) as [H0|Ht].
    { rewrite H0 in Hne. done. }
    rewrite Ht. unfold noByte. by rewrite !allBytes_TrimSpace.
  - unfold goodValue, noByte. by rewrite !allBytes_TrimSpace.
Qed.

Lemma parseTemplateLines_good params lines :
  Forall (λ l, noByte "010" l = true) lines → goodParams params →
  goodParams (foldl parseTemplateLine params lines).
Proof.
  revert params. induction lines as [|line lines IH]; intros params Hl Hp; [done|].
  apply Forall_cons in Hl as [Hline Hl]. simpl. apply IH; [done|].
  destruct (parseTemplateLine_entry line) as ([[k v]|] & -> & Hg); [|done].
  destruct (Hg _ eq_refl) as [Hk Hgood]. destruct (Hgood Hline) as [? ?].
  intros k' v'. cbn [fst snd]. destruct (decide (k = k')) as [<-|Hne].
  - rewrite lookup_insert_eq. by intros [= <-].
  - rewrite lookup_insert_ne by done. apply Hp.
Qed.

Lemma parseTemplates_good params templates :
  goodParams params →
  goodParams (foldl (λ params tpl,
                       foldl parseTemplateLine params (Split tpl LF))
                    params templates).
Proof.
  revert params. induction templates as [|tpl templates IH]; intros params Hp;
    [done|].
  simpl. apply IH, parseTemplateLines_good; [|done]. apply Split_pieces.
Qed.

Lemma parseTemplate_good templates : goodParams (parseTemplate templates).
Proof.
  apply parseTemplates_good. intros k v. by rewrite lookup_empty.
Qed.

Lemma parseTemplateLines_union params lines :
  foldl parseTemplateLine params lines
  = foldl parseTemplateLine ∅ lines ∪ params.
Proof.
  revert params. induction lines as [|line lines IH]; intros params; simpl.
  { by rewrite (left_id_L ∅ (∪)). }
  rewrite (IH (parseTemplateLine params line)), (IH (parseTemplateLine ∅ line)).
  rewrite <- (assoc_L (∪)). f_equal.
  destruct (parseTemplateLine_entry line) as ([[k v]|] & H & _); rewrite !H.
  - cbn [fst snd]. by rewrite <- insert_union_l, (left_id_L ∅ (∪)).
  - by rewrite (left_id_L ∅ (∪)).
Qed.

Lemma parseTemplates_union params templates :
  foldl (λ params tpl, foldl parseTemplateLine params (Split tpl LF))
        params templates
  = parseTemplate templates ∪ params.
Proof.
  unfold parseTemplate. revert params.
  induction templates as [|tpl templates IH]; intros params; simpl.
  { by rewrite (left_id_L ∅ (∪)). }
  rewrite IH, (IH (foldl parseTemplateLine ∅ (Split tpl LF))).
  rewrite (parseTemplateLines_union params). by rewrite (assoc_L (∪)).
Qed.

(** X19.  parseTemplate over several templates is the union of their
    parameters in which a later template overrides an earlier one. Every key
    it yields is a sysctl key (it holds a dot, no blank or tab, and does not
    start with rlimit.), has no white space at its ends and no #, = or
    newline; every value holds no # or newline. *)
Theorem parseTemplate_layers (earlier later : list string) :
  parseTemplate (earlier ++ later)
  = parseTemplate later ∪ parseTemplate earlier
  ∧ (∀ key value,
       parseTemplate (earlier ++ later) !! key = Some value →
       isSysctlKey key = true ∧ HasPrefix key "rlimit." = false
       ∧ goodKey key = true ∧ goodValue value = true).
Proof.
  split.
  - unfold parseTemplate at 1. rewrite foldl_app.
    apply parseTemplates_union.
  - intros key value H. destruct (parseTemplate_good _ _ _ H) as (Hk & Hv & Hs).
    split; [done|]. split; [|done]. unfold isSysctlKey in Hs.
    by destruct (HasPrefix key "rlimit.").
Qed.

End SysctlConf.

(** ** Merging into sysctl.conf *)

Section SysctlMerge.
Import GoStrings Errors Sysctl Preds.

Lemma isTight_nonempty k : isTight k = true → k ≠ "".
Proof. by destruct k. Qed.

Lemma goodKey_parts k :
  goodKey k = true →
  isTight k = true ∧ noByte "#" k = true ∧ noByte "=" k = true
  ∧ noByte "010" k = true.
Proof. unfold goodKey. rewrite !andb_true_iff. tauto. Qed.

Lemma goodValue_parts v :
  goodValue v = true → noByte "#" v = true ∧ noByte "010" v = true.
Proof. unfold goodValue. rewrite !andb_true_iff. tauto. Qed.

Lemma paramLine_trim k v :
  isTight k = true →
  TrimSpace (paramLine (k, v))
  = (k +:+ " ") +:+ String "=" (trimRight (String " " v)).
Proof.
  intros Ht. unfold paramLine. cbn [fst snd].
  rewrite TrimSpace_app by done. rewrite app_assoc_s. f_equal.
Qed.

Lemma stripComment_id line : noByte "#" line = true → stripComment line = line.
Proof.
  intros H%Index_none. unfold stripComment.
  destruct (0 <? Index line "#") eqn:E; [lia|done].
Qed.

Lemma paramLine_key k v :
  goodKey k = true → goodValue v = true →
  TrimSpace (paramLine (k, v)) ≠ ""
  ∧ HasPrefix (TrimSpace (paramLine (k, v))) "#" = false
  ∧ extractKey (TrimSpace (paramLine (k, v))) = k.
Proof.
  intros (Ht & Hh & He & _)%goodKey_parts (Hvh & _)%goodValue_parts.
  rewrite paramLine_trim by done.
  pose proof (isTight_nonempty k Ht) as Hne.
  split; [by destruct k|]. split.
  { destruct k as [|c k]; [done|]. unfold noByte in Hh. simpl in Hh.
    apply andb_true_iff in Hh as [Hc _]. apply negb_true_iff in Hc.
    rewrite !app_cons. unfold HasPrefix. by rewrite prefix_single. }
  unfold extractKey.
  assert (noByte "#" ((k +:+ " ") +:+ String "=" (trimRight (String " " v)))
          = true) as Hclean.
  { rewrite !noByte_app, Hh. unfold noByte at 2. cbn [allBytes].
    apply (allBytes_trimRight _ (String " " v)). unfold noByte in Hvh.
    simpl. exact Hvh. }
  rewrite stripComment_id by done.
  rewrite Index_app by (by rewrite noByte_app, He).
  assert ((0 <? Z.of_nat (String.length (k +:+ " "))) = true) as ->.
  { rewrite app_length_s. change (String.length " ") with 1%nat.
    apply Z.ltb_lt. lia. }
  rewrite Nat2Z.id, takeBytes_app, TrimSpace_app by done.
  apply app_empty_r.
Qed.

Lemma mergeLine_out params acc line :
  mergeLine params acc line
  = (acc.1 ++ [mergeOut params line],
     match mergeKey params line with
     | Some k => {[k]} ∪ acc.2
     | None => acc.2
     end).
Proof.
  unfold mergeLine, mergeOut, mergeKey.
  destruct (String.eqb (TrimSpace line) "" || HasPrefix (TrimSpace line) "#");
    [done|].
  destruct (String.eqb (extractKey (TrimSpace line)) ""); [done|].
  by destruct (params !! extractKey (TrimSpace line)).
Qed.

Lemma foldl_mergeLine params acc lines :
  foldl (mergeLine params) acc lines
  = (acc.1 ++ (mergeOut params <$> lines),
     list_to_set (omap (mergeKey params) lines) ∪ acc.2).
Proof.
  revert acc. induction lines as [|line lines IH]; intros acc; simpl.
  { rewrite app_nil_r, (left_id_L ∅ (∪)). by destruct acc. }
  rewrite IH, mergeLine_out. cbn [fst snd]. rewrite <- app_assoc. f_equal.
  destruct (mergeKey params line) as [k|]; simpl; [|done].
  rewrite (comm_L (∪) {[k]} (list_to_set _)). by rewrite <- (assoc_L (∪)).
Qed.

Lemma mergeOut_param params k v :
  goodParams params → params !! k = Some v →
  mergeOut params (paramLine (k, v)) = paramLine (k, v)
  ∧ mergeKey params (paramLine (k, v)) = Some k.
Proof.
  intros Hg Hk. destruct (Hg k v Hk) as (Hgk & Hgv & _).
  destruct (paramLine_key k v Hgk Hgv) as (Hne & Hp & Hkey).
  unfold mergeOut, mergeKey. rewrite Hp, Hkey, Hk.
  apply String.eqb_neq in Hne. rewrite Hne.
  apply goodKey_parts in Hgk as (Ht%isTight_nonempty%String.eqb_neq & _).
  by rewrite Ht.
Qed.

Lemma mergeOut_cases params line :
  (mergeOut params line = line ∧ mergeKey params line = None)
  ∨ ∃ k v, params !! k = Some v ∧ mergeOut params line = paramLine (k, v)
           ∧ mergeKey params line = Some k.
Proof.
  unfold mergeOut, mergeKey.
  destruct (String.eqb (TrimSpace line) "" || HasPrefix (TrimSpace line) "#");
    [by left|].
  destruct (String.eqb (extractKey (TrimSpace line)) ""); [by left|].
  destruct (params !! extractKey (TrimSpace line)) as [v|] eqn:E; [|by left].
  right. by exists (extractKey (TrimSpace line)), v.
Qed.

Lemma mergeOut_idem params line :
  goodParams params →
  mergeOut params (mergeOut params line) = mergeOut params line
  ∧ mergeKey params (mergeOut params line) = mergeKey params line.
Proof.
  intros Hg. destruct (mergeOut_cases params line)
    as [[H1 H2]|(k & v & Hk & H1 & H2)].
  - by rewrite !H1.
  - rewrite H1, H2. by apply mergeOut_param.
Qed.

Lemma mergeOut_noLF params line :
  goodParams params → noByte "010" line = true →
  noByte "010" (mergeOut params line) = true.
Proof.
  intros Hg Hl. destruct (mergeOut_cases params line)
    as [[-> _]|(k & v & Hk & -> & _)]; [done|].
  destruct (Hg k v Hk) as ((_ & _ & _ & Hkl)%goodKey_parts
                           & (_ & Hvl)%goodValue_parts & _).
  unfold paramLine. cbn [fst snd]. rewrite !noByte_app, Hkl, Hvl. done.
Qed.

Lemma rev_app_app a b acc :
  String.rev_app (a +:+ b) acc = String.rev_app b (String.rev_app a acc).
Proof.
  revert acc. induction a as [|c a IH]; intros acc; [done|].
  rewrite app_cons. simpl. apply IH.
Qed.

Lemma HasSuffix_LF x : HasSuffix (x +:+ LF) LF = true.
Proof.
  unfold HasSuffix, String.rev, LF. rewrite rev_app_app. simpl.
  destruct (ascii_dec "010" "010"); [|done]. apply prefix_empty.
Qed.

Lemma filter_none {A} (P : A → Prop) `{∀ x, Decision (P x)} (l : list A) :
  Forall (λ x, ¬ P x) l → base.filter P l = [].
Proof.
  induction 1 as [|x l Hx _ IH]; [done|]. by rewrite filter_cons_False.
Qed.

(** A text that merge leaves as it is: its lines are their own output, and
    every parameter is the key of one of them. *)
Lemma merge_fixed params order lines :
  goodParams params → order ≡ₚ map_to_list params →
  lines ≠ [] → Forall (λ l, noByte "010" l = true) lines →
  Forall (λ l, mergeOut params l = l) lines →
  (∀ k v, params !! k = Some v →
          ∃ l, l ∈ lines ∧ mergeKey params l = Some k) →
  HasSuffix (Join lines LF) LF = true →
  merge (Join lines LF) params order = Join lines LF.
Proof.
  intros Hg Hperm Hne Hlf Hout Hkeys Hsuf. unfold merge.
  destruct (String.eqb_spec (Join lines LF) "") as [E|_].
  { rewrite E in Hsuf. done. }
  unfold LF in *. rewrite Split_Join by done. rewrite foldl_mergeLine.
  cbn [fst snd app].
  assert (mergeOut params <$> lines = lines) as ->.
  { clear -Hout. induction Hout as [|l ls Hl _ IH]; [done|].
    simpl. rewrite Hl. by f_equal. }
  rewrite filter_none.
  { cbn [fmap list_fmap]. by rewrite Hsuf. }
  apply Forall_forall. intros [k v] Hin Hnot. apply Hnot. cbn [fst].
  rewrite Hperm in Hin. apply elem_of_map_to_list in Hin.
  destruct (Hkeys k v Hin) as (l & Hl & Hk).
  apply elem_of_union. left. apply elem_of_list_to_set, list_elem_of_omap.
  by exists l.
Qed.

End SysctlMerge.

(** ** Idempotence of the merge *)

Section SysctlIdempotent.
Import GoStrings Errors Sysctl Preds.

Lemma settled_param params k v :
  goodParams params → params !! k = Some v → settled params (paramLine (k, v)).
Proof.
  intros Hg Hk. split; [|by apply mergeOut_param].
  destruct (Hg k v Hk) as ((_ & _ & _ & Hkl)%goodKey_parts
                           & (_ & Hvl)%goodValue_parts & _).
  unfold paramLine. cbn [fst snd]. by rewrite !noByte_app, Hkl, Hvl.
Qed.

Lemma settled_params params order :
  goodParams params → order ≡ₚ map_to_list params →
  Forall (settled params) (paramLine <$> order).
Proof.
  intros Hg Hperm. apply Forall_fmap, Forall_forall. intros [k v] Hin.
  rewrite Hperm in Hin. apply elem_of_map_to_list in Hin.
  by apply settled_param.
Qed.

Lemma settled_fixed params order lines :
  goodParams params → order ≡ₚ map_to_list params →
  lines ≠ [] → Forall (settled params) lines →
  (∀ k v, params !! k = Some v →
          ∃ l, l ∈ lines ∧ mergeKey params l = Some k) →
  HasSuffix (Join lines LF) LF = true →
  merge (Join lines LF) params order = Join lines LF.
Proof.
  intros Hg Hperm Hne Hs Hk Hsuf. apply merge_fixed; try done.
  - eapply Forall_impl; [exact Hs|]. by intros l [? ?].
  - eapply Forall_impl; [exact Hs|]. by intros l [? ?].
Qed.

Lemma merge_shape params order existing :
  goodParams params → order ≡ₚ map_to_list params →
  ∃ lines, merge existing params order = Join lines LF
           ∧ lines ≠ [] ∧ Forall (settled params) lines
           ∧ (∀ k v, params !! k = Some v →
                     ∃ l, l ∈ lines ∧ mergeKey params l = Some k)
           ∧ HasSuffix (Join lines LF) LF = true.
Proof.
  intros Hg Hperm.
  assert (settled params "") as Hblank by done.
  assert (∀ k v, params !! k = Some v → (k, v) ∈ order) as Hin.
  { intros k v Hk. rewrite Hperm. by apply elem_of_map_to_list. }
  unfold merge. destruct (String.eqb existing "").
  { exists (("# tcsss managed sysctl parameters" :: (paramLine <$> order))
            ++ [""]).
    rewrite Join_snoc_empty by done. split; [done|]. split; [by intros H|].
    split; [|split; [|apply HasSuffix_LF]].
    - apply Forall_app. split; [|by apply Forall_singleton].
      constructor; [done|]. by apply settled_params.
    - intros k v Hk. exists (paramLine (k, v)). split.
      + apply elem_of_app. left. right.
        apply list_elem_of_fmap. exists (k, v). split; [done|]. by apply Hin.
      + by apply mergeOut_param. }
  rewrite foldl_mergeLine. cbn [fst snd app].
  set (lines1 := Split existing LF).
  set (upd := list_to_set (omap (mergeKey params) lines1) ∪ ∅).
  set (missing := paramLine <$> base.filter (λ kv, kv.1 ∉ upd) order).
  set (output := match missing with
                 | [] => mergeOut params <$> lines1
                 | _ :: _ =>
                     ((mergeOut params <$> lines1)
                        ++ [""; "# tcsss managed parameters"]) ++ missing
                 end).
  assert (Forall (settled params) (mergeOut params <$> lines1)) as Hout.
  { apply Forall_fmap, Forall_forall. intros l Hl. split.
    - apply mergeOut_noLF; [done|].
      pose proof (Split_pieces "010" existing) as Hp.
      rewrite Forall_forall in Hp. by apply Hp.
    - by apply mergeOut_idem. }
  assert (Forall (settled params) missing) as Hmiss.
  { apply Forall_fmap, Forall_forall. intros [k v] [_ Hkv]%list_elem_of_filter.
    rewrite Hperm in Hkv. apply elem_of_map_to_list in Hkv.
    by apply settled_param. }
  assert (Forall (settled params) output) as Houtput.
  { subst output. destruct missing; [done|].
    apply Forall_app. split; [|done]. apply Forall_app. split; [done|].
    constructor; [done|]. by apply Forall_singleton. }
  assert (output ≠ []) as Hne.
  { assert (mergeOut params <$> lines1 ≠ []) as Hne1.
    { intros H%fmap_nil_inv. by apply (Split_nonempty "010" existing). }
    subst output. destruct missing; [done|].
    intros [[H _]%app_eq_nil _]%app_eq_nil. done. }
  assert (∀ k v, params !! k = Some v →
                 ∃ l, l ∈ output ∧ mergeKey params l = Some k) as Hkeys.
  { intros k v Hk. destruct (decide (k ∈ upd)) as [Hu|Hu].
    - subst upd. rewrite (right_id_L ∅ (∪)) in Hu.
      apply elem_of_list_to_set, list_elem_of_omap in Hu as (l & Hl & Hkey).
      exists (mergeOut params l). split.
      + assert (mergeOut params l ∈ mergeOut params <$> lines1) as Hm.
        { by apply list_elem_of_fmap_2. }
        subst output. destruct missing; [done|].
        apply elem_of_app. left. apply elem_of_app. by left.
      + destruct (mergeOut_idem params l Hg) as [_ ->]. done.
    - assert (paramLine (k, v) ∈ missing) as Hm.
      { subst missing. apply list_elem_of_fmap_2, list_elem_of_filter.
        split; [done|]. by apply Hin. }
      exists (paramLine (k, v)). split; [|by apply mergeOut_param].
      subst output. destruct missing; [by apply elem_of_nil in Hm|].
      apply elem_of_app. by right. }
  clearbody output. clear Hout Hmiss.
  destruct (HasSuffix (Join output LF) LF) eqn:Hsuf; cbn [negb].
  - by exists output.
  - exists (output ++ [""]). rewrite Join_snoc_empty by done.
    split; [done|]. split; [by intros [? _]%app_eq_nil|].
    split; [|split; [|apply HasSuffix_LF]].
    + apply Forall_app. split; [done|]. by apply Forall_singleton.
    + intros k v Hk. destruct (Hkeys k v Hk) as (l & Hl & Hkey).
      exists l. split; [|done]. apply elem_of_app. by left.
Qed.

(** X20.  merge is idempotent for the parameters parseTemplate reads:
    merging the merged text once more gives the same text, in whatever order
    the two runs range over the parameter map, so isConfigUnchanged reports
    no change on the second run; and the merged text holds the line key =
    value for every template parameter. *)
Theorem merge_idempotent (templates : list string) (existing : string)
    (order1 order2 : list (string * string)) :
  let params := parseTemplate templates in
  order1 ≡ₚ map_to_list params →
  order2 ≡ₚ map_to_list params →
  merge (merge existing params order1) params order2
  = merge existing params order1
  ∧ isConfigUnchanged (merge existing params order1)
      (merge (merge existing params order1) params order2) = true
  ∧ (∀ key value, params !! key = Some value →
                  paramLine (key, value)
                  ∈ Split (merge existing params order1) LF).
Proof.
  intros params H1 H2.
  assert (merge (merge existing params order1) params order2
          = merge existing params order1) as Heq.
  { destruct (merge_shape params order1 existing)
      as (lines & -> & Hne & Hs & Hk & Hsuf);
      [apply parseTemplate_good|done|].
    apply settled_fixed; try done. apply parseTemplate_good. }
  split; [exact Heq|]. split.
  { unfold isConfigUnchanged. rewrite Heq. apply String.eqb_refl. }
  intros key value Hk.
  destruct (merge_shape params order1 existing)
    as (lines & -> & Hne & Hs & Hkeys & _); [apply parseTemplate_good|done|].
  unfold LF. rewrite Split_Join; [|done|].
  - destruct (Hkeys key value Hk) as (l & Hl & Hkey).
    rewrite Forall_forall in Hs. destruct (Hs l Hl) as [_ Hout].
    destruct (mergeOut_cases params l)
      as [[_ Hnone]|(k & v & Hkv & Hline & Hsome)]; [congruence|].
    assert (k = key) as -> by congruence.
    assert (v = value) as -> by congruence.
    by rewrite <- Hout, Hline in Hl.
  - eapply Forall_impl; [exact Hs|]. by intros l [? ?].
Qed.

Lemma merge_idempotent_witness :
  let params := parseTemplate [sampleTemplate] in
  let order := map_to_list params in
  merge (merge sampleSysctlConf params order) params order
  = merge sampleSysctlConf params order.
Proof.
  intros params order.
  apply (merge_idempotent [sampleTemplate] sampleSysctlConf order order);
    reflexivity.
Defined.

End SysctlIdempotent.

(** ** Numbers in text, and /proc/meminfo *)

Section Numbers.
Import GoStrings Errors World Preds.

Lemma digit_notSpace c : digitValue c ≠ None → notSpace c = true.
Proof. destruct c as [[] [] [] [] [] [] [] []]; by intros H. Qed.

Lemma digitValue_range c d : digitValue c = Some d → 0 ≤ d ≤ 9.
Proof.
  unfold digitValue. destruct (_ && _) eqn:E; [|done]. intros [= <-].
  destruct c as [[] [] [] [] [] [] [] []]; try done; simpl; lia.
Qed.

Lemma parseDigits_digits s acc v :
  parseDigits s acc = Some v → 0 ≤ acc → allBytes notSpace s = true ∧ acc ≤ v.
Proof.
  revert acc. induction s as [|c s IH]; intros acc; simpl.
  { intros [= <-] ?. split; [done|lia]. }
  destruct (digitValue c) as [d|] eqn:Hd; [|done]. intros H Hacc.
  pose proof (digitValue_range c d Hd).
  destruct (IH _ H ltac:(lia)) as [Hs Hv].
  rewrite Hs, digit_notSpace by congruence. split; [done|lia].
Qed.

Lemma ParseUint_Itoa (n : Z) :
  0 ≤ n < 2 ^ 64 → ParseUint (Itoa n) = Some n.
Proof.
  intros Hn. unfold Itoa, pretty, pretty_Z. destruct n as [|p|p]; [done| |lia].
  unfold pretty, pretty_positive, pretty, pretty_N.
  destruct (decide (N.pos p = 0%N)); [done|].
  destruct (pretty_go_digit (N.pos p) "" ltac:(lia)) as (c & rest & Hs & Hc).
  unfold ParseUint. rewrite Hs, <- Hs.
  destruct (parseDigits_pretty_go (N.pos p)) as (k & _ & _ & ->). simpl.
  replace (0 * k + Z.pos p) with (Z.pos p) by lia.
  destruct (Z.leb_spec (Z.pos p) (2 ^ 64 - 1)) as [_|E]; [done|lia].
Qed.

Lemma ParseUint_word s v :
  ParseUint s = Some v → isWord s = true ∧ 0 ≤ v < 2 ^ 64.
Proof.
  unfold ParseUint. destruct s as [|c s]; [done|].
  destruct (parseDigits (String c s) 0) as [w|] eqn:E; [|done].
  destruct (w <=? 2 ^ 64 - 1) eqn:Hw; [|done]. intros [= <-].
  destruct (parseDigits_digits _ _ _ E ltac:(lia)) as [Hs H0].
  unfold isWord. rewrite Hs. split; [done|lia].
Qed.

Lemma Itoa_word (n : Z) : 0 ≤ n < 2 ^ 64 → isWord (Itoa n) = true.
Proof. intros Hn. by eapply ParseUint_word, ParseUint_Itoa. Qed.

(** *** strings.Fields on words separated by spaces *)

Lemma words_go_space cur rest :
  String.words_go cur (String " " rest)
  = option_list (String.rev <$> cur) ++ String.words_go None rest.
Proof. reflexivity. Qed.

Lemma words_word_space w rest :
  isWord w = true →
  String.words_go None (w +:+ String " " rest) = w :: String.words_go None rest.
Proof.
  unfold isWord. intros [Hne Hw]%andb_true_iff.
  apply negb_true_iff, String.eqb_neq in Hne.
  rewrite words_go_word, words_go_space by done. simpl.
  change (String.rev (String.rev_app w "")) with (String.rev (String.rev w)).
  by rewrite rev_rev.
Qed.

Lemma words_spaces n rest :
  String.words_go None (spaces n +:+ rest) = String.words_go None rest.
Proof.
  induction n as [|n IH]; [done|].
  change (spaces (S n) +:+ rest) with (String " " (spaces n +:+ rest)).
  rewrite words_go_space. apply IH.
Qed.

Lemma Fields_three w1 w2 w3 pad :
  isWord w1 = true → isWord w2 = true → isWord w3 = true →
  Fields (w1 +:+ spaces (S pad) +:+ w2 +:+ " " +:+ w3) = [w1; w2; w3].
Proof.
  intros H1 H2 H3. unfold Fields, String.words.
  change (spaces (S pad) +:+ w2 +:+ " " +:+ w3)
    with (String " " (spaces pad +:+ w2 +:+ " " +:+ w3)).
  rewrite words_word_space, words_spaces by done.
  change (" " +:+ w3) with (String " " w3).
  rewrite words_word_space by done.
  pose proof (Fields_Join [w3]) as H. unfold Fields, Join, String.words in H.
  simpl in H. rewrite H; [done|]. by apply Forall_singleton.
Qed.

End Numbers.

Section MemInfo.
Import GoStrings Errors World Sysinfo Preds.

Lemma memTotal_skip path before rest :
  Forall (λ l, HasPrefix l "MemTotal:" = false) before →
  memTotal path (before ++ rest) = memTotal path rest.
Proof. induction 1 as [|l ls Hl _ IH]; [done|]. simpl. by rewrite Hl. Qed.

Lemma Itoa_noLF n : 0 ≤ n < 2 ^ 64 → noLF (Itoa n) = true.
Proof.
  intros Hn. apply Itoa_word in Hn. unfold isWord in Hn.
  apply andb_true_iff in Hn as [_ Hn]. revert Hn. unfold noLF.
  generalize (Itoa n). intros s. induction s as [|c s IH]; [done|].
  simpl. intros [Hc Hs]%andb_true_iff. unfold noByte. simpl.
  rewrite andb_true_iff. split; [|by apply IH].
  destruct c as [[] [] [] [] [] [] [] []]; done.
Qed.

Lemma memTotalLine_noLF n pad :
  0 ≤ n < 2 ^ 64 → noLF (memTotalLine pad n) = true.
Proof.
  intros Hn. unfold noLF, memTotalLine. rewrite !noByte_app.
  assert (noByte "010" (spaces (S pad)) = true) as ->.
  { generalize (S pad). intros k. by induction k. }
  apply Itoa_noLF in Hn. unfold noLF in Hn. by rewrite Hn.
Qed.

(** X21.  ReadMemoryKB reads the kernel's meminfo format: when the file
    holds a line made of MemTotal:, at least one space, a positive decimal
    number below 2^64, a space and kB, and no earlier line starts with
    MemTotal:, the result is that number, after exactly one file read. *)
Theorem ReadMemoryKB_MemTotal (path : string) (env : Env) (t : Trace)
    (before after : list string) (pad : nat) (n : Z) :
  Forall (λ l, HasPrefix l "MemTotal:" = false ∧ noLF l = true) before →
  Forall (λ l, noLF l = true) after →
  0 < n < 2 ^ 64 →
  envReadFile env t path
  = Ok (Join (before ++ memTotalLine pad n :: after) Sysctl.LF) →
  ReadMemoryKB path env t = (Ok n, t ++ [CallReadFile path]).
Proof.
  intros Hb Ha Hn Hfile. unfold ReadMemoryKB. rewrite bind_run.
  unfold ReadFile, call. cbn [fst snd]. rewrite Hfile. cbn [ret].
  f_equal. unfold Sysctl.LF. rewrite Split_Join.
  - rewrite memTotal_skip.
    2:{ eapply Forall_impl; [exact Hb|]. by intros l [? _]. }
    cbn [memTotal]. unfold memTotalLine.
    assert (HasPrefix ("MemTotal:" +:+ spaces (S pad) +:+ Itoa n +:+ " kB")
                      "MemTotal:" = true) as -> by apply prefix_app.
    change " kB" with (" " +:+ "kB").
    rewrite Fields_three; [|done|apply Itoa_word; lia|done].
    rewrite ParseUint_Itoa by lia.
    destruct (n =? 0) eqn:E; [lia|done].
  - by destruct before.
  - apply Forall_app. split.
    + eapply Forall_impl; [exact Hb|]. by intros l [_ ?].
    + constructor; [apply memTotalLine_noLF; lia|done].
Qed.

Lemma ReadMemoryKB_MemTotal_witness :
  ReadMemoryKB "/proc/meminfo"
    (fileEnv (Join [memTotalLine 7 16384; "MemFree:  1024 kB"; ""] Sysctl.LF))
    []
  = (Ok 16384, [CallReadFile "/proc/meminfo"]).
Proof.
  apply (ReadMemoryKB_MemTotal "/proc/meminfo" _ [] []
           ["MemFree:  1024 kB"; ""] 7 16384).
  - constructor.
  - repeat constructor.
  - lia.
  - reflexivity.
Defined.

End MemInfo.

(** ** Resource limits *)

Section RlimitLines.
Import GoStrings Errors World Rlimit Preds.

Lemma splitFirst_app (b : ascii) k v cur :
  noByte b k = true →
  splitFirst (String b "") (k +:+ String b v) cur = [cur +:+ k; v].
Proof.
  revert cur. induction k as [|c k IH]; intros cur Hk.
  - change ("" +:+ String b v) with (String b v). cbn [splitFirst].
    rewrite prefix_single, Ascii.eqb_refl. by rewrite app_empty_r.
  - unfold noByte in Hk. cbn [allBytes] in Hk.
    apply andb_true_iff in Hk as [Hc Hk]. apply negb_true_iff in Hc.
    rewrite app_cons. cbn [splitFirst]. rewrite prefix_single, Hc.
    rewrite IH by done. by rewrite app_single_assoc.
Qed.

Lemma resourceName_word name r :
  resourceNameToRlimit name = Some r →
  isWord name = true ∧ noByte "=" name = true ∧ noLF name = true.
Proof.
  unfold resourceNameToRlimit.
  repeat match goal with
         | |- context [String.eqb name ?x] =>
             destruct (String.eqb_spec name x) as [->|_]; [done|]
         end.
  done.
Qed.

Lemma rlimitValue_word v :
  0 ≤ rlimitNumber v < 2 ^ 64 →
  isWord (rlimitValue v) = true ∧ noLF (rlimitValue v) = true
  ∧ parseRlimitValue (rlimitValue v) = Ok (rlimitNumber v).
Proof.
  destruct v as [n|]; simpl; [|done]. intros Hn.
  pose proof (Itoa_word n Hn) as Hw. split; [done|].
  split; [by apply Itoa_noLF|].
  unfold parseRlimitValue. rewrite TrimSpace_id by (by apply isWord_tight).
  pose proof (ParseUint_Itoa n Hn) as Hp.
  destruct (String.eqb_spec (Itoa n) "unlimited") as [E|_].
  { by rewrite E in Hp. }
  by rewrite Hp.
Qed.

Lemma isWord_app a b : isWord a = true → allBytes notSpace b = true → isWord (a +:+ b) = true.
Proof.
  unfold isWord. intros [Hne Ha]%andb_true_iff Hb.
  rewrite allBytes_app, Ha, Hb. destruct a; done.
Qed.

Lemma isWord_bytes a : isWord a = true → allBytes notSpace a = true.
Proof. unfold isWord. by intros [_ ?]%andb_true_iff. Qed.

Lemma parseRlimitLine_entry (e : string * option Z) r :
  resourceNameToRlimit e.1 = Some r →
  0 ≤ rlimitNumber e.2 < 2 ^ 64 →
  noLF (rlimitLine e) = true
  ∧ ∃ l, parseRlimitLine (rlimitLine e) = Some l ∧ limitFor e l.
Proof.
  destruct e as [name v]. cbn [fst snd]. intros Hr Hn.
  destruct (resourceName_word _ _ Hr) as (Hw & Heq & Hlf).
  destruct (rlimitValue_word v Hn) as (Hvw & Hvlf & Hv).
  unfold rlimitLine. cbn [fst snd]. split.
  { unfold noLF in *. by rewrite !noByte_app, Hlf, Hvlf. }
  assert (isWord ("rlimit." +:+ name +:+ "=" +:+ rlimitValue v) = true) as Hline.
  { apply isWord_app; [done|]. rewrite !allBytes_app.
    by rewrite (isWord_bytes _ Hw), (isWord_bytes _ Hvw). }
  unfold parseRlimitLine.
  rewrite (TrimSpace_id _ (isWord_tight _ Hline)).
  unfold HasPrefix at 1. rewrite prefix_app. cbn [negb].
  unfold SplitN2.
  change ("rlimit." +:+ name +:+ "=" +:+ rlimitValue v)
    with (("rlimit." +:+ name) +:+ String "=" (rlimitValue v)).
  rewrite splitFirst_app by (by rewrite noByte_app, Heq).
  change ("" +:+ "rlimit." +:+ name) with ("rlimit." +:+ name).
  unfold TrimPrefix, HasPrefix. rewrite prefix_app.
  change (dropBytes (String.length "rlimit.") ("rlimit." +:+ name)) with name.
  rewrite (TrimSpace_id name (isWord_tight _ Hw)).
  rewrite (TrimSpace_id _ (isWord_tight _ Hvw)).
  rewrite Hr, Hv. eexists. split; [done|].
  unfold limitFor. cbn [fst snd resource soft hard Rlimit.name].
  split; [done|]. split; [done|]. split; [done|].
  unfold unlimited.
  destruct (String.eqb_spec name "stack") as [->|Hne]; cbn [andb].
  - destruct (Z.eqb_spec (rlimitNumber v) (2 ^ 64 - 1)) as [E|E]; cbn [negb];
      repeat split; try done.
  - repeat split; done.
Qed.

(** X22.  parseRlimitConfig reads back template lines
    rlimit.<resource>=<value>: for known resources, with a decimal number
    below 2^64 or the word unlimited as the value, it yields one limit per
    line, in order, named RLIMIT_ followed by the upper-case resource, soft
    and hard limit alike the number (2^64 - 1 for unlimited); a stack size
    counts kilobytes and is multiplied by 1024 with 64-bit wrap-around,
    unless it is 2^64 - 1. *)
Theorem parseRlimitConfig_entries (entries : list (string * option Z)) :
  Forall (λ e, is_Some (resourceNameToRlimit e.1)
               ∧ 0 ≤ rlimitNumber e.2 < 2 ^ 64) entries →
  Forall2 limitFor entries
          (parseRlimitConfig (Join (rlimitLine <$> entries) Sysctl.LF)).
Proof.
  intros Hentries. unfold parseRlimitConfig.
  destruct entries as [|e0 entries0]; [constructor|].
  unfold Sysctl.LF. rewrite Split_Join; [|done|].
  - induction Hentries as [|e es [[r Hr] Hn] _ IH]; [constructor|].
    destruct (parseRlimitLine_entry e r Hr Hn) as (_ & l & Hl & Hfor).
    cbn [fmap list_fmap omap list_omap]. rewrite Hl. by constructor.
  - apply Forall_fmap. eapply Forall_impl; [exact Hentries|].
    intros e [[r Hr] Hn]. by destruct (parseRlimitLine_entry e r Hr Hn).
Qed.

Lemma parseRlimitConfig_entries_witness :
  Forall2 limitFor
    [("nofile", Some 1048576); ("stack", Some 8192); ("core", None)]
    (parseRlimitConfig
       (Join (rlimitLine <$> [("nofile", Some 1048576); ("stack", Some 8192);
                              ("core", None)]) Sysctl.LF)).
Proof.
  apply (parseRlimitConfig_entries
           [("nofile", Some 1048576); ("stack", Some 8192); ("core", None)]).
  repeat constructor; simpl; try done; try lia.
Defined.

End RlimitLines.

(** ** Window segments *)

Section Segments.
Import GoStrings Errors World Route.

Lemma wrapInt_wrap (a b : Z) : wrapInt (wrapInt a + b) = wrapInt (a + b).
Proof.
  unfold wrapInt. f_equal.
  replace ((a + 2 ^ 63) `mod` 2 ^ 64 - 2 ^ 63 + b + 2 ^ 63)
    with ((a + 2 ^ 63) `mod` 2 ^ 64 + b) by lia.
  rewrite Zplus_mod_idemp_l. f_equal. lia.
Qed.

(** X23.  bytesToSegments on Go's 64-bit int: 0 when the MSS or the byte
    count is not positive; the ceiling of bytes / mss, between 1 and bytes,
    when bytes + mss - 1 does not exceed the largest int; beyond that the
    sum wraps around and the count comes out wrong, negative for 2^63 - 1024
    bytes at MSS 1460. *)
Theorem bytesToSegments_ceiling (bytes mss : Z) :
  (mss ≤ 0 ∨ bytes ≤ 0 → bytesToSegments bytes mss = 0)
  ∧ (0 < bytes → 0 < mss → bytes + mss - 1 < 2 ^ 63 →
     (bytesToSegments bytes mss - 1) * mss < bytes
     ∧ bytes ≤ bytesToSegments bytes mss * mss
     ∧ 1 ≤ bytesToSegments bytes mss ≤ bytes)
  ∧ bytesToSegments (16 * 1024 * 1024) 1460 = 11492
  ∧ bytesToSegments (2 ^ 63 - 1024) 1460 = -6317378107434777.
Proof.
  split; [|split; [|split; by vm_compute]].
  - intros H. unfold bytesToSegments.
    destruct (Z.leb_spec mss 0); [done|].
    destruct (Z.leb_spec bytes 0); [done|lia].
  - intros Hb Hm Hsum. unfold bytesToSegments.
    destruct (Z.leb_spec mss 0); [lia|]. destruct (Z.leb_spec bytes 0); [lia|].
    cbn [orb]. change (wrapInt (bytes + mss) - 1)
      with (wrapInt (bytes + mss) + -1).
    rewrite wrapInt_wrap, wrapInt_id by lia.
    replace (bytes + mss + -1) with (bytes + mss - 1) by lia. rewrite Z.quot_div_nonneg by lia.
    pose proof (Z.div_mod (bytes + mss - 1) mss ltac:(lia)) as Hd.
    pose proof (Z.mod_pos_bound (bytes + mss - 1) mss Hm) as Hr.
    split; [nia|]. split; [nia|]. split; [nia|].
    apply Z.div_le_upper_bound; [lia|]. nia.
Qed.

End Segments.
